(** * Registry URL dialects, version fetchers and the upgrade engine

    A shallow embedding of [src/registry.ts] (the registry variants, the
    paginated fetchers, the version caches and [lookup]) and of the upgrade
    pass [upgradeDeps], followed by the properties checked against them.

    JavaScript strings are modelled as [string] (8-bit characters), arrays as
    lists, [Map<string, string[]>] as [gmap string (list value)], thrown
    exceptions as a [completion], and the regular expressions of the source as
    terms of a small regular-expression language interpreted by a backtracking
    matcher that follows the priority order of the JavaScript engine. *)

From Stdlib Require Import Ascii String List Arith Lia Bool Sorted.
From stdpp Require Import base option list strings gmap pretty.

Local Open Scope list_scope.

(* ===================================================================== *)
(** ** JavaScript values and completions *)
(* ===================================================================== *)

Module JS.

(** The exceptions the code can raise: [Error(msg)], thrown by the source
    itself; the [TypeError] the runtime raises when a property is read from,
    or a pattern destructures, [null] or [undefined], and when [fetch] fails;
    the [SyntaxError] of [json()] on a body that is not JSON. [OutOfFuel] is
    not a JavaScript exception: it marks a loop of the model that was given
    too little fuel, and the loops of the source are shown never to reach
    it. *)
Inductive exn : Type :=
| Error (msg : string)
| TypeError
| SyntaxError
| OutOfFuel.

Inductive completion (A : Type) : Type :=
| Normal (a : A)
| Throw (e : exn).
Arguments Normal {A} a.
Arguments Throw {A} e.

(** A value that TypeScript types as [string] but that may be [undefined] at
    run time (an array read out of range, an unmatched capture group). *)
Inductive value : Type :=
| VString (s : string)
| VUndefined.

Global Instance value_eq_dec : EqDecision value.
Proof. solve_decision. Defined.

(** What a template literal prints. *)
Definition show_value (v : value) : string :=
  match v with VString s => s | VUndefined => "undefined" end.

(** The truth value of [if (v)]: [undefined] and the empty string are falsy. *)
Definition truthy (v : value) : bool :=
  match v with VString (String _ _) => true | _ => false end.

Definition of_option (o : option string) : value :=
  match o with Some s => VString s | None => VUndefined end.

Definition bind {A B} (c : completion A) (f : A -> completion B) : completion B :=
  match c with Normal a => f a | Throw e => Throw e end.

(* --------------------------------------------------------------------- *)
(** *** Strings and arrays *)

Fixpoint take (n : nat) (s : string) : string :=
  match n, s with
  | S n', String c s' => String c (take n' s')
  | _, _ => ""
  end.

Fixpoint drop (n : nat) (s : string) : string :=
  match n, s with
  | S n', String _ s' => drop n' s'
  | _, _ => s
  end.

(** [s.split(sep)] for a one-character separator: never the empty array. *)
Fixpoint split (sep : ascii) (s : string) : list string :=
  match s with
  | "" => [""]
  | String c s' =>
      if Ascii.eqb c sep then "" :: split sep s'
      else match split sep s' with
           | x :: xs => String c x :: xs
           | [] => [String c ""]
           end
  end.

(** [a[i]]: [undefined] out of range. *)
Definition nth_value (a : list string) (i : nat) : value :=
  of_option (a !! i).

(** An array after an indexed store: a store past the end extends the array
    with holes ([None]), kept apart from strings so that [join] can print
    them as JavaScript does. *)
Fixpoint store (a : list (option string)) (i : nat) (v : string) : list (option string) :=
  match i, a with
  | 0, [] => [Some v]
  | 0, _ :: a' => Some v :: a'
  | S i', [] => None :: store [] i' v
  | S i', x :: a' => x :: store a' i' v
  end.

(** [a.join(sep)]: holes and [undefined] print as the empty string. *)
Fixpoint join (sep : string) (a : list (option string)) : string :=
  match a with
  | [] => ""
  | [x] => default "" x
  | x :: a' => default "" x +:+ sep +:+ join sep a'
  end.

Definition startsWith (s p : string) : bool := String.prefix p s.

(** [a.sort(comparefn)] on an array of strings. The language leaves the
    sequence of the calls of [comparefn] to the implementation, and fixes the
    result when [comparefn] is a consistent comparator: the sorted
    permutation in which elements that compare equal keep their order. The
    model is the insertion sort, which is stable and, with two elements or
    more, compares every element; [x] is put before [y] when
    [comparefn(y, x) > 0]. An exception thrown by [comparefn] is thrown by
    [sort]. *)
Section Sort.
Variable comparefn : string -> string -> completion Z.

Fixpoint insert (x : string) (sorted : list string) : completion (list string) :=
  match sorted with
  | [] => Normal [x]
  | y :: rest =>
      bind (comparefn y x) (fun v =>
        if (0 <? v)%Z then Normal (x :: y :: rest)
        else bind (insert x rest) (fun rest' => Normal (y :: rest')))
  end.

Definition sort (a : list string) : completion (list string) :=
  fold_left (fun sorted x => bind sorted (insert x)) a (Normal []).
End Sort.

End JS.

Import JS.

(* ===================================================================== *)
(** ** Regular expressions *)
(* ===================================================================== *)

Module Regex.

(** One-character matchers. *)
Inductive cset : Type :=
| Any                       (* .  : every character but a line terminator *)
| Chr (c : ascii)           (* a literal character *)
| OneOf (l : list ascii)    (* [...] *)
| NoneOf (l : list ascii)   (* [^...] *)
| Digit.                    (* \d *)

Definition mem (c : ascii) (l : list ascii) : bool :=
  existsb (Ascii.eqb c) l.

Definition accepts (cs : cset) (c : ascii) : bool :=
  match cs with
  | Any => negb (mem c ["010"%char; "013"%char])
  | Chr d => Ascii.eqb c d
  | OneOf l => mem c l
  | NoneOf l => negb (mem c l)
  | Digit => mem c ["0"; "1"; "2"; "3"; "4"; "5"; "6"; "7"; "8"; "9"]%char
  end.

(** The fragment of the JavaScript pattern language the source uses. In the
    source every [*] and [+] is applied to a one-character matcher; [?] is
    also applied to groups. *)
Inductive regex : Type :=
| Eps
| One (cs : cset)
| Seq (r1 r2 : regex)
| Alt (r1 r2 : regex)
| Star (greedy : bool) (cs : cset)
| Plus (greedy : bool) (cs : cset)
| Opt (r : regex)
| Group (n : nat) (r : regex)
| Bol
| Eol
| NegLook (r : regex).

Fixpoint lit (s : string) : regex :=
  match s with
  | "" => Eps
  | String c "" => One (Chr c)
  | String c s' => Seq (One (Chr c)) (lit s')
  end.

Fixpoint cat (rs : list regex) : regex :=
  match rs with
  | [] => Eps
  | [r] => r
  | r :: rs' => Seq r (cat rs')
  end.

(** Captures: the text of each group that took part in the match. *)
Definition caps := list (nat * string).

Fixpoint cap (cs : caps) (n : nat) : option string :=
  match cs with
  | [] => None
  | (k, s) :: cs' => if Nat.eqb k n then Some s else cap cs' n
  end.

(** A matcher state: the offset in the subject, the rest of the subject,
    the captures so far. *)
Definition mstate : Type := nat * string * caps.
Definition cont := nat -> string -> caps -> option mstate.

Section Quantifiers.
Variable f : ascii -> bool.

(** [x*]: longest first, giving characters back one at a time. *)
Fixpoint star_greedy (pos : nat) (s : string) (k : nat -> string -> option mstate)
  : option mstate :=
  match s with
  | String c s' =>
      if f c then
        match star_greedy (S pos) s' k with
        | Some r => Some r
        | None => k pos s
        end
      else k pos s
  | "" => k pos s
  end.

(** [x*?]: shortest first, taking one more character on failure. *)
Fixpoint star_lazy (pos : nat) (s : string) (k : nat -> string -> option mstate)
  : option mstate :=
  match k pos s with
  | Some r => Some r
  | None =>
      match s with
      | String c s' => if f c then star_lazy (S pos) s' k else None
      | "" => None
      end
  end.
End Quantifiers.

Definition star (greedy : bool) := if greedy then star_greedy else star_lazy.

Fixpoint run (r : regex) (pos : nat) (s : string) (cs : caps) (k : cont)
  : option mstate :=
  match r with
  | Eps => k pos s cs
  | One c =>
      match s with
      | String a s' => if accepts c a then k (S pos) s' cs else None
      | "" => None
      end
  | Seq r1 r2 => run r1 pos s cs (fun pos' s' cs' => run r2 pos' s' cs' k)
  | Alt r1 r2 =>
      match run r1 pos s cs k with
      | Some m => Some m
      | None => run r2 pos s cs k
      end
  | Star g c => star g (accepts c) pos s (fun pos' s' => k pos' s' cs)
  | Plus g c =>
      match s with
      | String a s' =>
          if accepts c a
          then star g (accepts c) (S pos) s' (fun pos' s' => k pos' s' cs)
          else None
      | "" => None
      end
  | Opt r1 =>
      match run r1 pos s cs k with
      | Some m => Some m
      | None => k pos s cs
      end
  | Group n r1 =>
      run r1 pos s cs
        (fun pos' s' cs' => k pos' s' ((n, take (pos' - pos) s) :: cs'))
  | Bol => if Nat.eqb pos 0 then k pos s cs else None
  | Eol => match s with "" => k pos s cs | _ => None end
  | NegLook r1 =>
      match run r1 pos s cs (fun pos' s' cs' => Some (pos', s', cs')) with
      | Some _ => None
      | None => k pos s cs
      end
  end.

Definition accept : cont := fun pos s cs => Some (pos, s, cs).

(** One successful match: where it starts, where it ends, what follows it,
    and its captures. *)
Record found : Type := Found {
  m_start : nat;
  m_end : nat;
  m_rest : string;
  m_caps : caps
}.

(** The leftmost match at or after the current offset. *)
Fixpoint search (r : regex) (pos : nat) (s : string) : option found :=
  match run r pos s [] accept with
  | Some (e, rest, cs) => Some (Found pos e rest cs)
  | None =>
      match s with
      | String _ s' => search r (S pos) s'
      | "" => None
      end
  end.

(** [r.test(s)] for a pattern without the [g] flag. *)
Definition test (r : regex) (s : string) : bool :=
  match search r 0 s with Some _ => true | None => false end.

(** [s.match(r)] for a pattern without the [g] flag and [n] groups:
    [null], or the array [[whole, group 1, ..., group n]]. *)
Definition groups (n : nat) (cs : caps) : list (option string) :=
  map (cap cs) (List.seq 1 n).

Definition match_ (r : regex) (n : nat) (s : string) : option (list (option string)) :=
  match search r 0 s with
  | Some m =>
      Some (Some (take (m_end m - m_start m) (drop (m_start m) s)) :: groups n (m_caps m))
  | None => None
  end.

(** [[...s.matchAll(r)].map(x => x[1])] for a pattern with the [g] flag: the
    first group of every match, left to right, each search resuming where the
    previous match ended (one character further after an empty match). The
    fuel bounds the number of matches; [String.length s + 1] is enough. *)
Fixpoint matchAll_from (fuel : nat) (r : regex) (pos : nat) (s : string) : list value :=
  match fuel with
  | 0 => []
  | S fuel' =>
      match search r pos s with
      | None => []
      | Some m =>
          of_option (cap (m_caps m) 1) ::
          (if Nat.eqb (m_end m) (m_start m)
           then match drop (m_start m - pos) s with
                | String _ s' => matchAll_from fuel' r (S (m_start m)) s'
                | "" => []
                end
           else matchAll_from fuel' r (m_end m) (m_rest m))
      end
  end.

Definition matchAll1 (r : regex) (s : string) : list value :=
  matchAll_from (S (String.length s)) r 0 s.

(** The expansion of a replacement template (GetSubstitution), for a pattern
    with [n] groups and no named group. *)
Section Substitution.
Variables (n : nat) (matched before after : string) (cs : caps).

Definition digit_of (c : ascii) : option nat := Ascii.is_nat c.

Definition group_text (i : nat) : string := default "" (cap cs i).

Definition group_ref (i : nat) : bool := (1 <=? i) && (i <=? n).

Fixpoint substitute (t : string) : string :=
  match t with
  | "" => ""
  | String c t1 =>
      if negb (Ascii.eqb c "$"%char) then String c (substitute t1)
      else
        match t1 with
        | "" => "$"
        | String d1 t2 =>
            if Ascii.eqb d1 "$"%char then String "$"%char (substitute t2)
            else if Ascii.eqb d1 "&"%char then matched +:+ substitute t2
            else if Ascii.eqb d1 "`"%char then before +:+ substitute t2
            else if Ascii.eqb d1 "'"%char then after +:+ substitute t2
            else
              match digit_of d1 with
              | None => String "$"%char (substitute t1)
              | Some i1 =>
                  let one :=
                    if group_ref i1
                    then group_text i1 +:+ substitute t2
                    else String "$"%char (String d1 (substitute t2)) in
                  match t2 with
                  | String d2 t3 =>
                      match digit_of d2 with
                      | Some i2 =>
                          if group_ref (10 * i1 + i2)
                          then group_text (10 * i1 + i2) +:+ substitute t3
                          else one
                      | None => one
                      end
                  | "" => one
                  end
              end
        end
  end.
End Substitution.

(** [s.replace(r, template)] for a pattern without the [g] flag. *)
Definition replace (r : regex) (n : nat) (template s : string) : string :=
  match search r 0 s with
  | None => s
  | Some m =>
      let before := take (m_start m) s in
      let matched := take (m_end m - m_start m) (drop (m_start m) s) in
      before +:+ substitute n matched before (m_rest m) (m_caps m) template +:+ m_rest m
  end.

End Regex.


Import Regex.

(* ===================================================================== *)
(** ** The registry variants *)
(* ===================================================================== *)

(** One constructor per class of the source, in the order they are declared. *)
Inductive RegistryCtor : Type :=
| DenoLand | Jsr | Npm
| UnpkgScope | Unpkg | Jspm | Denopkg | PaxDenoDev
| PikaScope | Pika | SkypackScope | Skypack | EsmShScope | EsmSh
| GithubRaw | JsDelivr | GitlabRaw | NestLand.

Global Instance RegistryCtor_eq_dec : EqDecision RegistryCtor.
Proof. solve_decision. Defined.

(** An instance: the class it was built with, and its only field. *)
Record RegistryUrl : Type := new {
  ctor : RegistryCtor;
  url : string
}.

Global Instance RegistryUrl_eq_dec : EqDecision RegistryUrl.
Proof. solve_decision. Defined.

Module Patterns.

(** Each pattern is quoted from the source above its definition; in the
    quotations DQ stands for the double quote, and a star is kept apart from a
    parenthesis next to it. *)

(** The classes that exclude quotes, and quotes and the slash; the character
    034 is the double quote. *)
Definition not_quote : cset := NoneOf ["'"; "034"]%char.
Definition not_slash_quote : cset := NoneOf ["/"; "034"; "'"]%char.
Definition not_slash : cset := NoneOf ["/"]%char.
Definition not_at_slash : cset := NoneOf ["@"; "/"]%char.
Definition dot : regex := One Any.
Definition https : regex := Seq (lit "http") (Seq (Opt (lit "s")) (lit "://")).

(** [/@(.*?)(\/|$)/] *)
Definition at_re : regex :=
  cat [lit "@"; Group 1 (Star false Any); Group 2 (Alt (lit "/") Eol)].

(** [/\@([^\/]+)[\/$]?/] *)
Definition version_re : regex :=
  cat [lit "@"; Group 1 (Plus true not_slash); Opt (One (OneOf ["/"; "$"]%char))].

(** [/([^\/\DQ\']*?)\@[^\'\DQ]*/] *)
Definition name_re : regex :=
  cat [Group 1 (Star false not_slash_quote); lit "@"; Star true not_quote].

(** [/\<id\>tag\:github\.com\,2008\:Repository\/\d+\/(.*?)\<\/id\>/g] *)
Definition github_id_re : regex :=
  cat [lit "<id>tag:github.com,2008:Repository/"; Plus true Digit; lit "/";
       Group 1 (Star false Any); lit "</id>"].

(** [/\<id\>https\:\/\/gitlab.com.+\/-\/tags\/(.+?)\<\/id\>/g] *)
Definition gitlab_id_re : regex :=
  cat [lit "<id>https://gitlab"; dot; lit "com"; Plus true Any; lit "/-/tags/";
       Group 1 (Plus false Any); lit "</id>"].

(** [/\<option[^\<\>]* value\=\DQ(.*?)\DQ\>/g] *)
Definition option_re : regex :=
  cat [lit "<option"; Star true (NoneOf ["<"; ">"]%char); lit " value=";
       One (Chr "034"); Group 1 (Star false Any); One (Chr "034"); lit ">"].

(** [/deno\.land\/(?:(std)|x\/([^/@]* ))/] *)
Definition denoland_name_re : regex :=
  cat [lit "deno.land/";
       Alt (Group 1 (lit "std"))
           (Seq (lit "x/") (Group 2 (Star true (NoneOf ["/"; "@"]%char))))].

(** [/https?:\/\/deno.land\/(?:std\@[^\'\DQ]*|x\/[^\/\DQ\']*?\@[^\'\DQ]* )/] *)
Definition denoland_re : regex :=
  cat [https; lit "deno"; dot; lit "land/";
       Alt (cat [lit "std@"; Star true not_quote])
           (cat [lit "x/"; Star false not_slash_quote; lit "@"; Star true not_quote])].

(** The name part shared by the four [jsr:] and [npm:] patterns, with or
    without the optional leading slash of the [jsr:] parser. *)
Definition scoped_or_plain (slash : bool) : regex :=
  let sl := if slash then Opt (lit "/") else Eps in
  Group 1 (Alt (cat [sl; lit "@"; Plus true not_slash; lit "/"; Plus true not_at_slash])
               (cat [sl; Plus true not_at_slash])).

(** [/^jsr:(\/?\@[^/]+\/[^@/]+|\/?[^@/]+)(?:\@([^/]+))?(.* )/] *)
Definition jsr_parse_re : regex :=
  cat [Bol; lit "jsr:"; scoped_or_plain true;
       Opt (Seq (lit "@") (Group 2 (Plus true not_slash)));
       Group 3 (Star true Any)].

(** [/jsr:(\@[^/]+\/[^@/]+|[^@/]+)(?:\@([^\/\DQ\']+))?[^\'\DQ]/] *)
Definition jsr_re : regex :=
  cat [lit "jsr:"; scoped_or_plain false;
       Opt (Seq (lit "@") (Group 2 (Plus true not_slash_quote)));
       One not_quote].

(** [/^npm:(\@[^/]+\/[^@/]+|[^@/]+)(?:\@([^/]+))?(.* )/] *)
Definition npm_parse_re : regex :=
  cat [Bol; lit "npm:"; scoped_or_plain false;
       Opt (Seq (lit "@") (Group 2 (Plus true not_slash)));
       Group 3 (Star true Any)].

(** [/npm:(\@[^/]+\/[^@/]+|[^@/]+)(?:\@([^\/\DQ\']+))?[^\'\DQ]/] *)
Definition npm_re : regex :=
  cat [lit "npm:"; scoped_or_plain false;
       Opt (Seq (lit "@") (Group 2 (Plus true not_slash_quote)));
       One not_quote].

(** The tail of an unscoped CDN pattern (a lazy run without slash or quote,
    the at sign, a run without quote) and the tail of a two-segment one. *)
Definition pkg_at : regex :=
  cat [Star false not_slash_quote; lit "@"; Star true not_quote].
Definition seg_pkg_at : regex :=
  cat [Star false not_slash_quote; lit "/"; pkg_at].

(** [/https?:\/\/unpkg\.com\/@[^\/\DQ\']*?\/[^\/\DQ\']*?\@[^\'\DQ]*/] *)
Definition unpkg_scope_re : regex := cat [https; lit "unpkg.com/@"; seg_pkg_at].
(** [/https?:\/\/unpkg.com\/[^\/\DQ\']*?\@[^\'\DQ]*/] *)
Definition unpkg_re : regex := cat [https; lit "unpkg"; dot; lit "com/"; pkg_at].
(** [/https?:\/\/dev.jspm.io\/[^\/\DQ\']*?\@[^\'\DQ]*/] *)
Definition jspm_re : regex :=
  cat [https; lit "dev"; dot; lit "jspm"; dot; lit "io/"; pkg_at].
(** [/https?:\/\/denopkg.com\/[^\/\DQ\']*?\/[^\/\DQ\']*?\@[^\'\DQ]*/] *)
Definition denopkg_re : regex := cat [https; lit "denopkg"; dot; lit "com/"; seg_pkg_at].
(** [/https?:\/\/pax.deno.dev\/[^\/\DQ\']*?\/[^\/\DQ\']*?\@[^\'\DQ]*/] *)
Definition paxdenodev_re : regex :=
  cat [https; lit "pax"; dot; lit "deno"; dot; lit "dev/"; seg_pkg_at].
(** [/https?:\/\/cdn\.pika\.dev(\/\_)?\/@[^\/\DQ\']*?\/[^\/\DQ\']*?\@[^\'\DQ]*/] *)
Definition pika_scope_re : regex :=
  cat [https; lit "cdn.pika.dev"; Opt (Group 1 (lit "/_")); lit "/@"; seg_pkg_at].
(** [/https?:\/\/cdn.pika.dev(\/\_)?\/[^\/\DQ\']*?\@[^\'\DQ]*/] *)
Definition pika_re : regex :=
  cat [https; lit "cdn"; dot; lit "pika"; dot; lit "dev"; Opt (Group 1 (lit "/_"));
       lit "/"; pkg_at].
(** [/https?:\/\/cdn\.skypack\.dev(\/\_)?\/@[^\/\DQ\']*?\/[^\/\DQ\']*?\@[^\'\DQ]*/] *)
Definition skypack_scope_re : regex :=
  cat [https; lit "cdn.skypack.dev"; Opt (Group 1 (lit "/_")); lit "/@"; seg_pkg_at].
(** [/https?:\/\/cdn.skypack.dev(\/\_)?\/[^\/\DQ\']*?\@[^\'\DQ]*/] *)
Definition skypack_re : regex :=
  cat [https; lit "cdn"; dot; lit "skypack"; dot; lit "dev"; Opt (Group 1 (lit "/_"));
       lit "/"; pkg_at].
(** [/https?:\/\/esm\.sh\/@[^\/\DQ\']*?\/[^\/\DQ\']*?\@[^\'\DQ]*/] *)
Definition esmsh_scope_re : regex := cat [https; lit "esm.sh/@"; seg_pkg_at].
(** [/https?:\/\/esm.sh\/[^\/\DQ\']*?\@[^\'\DQ]*/] *)
Definition esmsh_re : regex := cat [https; lit "esm"; dot; lit "sh/"; pkg_at].

Definition not_master : regex := NegLook (lit "master").
Definition segment : regex := Plus true not_slash_quote.

(** [/https?:\/\/raw\.githubusercontent\.com\/[^\/\DQ\']+\/[^\/\DQ\']+\/(?!master)[^\/\DQ\']+\/[^\'\DQ]*/] *)
Definition github_raw_re : regex :=
  cat [https; lit "raw.githubusercontent.com/"; segment; lit "/"; segment; lit "/";
       not_master; segment; lit "/"; Star true not_quote].
(** [/https?:\/\/cdn\.jsdelivr\.net\/gh\/[^\/\DQ\']+\/[^\/\DQ\']+@(?!master)[^\/\DQ\']+\/[^\'\DQ]*/] *)
Definition jsdelivr_re : regex :=
  cat [https; lit "cdn.jsdelivr.net/gh/"; segment; lit "/"; segment; lit "@";
       not_master; segment; lit "/"; Star true not_quote].
(** [/https?:\/\/gitlab\.com\/[^\/\DQ\']+\/[^\/\DQ\']+\/-\/raw\/(?!master)[^\/\DQ\']+\/[^\'\DQ]*/] *)
Definition gitlab_raw_re : regex :=
  cat [https; lit "gitlab.com/"; segment; lit "/"; segment; lit "/-/raw/";
       not_master; segment; lit "/"; Star true not_quote].
(** [/https?:\/\/x\.nest\.land\/[^\/\DQ\']+@(?!master)[^\/\DQ\']+\/[^\'\DQ]*/] *)
Definition nestland_re : regex :=
  cat [https; lit "x.nest.land/"; segment; lit "@"; not_master; segment; lit "/";
       Star true not_quote].

End Patterns.

Import Patterns.

(** The [regexp] field of each class. *)
Definition regexp (R : RegistryCtor) : regex :=
  match R with
  | DenoLand => denoland_re
  | Jsr => jsr_re
  | Npm => npm_re
  | UnpkgScope => unpkg_scope_re
  | Unpkg => unpkg_re
  | Jspm => jspm_re
  | Denopkg => denopkg_re
  | PaxDenoDev => paxdenodev_re
  | PikaScope => pika_scope_re
  | Pika => pika_re
  | SkypackScope => skypack_scope_re
  | Skypack => skypack_re
  | EsmShScope => esmsh_scope_re
  | EsmSh => esmsh_re
  | GithubRaw => github_raw_re
  | JsDelivr => jsdelivr_re
  | GitlabRaw => gitlab_raw_re
  | NestLand => nestland_re
  end.

(* --------------------------------------------------------------------- *)
(** *** The shared helpers *)

(** What a template literal prints for a value. *)
Definition show (v : option string) : string := default "undefined" v.

Definition version_not_found (u : string) : exn :=
  Error ("Unable to find version in " +:+ u).

(** [defaultAt]: the first [@...] segment replaced by [@version/]; the
    version is used as a replacement template. *)
Definition defaultAt (that : RegistryUrl) (version : string) : string :=
  replace at_re 2 ("@" +:+ version +:+ "/") (url that).

(** [defaultVersion] *)
Definition defaultVersion (that : RegistryUrl) : completion value :=
  match match_ version_re 1 (url that) with
  | None => Throw (version_not_found (url that))
  | Some v => Normal (of_option (mjoin (v !! 1)))
  end.

(** [defaultName] *)
Definition defaultName (that : RegistryUrl) : completion value :=
  match match_ name_re 1 (url that) with
  | None => Throw (Error ("Package name not found in " +:+ url that))
  | Some n => Normal (of_option (mjoin (n !! 1)))
  end.

Record PackageInfo : Type := {
  parts : list string;
  scope : string;
  packageName : string;
  version_of : string
}.

(** [defaultInfo]: the fifth segment is split before the fourth is tested. *)
Definition defaultInfo (that : RegistryUrl) : completion PackageInfo :=
  let parts := split "/" (url that) in
  match parts !! 4 with
  | None => Throw TypeError
  | Some p4 =>
      let pv := split "@" p4 in
      match parts !! 3 with
      | None => Throw (Error ("Package scope not found in " +:+ url that))
      | Some p3 =>
          match pv !! 0 with
          | None => Throw (Error ("Package name not found in " +:+ url that))
          | Some packageName =>
              match pv !! 1 with
              | None => Throw (version_not_found (url that))
              | Some version =>
                  Normal {| parts := parts; scope := p3;
                            packageName := packageName; version_of := version |}
              end
          end
      end
  end.

(** [defaultScopeAt] *)
Definition defaultScopeAt (that : RegistryUrl) (version : string) : completion string :=
  bind (defaultInfo that) (fun info =>
    Normal (join "/" (store (Some <$> parts info) 4
                            (packageName info +:+ "@" +:+ version)))).

(** [JsDelivr.parts]: the repository and the version, both read from the
    sixth segment. *)
Definition JsDelivr_parts (that : RegistryUrl)
  : completion (list string * value * string * value) :=
  let parts := split "/" (url that) in
  match parts !! 5 with
  | None => Throw TypeError
  | Some p5 =>
      let rv := split "@" p5 in
      Normal (parts, nth_value parts 4, default "" (rv !! 0), nth_value rv 1)
  end.

(* --------------------------------------------------------------------- *)
(** *** [version()] *)

Definition version (u : RegistryUrl) : completion value :=
  match ctor u with
  | Jsr =>
      match match_ jsr_parse_re 3 (url u) with
      | None => Throw TypeError
      | Some m =>
          (* the group is [undefined], never [null], when it took no part *)
          match mjoin (m !! 2) with
          | None => Throw TypeError
          | Some version =>
              Normal (VString (if startsWith version "^" then drop 1 version else version))
          end
      end
  | Npm =>
      match match_ npm_parse_re 3 (url u) with
      | None => Throw TypeError
      | Some m => Normal (of_option (mjoin (m !! 2)))
      end
  | UnpkgScope | PikaScope | SkypackScope | EsmShScope =>
      bind (defaultInfo u) (fun info => Normal (VString (version_of info)))
  | DenoLand | Unpkg | Jspm | Denopkg | PaxDenoDev | Pika | Skypack | EsmSh | NestLand =>
      defaultVersion u
  | GithubRaw =>
      match split "/" (url u) !! 5 with
      | None => Throw (version_not_found (url u))
      | Some v => Normal (VString v)
      end
  | JsDelivr =>
      bind (JsDelivr_parts u) (fun '(_, _, _, version) =>
        match version with
        | VUndefined => Throw (version_not_found (url u))
        | VString v => Normal (VString v)
        end)
  | GitlabRaw =>
      match split "/" (url u) !! 7 with
      | None => Throw (version_not_found (url u))
      | Some v => Normal (VString v)
      end
  end.

(* --------------------------------------------------------------------- *)
(** *** [at(version)] *)

Definition at_ (u : RegistryUrl) (version : string) : completion RegistryUrl :=
  match ctor u with
  | Jsr =>
      match match_ jsr_parse_re 3 (url u) with
      | None => Throw TypeError
      | Some m =>
          Normal (new Jsr ("jsr:" +:+ show (mjoin (m !! 1)) +:+ "@" +:+ version
                           +:+ show (mjoin (m !! 3))))
      end
  | Npm =>
      match match_ npm_parse_re 3 (url u) with
      | None => Throw TypeError
      | Some m =>
          Normal (new Npm ("npm:" +:+ show (mjoin (m !! 1)) +:+ "@" +:+ version
                           +:+ show (mjoin (m !! 3))))
      end
  | UnpkgScope | PikaScope | SkypackScope | EsmShScope =>
      bind (defaultScopeAt u version) (fun url' => Normal (new (ctor u) url'))
  | DenoLand | Unpkg | Jspm | Denopkg | PaxDenoDev | Pika | Skypack | EsmSh | NestLand =>
      Normal (new (ctor u) (defaultAt u version))
  | GithubRaw =>
      Normal (new GithubRaw (join "/" (store (Some <$> split "/" (url u)) 5 version)))
  | JsDelivr =>
      bind (JsDelivr_parts u) (fun '(parts, _, repo, _) =>
        Normal (new GithubRaw
                  (join "/" (store (Some <$> parts) 5 (repo +:+ "@" +:+ version)))))
  | GitlabRaw =>
      Normal (new GithubRaw (join "/" (store (Some <$> split "/" (url u)) 7 version)))
  end.

(* --------------------------------------------------------------------- *)
(** *** [lookup] and the default list *)

Definition REGISTRIES : list RegistryCtor :=
  [Jsr; DenoLand; UnpkgScope; Unpkg; Denopkg; PaxDenoDev; Jspm; PikaScope; Pika;
   SkypackScope; Skypack; EsmShScope; EsmSh; GithubRaw; GitlabRaw; JsDelivr;
   NestLand; Npm].

(** [lookup]: [None] is [undefined]. *)
Fixpoint lookup (url : string) (registries : list RegistryCtor) : option RegistryUrl :=
  match registries with
  | [] => None
  | R :: rest =>
      let u := new R url in
      if test (regexp (ctor u)) url then Some u else lookup url rest
  end.

(* ===================================================================== *)
(** ** The network, the caches and the fetchers *)
(* ===================================================================== *)

Module Fetch.

(** What an endpoint answers, as far as the code reads it.
    - [Text]: the body read with [text()].
    - [VersionsJson]: a JSON document read with [json()] and its [versions]
      member: the elements of the array for cdn.deno.land, what [Object.keys]
      lists for the object of jsr.io and registry.npmjs.org, [None] when the
      member is absent (or falsy).
    - [NestLandResponse]: the upload log and its [packageUploadNames]. *)
Inductive body : Type :=
| Text (t : string)
| VersionsJson (versions : option (list string))
| NestLandResponse (packageUploadNames : option (list string)).

Abbreviation cache := (gmap string (list value)).

(** The process state: one cache per family, and what was observed from
    outside: the requests sent (latest first) and the lines written with
    [console.error]. *)
Record World : Type := {
  GR_CACHE : cache;
  DL_CACHE : cache;
  JSR_CACHE : cache;
  NPM_CACHE : cache;
  GL_CACHE : cache;
  NL_CACHE : cache;
  requests : list string;
  console : list string
}.

Definition start : World :=
  {| GR_CACHE := ∅; DL_CACHE := ∅; JSR_CACHE := ∅; NPM_CACHE := ∅;
     GL_CACHE := ∅; NL_CACHE := ∅; requests := []; console := [] |}.

Definition set_GR (f : cache -> cache) (w : World) : World :=
  {| GR_CACHE := f (GR_CACHE w); DL_CACHE := DL_CACHE w; JSR_CACHE := JSR_CACHE w;
     NPM_CACHE := NPM_CACHE w; GL_CACHE := GL_CACHE w; NL_CACHE := NL_CACHE w;
     requests := requests w; console := console w |}.
Definition set_DL (f : cache -> cache) (w : World) : World :=
  {| GR_CACHE := GR_CACHE w; DL_CACHE := f (DL_CACHE w); JSR_CACHE := JSR_CACHE w;
     NPM_CACHE := NPM_CACHE w; GL_CACHE := GL_CACHE w; NL_CACHE := NL_CACHE w;
     requests := requests w; console := console w |}.
Definition set_JSR (f : cache -> cache) (w : World) : World :=
  {| GR_CACHE := GR_CACHE w; DL_CACHE := DL_CACHE w; JSR_CACHE := f (JSR_CACHE w);
     NPM_CACHE := NPM_CACHE w; GL_CACHE := GL_CACHE w; NL_CACHE := NL_CACHE w;
     requests := requests w; console := console w |}.
Definition set_NPM (f : cache -> cache) (w : World) : World :=
  {| GR_CACHE := GR_CACHE w; DL_CACHE := DL_CACHE w; JSR_CACHE := JSR_CACHE w;
     NPM_CACHE := f (NPM_CACHE w); GL_CACHE := GL_CACHE w; NL_CACHE := NL_CACHE w;
     requests := requests w; console := console w |}.
Definition set_GL (f : cache -> cache) (w : World) : World :=
  {| GR_CACHE := GR_CACHE w; DL_CACHE := DL_CACHE w; JSR_CACHE := JSR_CACHE w;
     NPM_CACHE := NPM_CACHE w; GL_CACHE := f (GL_CACHE w); NL_CACHE := NL_CACHE w;
     requests := requests w; console := console w |}.
Definition set_NL (f : cache -> cache) (w : World) : World :=
  {| GR_CACHE := GR_CACHE w; DL_CACHE := DL_CACHE w; JSR_CACHE := JSR_CACHE w;
     NPM_CACHE := NPM_CACHE w; GL_CACHE := GL_CACHE w; NL_CACHE := f (NL_CACHE w);
     requests := requests w; console := console w |}.
Definition log_request (u : string) (w : World) : World :=
  {| GR_CACHE := GR_CACHE w; DL_CACHE := DL_CACHE w; JSR_CACHE := JSR_CACHE w;
     NPM_CACHE := NPM_CACHE w; GL_CACHE := GL_CACHE w; NL_CACHE := NL_CACHE w;
     requests := u :: requests w; console := console w |}.
Definition log_console (l : string) (w : World) : World :=
  {| GR_CACHE := GR_CACHE w; DL_CACHE := DL_CACHE w; JSR_CACHE := JSR_CACHE w;
     NPM_CACHE := NPM_CACHE w; GL_CACHE := GL_CACHE w; NL_CACHE := NL_CACHE w;
     requests := requests w; console := l :: console w |}.

(** A family's cache as the functions receive it: which field of the world
    it is. The default argument [cache = GR_CACHE] of the source is the
    corresponding handle. *)
Record handle : Type := {
  get_cache : World -> cache;
  set_cache : (cache -> cache) -> World -> World
}.
Definition GR : handle := {| get_cache := GR_CACHE; set_cache := set_GR |}.
Definition DL : handle := {| get_cache := DL_CACHE; set_cache := set_DL |}.
Definition JSR : handle := {| get_cache := JSR_CACHE; set_cache := set_JSR |}.
Definition NPM : handle := {| get_cache := NPM_CACHE; set_cache := set_NPM |}.
Definition GL : handle := {| get_cache := GL_CACHE; set_cache := set_GL |}.
Definition NL : handle := {| get_cache := NL_CACHE; set_cache := set_NL |}.

(** A computation on a state [St] that returns or throws; an asynchronous
    function is one on the process state, run to its settlement: it resolves
    ([Normal]) or rejects ([Throw]), and leaves a new state. *)
Definition M (St A : Type) : Type := St -> completion A * St.
Definition Async (A : Type) : Type := M World A.

Definition ret {St A} (a : A) : M St A := fun w => (Normal a, w).
Definition throw {St A} (e : exn) : M St A := fun w => (Throw e, w).
Definition lift {St A} (c : completion A) : M St A := fun w => (c, w).
Definition abind {St A B} (m : M St A) (f : A -> M St B) : M St B :=
  fun w => match m w with
           | (Normal a, w') => f a w'
           | (Throw e, w') => (Throw e, w')
           end.

Declare Scope async_scope.
Delimit Scope async_scope with async.
Notation "x <- m ;; k" := (abind m (fun x => k))
  (at level 100, m at next level, right associativity) : async_scope.
Notation "m ;;; k" := (abind m (fun _ => k))
  (at level 100, right associativity) : async_scope.
Local Open Scope async_scope.

(** [try { m } catch (err) { console.error(line); throw err; }] *)
Definition logging_errors {A} (line : string) (m : Async A) : Async A :=
  fun w => match m w with
           | (Normal a, w') => (Normal a, w')
           | (Throw e, w') => (Throw e, log_console line w')
           end.

Definition cache_get (h : handle) (k : string) : Async (option (list value)) :=
  fun w => (Normal (get_cache h w !! k), w).
Definition cache_set (h : handle) (k : string) (v : list value) : Async unit :=
  fun w => (Normal tt, set_cache h (<[k := v]>) w).

(** [while (cond) body] on the loop's variables. *)
Fixpoint while {St S} (fuel : nat) (cond : S -> bool) (body : S -> M St S) (s : S)
  : M St S :=
  if cond s then
    match fuel with
    | 0 => throw OutOfFuel
    | S fuel' => s' <- body s ;; while fuel' cond body s'
    end
  else ret s.

(** [a[i]] on an array of values. *)
Definition nth_value' (a : list value) (i : nat) : value := default VUndefined (a !! i).

(** [a[a.length - 1]] *)
Definition last_value (a : list value) : value := default VUndefined (last a).

(** The sort of [Jsr.all]:
    [keys.sort((vsrA, vsrB) => compare(parse(vsrB), parse(vsrA)))]. The
    functions [parse] and [compare] are those of the semantic-version library
    ([@std/semver], not among the sources): [parse] throws on a string that is
    not a semantic version, [compare] returns a negative number, zero or a
    positive number. *)
Section SemverSort.
Context {SemVer : Type}.
Variable parse : string -> completion SemVer.
Variable compare : SemVer -> SemVer -> Z.

Definition newest_first (vsrA vsrB : string) : completion Z :=
  bind (parse vsrB) (fun b => bind (parse vsrA) (fun a => Normal (compare b a))).

Definition semver_sort (keys : list string) : completion (list string) :=
  sort newest_first keys.
End SemverSort.

Section Network.
(** The network: what each URL answers, [None] when the request fails. *)
Variable net : string -> option body.
(** The sort of [Jsr.all], [semver_sort parse compare] for the two functions
    of the semantic-version library. It is a parameter of the fetchers so that
    what does not depend on the order of the keys is stated for every sort. *)
Variable sort_desc : list string -> completion (list string).

Definition fetch (u : string) : Async body :=
  fun w => match net u with
           | Some b => (Normal b, log_request u w)
           | None => (Throw TypeError, log_request u w)
           end.

Definition text (b : body) : Async string :=
  match b with
  | Text t => ret t
  | _ => throw (Error "the body is not a page")
  end.

Definition json_versions (b : body) : Async (option (list string)) :=
  match b with
  | VersionsJson v => ret v
  | NestLandResponse _ => ret None
  | Text _ => throw SyntaxError
  end.

Definition json_uploads (b : body) : Async (option (list string)) :=
  match b with
  | NestLandResponse v => ret v
  | VersionsJson _ => ret None
  | Text _ => throw SyntaxError
  end.

(* ------------------------------------------------------------------- *)
(** *** GitHub releases *)

Definition github_url (owner repo : string) (lastVersion : value) : string :=
  let url := "https://github.com/" +:+ owner +:+ "/" +:+ repo +:+ "/releases.atom" in
  if truthy lastVersion then url +:+ "?after=" +:+ show_value lastVersion else url.

Definition githubDownloadReleases (owner repo : string) (lastVersion : value)
  : Async (list value) :=
  let url := github_url owner repo lastVersion in
  page <- fetch url ;;
  text <- text page ;;
  ret (matchAll1 github_id_re text).

(** The loop of [githubReleases]: its condition and its body, on the
    variables [i], [lastVersion] and [versions]. *)
Definition github_continue (st : nat * value * list value) : bool :=
  let '(i, lastVersion, versions) := st in
  negb (bool_decide (lastVersion = last_value versions)) && (i <? 5).

Definition github_next (owner repo : string) (st : nat * value * list value)
  : Async (nat * value * list value) :=
  let '(i, lastVersion, versions) := st in
  let i := S i in
  let lastVersion := last_value versions in
  page <- githubDownloadReleases owner repo lastVersion ;;
  ret (i, lastVersion, versions ++ page).

Definition githubReleases (owner repo : string) (cache : handle)
  : Async (list value) :=
  let cacheKey := owner +:+ "/" +:+ repo in
  hit <- cache_get cache cacheKey ;;
  match hit with
  | Some versions => ret versions
  | None =>
      versions <- githubDownloadReleases owner repo VUndefined ;;
      versions <-
        (if Nat.eqb (length versions) 10 then
           st <- while 5 github_continue (github_next owner repo)
                   (0, VUndefined, versions) ;;
           ret st.2
         else ret versions) ;;
      cache_set cache cacheKey versions ;;;
      ret versions
  end.

(* ------------------------------------------------------------------- *)
(** *** GitLab tags *)

Definition gitlab_url (owner repo : string) (page : nat) : string :=
  "https://gitlab.com/" +:+ owner +:+ "/" +:+ repo
  +:+ "/-/tags?format=atom&page=" +:+ pretty page.

Definition gitlabDownloadReleases (owner repo : string) (page : nat)
  : Async (list value) :=
  let url := gitlab_url owner repo page in
  r <- fetch url ;;
  text <- text r ;;
  ret (matchAll1 gitlab_id_re text).

(** The loop of [gitlabReleases]. *)
Definition gitlab_continue (st : nat * value * list value) : bool :=
  let '(i, lastVersion, versions) := st in
  negb (bool_decide (lastVersion = last_value versions)) && (i <=? 3).

Definition gitlab_next (owner repo : string) (st : nat * value * list value)
  : Async (nat * value * list value) :=
  let '(i, lastVersion, versions) := st in
  let i := S i in
  let lastVersion := last_value versions in
  page <- gitlabDownloadReleases owner repo i ;;
  ret (i, lastVersion, versions ++ page).

Definition gitlabReleases (owner repo : string) (cache : handle)
  : Async (list value) :=
  let cacheKey := owner +:+ "/" +:+ repo in
  hit <- cache_get cache cacheKey ;;
  match hit with
  | Some versions => ret versions
  | None =>
      let i := 1 in
      versions <- gitlabDownloadReleases owner repo i ;;
      versions <-
        (if Nat.eqb (length versions) 20 then
           st <- while 4 gitlab_continue (gitlab_next owner repo)
                   (i, VUndefined, versions) ;;
           ret st.2
         else ret versions) ;;
      cache_set cache cacheKey versions ;;;
      ret versions
  end.

(* ------------------------------------------------------------------- *)
(** *** Single documents: deno.land, jsr.io, the npm registry *)

Definition incorrect_format (name : string) : exn :=
  Error ("versions.json for " +:+ name +:+ " has incorrect format").

(** [DenoLand.name] *)
Definition DenoLand_name (u : RegistryUrl) : completion value :=
  match match_ denoland_name_re 2 (url u) with
  | None => Throw TypeError
  | Some m =>
      match mjoin (m !! 1) with
      | Some stdGroup => Normal (VString stdGroup)
      | None => Normal (of_option (mjoin (m !! 2)))
      end
  end.

(** [DenoLand.all] *)
Definition DenoLand_all (u : RegistryUrl) : Async (list value) :=
  name <- lift (DenoLand_name u) ;;
  let name := show_value name in
  hit <- cache_get DL name ;;
  match hit with
  | Some versions => ret versions
  | None =>
      logging_errors ("error getting versions for " +:+ name)
        (r <- fetch ("https://cdn.deno.land/" +:+ name +:+ "/meta/versions.json") ;;
         versions <- json_versions r ;;
         match versions with
         | None => throw (incorrect_format name)
         | Some versions =>
             cache_set DL name (VString <$> versions) ;;;
             ret (VString <$> versions)
         end)
  end.

(** [Jsr.name] and [Npm.name] *)
Definition parsed_name (re : regex) (u : RegistryUrl) : completion value :=
  match match_ re 3 (url u) with
  | None => Throw TypeError
  | Some m => Normal (of_option (mjoin (m !! 1)))
  end.

(** [Jsr.all] *)
Definition Jsr_all (u : RegistryUrl) : Async (list value) :=
  name <- lift (parsed_name jsr_parse_re u) ;;
  let name := show_value name in
  hit <- cache_get JSR name ;;
  match hit with
  | Some versions => ret versions
  | None =>
      logging_errors ("error getting versions for " +:+ name)
        (r <- fetch ("https://jsr.io/" +:+ name +:+ "/meta.json") ;;
         versions <- json_versions r ;;
         match versions with
         | None => throw (incorrect_format name)
         | Some keys =>
             versions <- lift (sort_desc keys) ;;
             cache_set JSR name (VString <$> versions) ;;;
             ret (VString <$> versions)
         end)
  end.

(** [Npm.all] *)
Definition Npm_all (u : RegistryUrl) : Async (list value) :=
  name <- lift (parsed_name npm_parse_re u) ;;
  let name := show_value name in
  hit <- cache_get NPM name ;;
  match hit with
  | Some versions => ret versions
  | None =>
      logging_errors ("error getting versions for " +:+ name)
        (r <- fetch ("https://registry.npmjs.org/" +:+ name) ;;
         versions <- json_versions r ;;
         match versions with
         | None => throw (incorrect_format name)
         | Some keys =>
             let versions := rev keys in
             cache_set NPM name (VString <$> versions) ;;;
             ret (VString <$> versions)
         end)
  end.

(* ------------------------------------------------------------------- *)
(** *** The unpkg directory page and the nest.land upload log *)

(** [unpkgVersions]: no cache is read or written. *)
Definition unpkgVersions (name : string) : Async (list value) :=
  page <- fetch ("https://unpkg.com/browse/" +:+ name +:+ "/") ;;
  text <- text page ;;
  ret (rev (matchAll1 option_re text)).

(** [nestlandReleases]: the cache is read and never written. *)
Definition nestlandReleases (repo : string) (cache : handle) : Async (list value) :=
  hit <- cache_get cache repo ;;
  match hit with
  | Some versions => ret versions
  | None =>
      r <- fetch ("https://x.nest.land/api/package/" +:+ repo) ;;
      packageUploadNames <- json_uploads r ;;
      match packageUploadNames with
      | None => ret []
      | Some names => ret (rev (map (fun name => nth_value (split "@" name) 1) names))
      end
  end.

(* ------------------------------------------------------------------- *)
(** *** [all()] *)

Definition all (u : RegistryUrl) : Async (list value) :=
  match ctor u with
  | DenoLand => DenoLand_all u
  | Jsr => Jsr_all u
  | Npm => Npm_all u
  | UnpkgScope | PikaScope | SkypackScope | EsmShScope =>
      info <- lift (defaultInfo u) ;;
      unpkgVersions (scope info +:+ "/" +:+ packageName info)
  | Unpkg | Jspm | Pika | Skypack | EsmSh =>
      name <- lift (defaultName u) ;;
      unpkgVersions (show_value name)
  | Denopkg | PaxDenoDev =>
      let owner := nth_value (split "/" (url u)) 3 in
      repo <- lift (defaultName u) ;;
      githubReleases (show_value owner) (show_value repo) GR
  | GithubRaw =>
      let parts := split "/" (url u) in
      githubReleases (show_value (nth_value parts 3)) (show_value (nth_value parts 4)) GR
  | JsDelivr =>
      p <- lift (JsDelivr_parts u) ;;
      let '(_, user, repo, _) := p in
      githubReleases (show_value user) repo GR
  | GitlabRaw =>
      let parts := split "/" (url u) in
      gitlabReleases (show_value (nth_value parts 3)) (show_value (nth_value parts 4)) GL
  | NestLand =>
      match split "/" (url u) !! 3 with
      | None => throw TypeError
      | Some p3 => nestlandReleases (default "" (split "@" p3 !! 0)) NL
      end
  end.
End Network.

End Fetch.

(* ===================================================================== *)
(** ** The upgrade engine *)
(* ===================================================================== *)

Module Upgrade.
Import Fetch.
Local Open Scope async_scope.

(** [/(@deco\/.* )|(apps)|(deco)|(\$live)|(deco-sites\/.*\/$)|(partytown)/] *)
Definition PACKAGES_TO_CHECK : regex :=
  Alt (Group 1 (cat [lit "@deco/"; Star true Any]))
 (Alt (Group 2 (lit "apps"))
 (Alt (Group 3 (lit "deco"))
 (Alt (Group 4 (lit "$live"))
 (Alt (Group 5 (cat [lit "deco-sites/"; Star true Any; lit "/"; Eol]))
      (Group 6 (lit "partytown")))))).

(** The table of forced minimum versions: empty in the source. *)
Definition requiredMinVersion : list (string * string) := [].

(** What [pkgInfo] resolves to, as far as [upgradeDeps] reads it. *)
Record Info : Type := {
  info_url : RegistryUrl;
  latest : value;
  current : value
}.

(** A line given to the logger, plain or wrapped by [colors.yellow]. *)
Inductive line : Type :=
| Plain (s : string)
| Yellow (s : string).

(** The [imports] object: its entries in the order of [Object.keys]. *)
Abbreviation DependencyMap := (list (string * string)).

Fixpoint get (imports : DependencyMap) (pkg : string) : option string :=
  match imports with
  | [] => None
  | (k, v) :: rest => if String.eqb k pkg then Some v else get rest pkg
  end.

(** [imports[pkg] = v]: in place for a key that is there, a new last entry
    otherwise. *)
Fixpoint set (imports : DependencyMap) (pkg v : string) : DependencyMap :=
  match imports with
  | [] => [(pkg, v)]
  | (k, v0) :: rest =>
      if String.eqb k pkg then (k, v) :: rest else (k, v0) :: set rest pkg v
  end.

(** The state a run works on: the map it mutates in place, its local flag,
    the lines logged (latest first) and the process state. It outlives a
    rejection: the caller still holds the map. *)
Record Run : Type := {
  imports : DependencyMap;
  upgradeFound : bool;
  lines : list line;
  world : World
}.

Definition in_world {A} (m : Async A) : M Run A :=
  fun r => let '(c, w) := m (world r) in
           (c, {| imports := imports r; upgradeFound := upgradeFound r;
                  lines := lines r; world := w |}).

Definition with_world (r : Run) (w : World) : Run :=
  {| imports := imports r; upgradeFound := upgradeFound r; lines := lines r; world := w |}.

(** [logs && logger(l)] *)
Definition logged (logs : bool) (l : line) (r : Run) : Run :=
  if logs
  then {| imports := imports r; upgradeFound := upgradeFound r;
          lines := l :: lines r; world := world r |}
  else r.

Definition logger (logs : bool) (l : line) : M Run unit :=
  fun r => (Normal tt, logged logs l r).

(** [Object.keys(imports).filter((pkg) => deps.test(pkg))], each key with
    the specifier it has when the callbacks are launched. *)
Definition selected (deps : regex) (importMap : DependencyMap) : DependencyMap :=
  filter (fun e => test deps e.1 = true) importMap.

Definition mark_found : M Run unit :=
  fun r => (Normal tt, {| imports := imports r; upgradeFound := true;
                          lines := lines r; world := world r |}).

Definition assign (pkg v : string) : M Run unit :=
  fun r => (Normal tt, {| imports := set (imports r) pkg v;
                          upgradeFound := upgradeFound r;
                          lines := lines r; world := world r |}).

Definition read (pkg : string) : M Run (option string) :=
  fun r => (Normal (get (imports r) pkg), r).

Section Engine.
(** [pkgInfo] of [./pkg.ts]: [None] is [undefined]. *)
Variable pkgInfo : string -> bool -> Async (option Info).
(** [semver.canParse], and [semver.lessThan] of the two parsed versions,
    which throws when one of them does not parse. *)
Variable canParse : string -> bool.
Variable lessThan : string -> string -> completion bool.
(** [Deno.args] and the flag parsed from it. *)
Variable args : list string.
Variable allow_pre : bool.
(** The order in which the calls of [pkgInfo] launched together settle. *)
Variable settle_order : list (string * string) -> list (string * string).

Definition canParse_value (v : value) : bool :=
  match v with VString s => canParse s | VUndefined => false end.

Definition includes (a : list string) (x : string) : bool :=
  existsb (String.eqb x) a.

(** What a callback of the pass does once [await pkgInfo(...)] has given
    it [info]: no [await] follows, it runs to its end. *)
Definition after_info (logs : bool) (pkg : string) (info : option Info) : M Run unit :=
  match info with
  | None => ret tt
  | Some info =>
      if negb (truthy (latest info)) then ret tt
      else
        let latestVersion := latest info in
        let currentVersion := current info in
        if negb (canParse_value currentVersion) && negb (includes args "force")
        then
          logger logs (Yellow ("skipping " +:+ pkg +:+ " " +:+ show_value currentVersion
                               +:+ " -> " +:+ show_value latestVersion
                               +:+ ". Use --force to upgrade."))
        else if negb (bool_decide (currentVersion = latestVersion))
        then
          logger logs (Plain ("upgrading " +:+ pkg +:+ " " +:+ show_value currentVersion
                              +:+ " -> " +:+ show_value latestVersion +:+ ".")) ;;;
          mark_found ;;;
          u <- lift (at_ (info_url info) (show_value latestVersion)) ;;
          assign pkg (url u)
        else ret tt
  end.

(** One callback of the pass when its call of [pkgInfo] runs from its start
    to its settlement with nothing in between: [specifier] is [imports[pkg]]
    as read when the callback was launched. *)
Definition upgrade_one (logs : bool) (pkg specifier : string) : M Run unit :=
  info <- in_world (pkgInfo specifier allow_pre) ;;
  after_info logs pkg info.

(** [await Promise.all(...)] when the calls of [pkgInfo] do not overlap:
    each call runs whole, one after the other in the order [settle_order]
    gives, and the pass is followed up to the moment the join settles, which
    is the first callback that throws when there is one. This is the pass
    with a single selected entry; with several entries it is the run in which
    each call settles before the next one starts, so it tells neither the
    requests that are sent at launch nor what the callbacks still waiting do
    after the join has rejected. The pass with its calls in flight together
    (every request sent at launch, no call waiting for another, the callbacks
    still waiting when the join rejects going on afterwards) is
    [Concurrent.upgradeDeps] below. *)
Fixpoint join_all (logs : bool) (launched : list (string * string)) : M Run unit :=
  match launched with
  | [] => ret tt
  | (pkg, specifier) :: rest => upgrade_one logs pkg specifier ;;; join_all logs rest
  end.

(** One turn of the loop over the table of minimum versions. *)
Definition require_min (logs : bool) (pkg minVer : string) : M Run unit :=
  specifier <- read pkg ;;
  match specifier with
  | None | Some "" => ret tt
  | Some specifier =>
      let url_ := lookup specifier REGISTRIES in
      currentVersion <-
        lift (match url_ with
              | Some u => version u
              | None => Normal VUndefined
              end) ;;
      below <-
        (if negb (truthy currentVersion) then ret true
         else lift (lessThan (show_value currentVersion) minVer)) ;;
      if (below : bool) then
        logger logs (Plain ("upgrading " +:+ pkg +:+ " " +:+ show_value currentVersion
                            +:+ " -> " +:+ minVer +:+ ".")) ;;;
        mark_found ;;;
        match url_ with
        | Some u => u' <- lift (at_ u minVer) ;; assign pkg (url u')
        | None => assign pkg specifier
        end
      else ret tt
  end.

Fixpoint min_version_pass (logs : bool) (table : list (string * string)) : M Run unit :=
  match table with
  | [] => ret tt
  | (pkg, minVer) :: rest => require_min logs pkg minVer ;;; min_version_pass logs rest
  end.

(** What [upgradeDeps] does once the join has resolved. *)
Definition after_join (logs : bool) : M Run bool :=
  min_version_pass logs requiredMinVersion ;;;
  upgradeFound <- (fun r => (Normal (upgradeFound r), r)) ;;
  (if negb upgradeFound
   then logger logs
          (Plain "dependencies are on the most recent releases of your dependencies!")
   else ret tt) ;;;
  ret upgradeFound.

(** [upgradeDeps(importMap, logs, deps, logger)] on the [imports] of the
    map (the empty object when the map has none). *)
Definition upgradeDeps (logs : bool) (deps : regex) : M Run bool :=
  logger logs (Plain "looking up latest versions") ;;;
  launched <- (fun r => (Normal (selected deps (imports r)), r)) ;;
  join_all logs (settle_order launched) ;;;
  after_join logs.

Definition run_upgradeDeps (importMap : DependencyMap) (logs : bool) (deps : regex)
    (w : World) : completion bool * Run :=
  upgradeDeps logs deps
    {| imports := importMap; upgradeFound := false; lines := []; world := w |}.
End Engine.

Section PkgInfo.
Variable net : string -> option body.
Variable sort_desc : list string -> completion (list string).

(** Modelled from the spec: [pkgInfo] of [./pkg.ts], which is not among the
    sources. The specification (4.4, step 2) has it classify the specifier
    with the lookup dispatcher, fetch [all()] and take [latest = all()[0]],
    and extract [current = version()] from the specifier; a specifier no
    variant matches gives no result. The pre-release flag is forwarded and
    not otherwise described. *)
Definition pkgInfo (specifier : string) (allowPre : bool) : Async (option Info) :=
  match lookup specifier REGISTRIES with
  | None => ret None
  | Some u =>
      versions <- all net sort_desc u ;;
      current <- lift (version u) ;;
      ret (Some {| info_url := u; latest := nth_value' versions 0; current := current |})
  end.
End PkgInfo.

End Upgrade.

(* ===================================================================== *)
(** ** Calls in flight together *)
(* ===================================================================== *)

Module Concurrent.
Import Fetch Upgrade.

(** A call of an asynchronous function once it has started: it has settled,
    or it waits at an [await] and, when it is resumed in a state, leaves the
    state [effect] gives and goes on as [next] tells, up to its next
    [await]. What other calls do between two steps is seen by the next
    step. *)
Inductive task (St A : Type) : Type :=
| Settled (c : completion A)
| Waiting (effect : St -> St) (next : St -> task St A).
Arguments Settled {St A} c.
Arguments Waiting {St A} effect next.

(** An asynchronous function: calling it runs its code up to the first
    [await] and gives the call started. *)
Definition started (St A : Type) : Type := St -> task St A * St.

Definition resume {St A} (t : task St A) (s : St) : task St A * St :=
  match t with
  | Settled c => (Settled c, s)
  | Waiting effect next => (next s, effect s)
  end.

(** The call that waits and, when resumed, runs [m] up to its first
    [await]. *)
Definition waiting {St A} (m : started St A) : task St A :=
  Waiting (fun s => (m s).2) (fun s => (m s).1).

(** What follows the settlement of a call. *)
Fixpoint on_settle {St A B} (t : task St A) (k : completion A -> started St B)
  : started St B :=
  match t with
  | Settled c => k c
  | Waiting effect next =>
      fun s => (waiting (fun s' => on_settle (next s') k (effect s')), s)
  end.

(** Code without [await]. *)
Definition now {St A} (m : M St A) : started St A :=
  fun s => let '(c, s') := m s in (Settled c, s').

Definition tbind {St A B} (m : started St A) (k : A -> started St B) : started St B :=
  fun s =>
    let '(t, s') := m s in
    on_settle t (fun c => match c with
                          | Normal a => k a
                          | Throw e => now (throw e)
                          end) s'.

(** [await m]: [m] is started, and the code that awaits it goes on in a
    later step than the one in which [m] settles, also when [m] has settled
    at once. *)
Definition await {St A} (m : started St A) : started St A :=
  fun s =>
    let '(t, s') := m s in
    on_settle t (fun c s1 => (waiting (now (lift c)), s1)) s'.

(** A call run to its settlement with nothing in between. *)
Fixpoint settle {St A} (t : task St A) (s : St) : completion A * St :=
  match t with
  | Settled c => (c, s)
  | Waiting effect next => settle (next s) (effect s)
  end.

Definition alone {St A} (m : started St A) : M St A :=
  fun s => let '(t, s') := m s in settle t s'.

Declare Scope task_scope.
Delimit Scope task_scope with task.
Notation "x <- m ;; k" := (tbind m (fun x => k))
  (at level 100, m at next level, right associativity) : task_scope.
Notation "m ;;; k" := (tbind m (fun _ => k))
  (at level 100, right associativity) : task_scope.
Local Open Scope task_scope.

(** [try { m } catch (err) { console.error(line); throw err; }] *)
Definition logging_errors {A} (line : string) (m : started World A) : started World A :=
  fun w =>
    let '(t, w') := m w in
    on_settle t (fun c => match c with
                          | Normal a => now (ret a)
                          | Throw e => now (fun w1 => (Throw e, log_console line w1))
                          end) w'.

(** [while (cond) body] *)
Fixpoint while {St S} (fuel : nat) (cond : S -> bool) (body : S -> started St S) (s : S)
  : started St S :=
  if cond s then
    match fuel with
    | 0 => now (throw OutOfFuel)
    | S fuel' => s' <- body s ;; while fuel' cond body s'
    end
  else now (ret s).

Section Network.
Variable net : string -> option body.
Variable sort_desc : list string -> completion (list string).

(** [fetch(u)]: the request is sent by the call; the promise settles in a
    later step, with what the address answers. *)
Definition fetch (u : string) : started World body :=
  fun w =>
    (waiting (now (lift (match net u with
                         | Some b => Normal b
                         | None => Throw TypeError
                         end))),
     log_request u w).

(** [page.text()] and [response.json()] *)
Definition text (b : body) : started World string :=
  fun w => (waiting (now (Fetch.text b)), w).
Definition json_versions (b : body) : started World (option (list string)) :=
  fun w => (waiting (now (Fetch.json_versions b)), w).
Definition json_uploads (b : body) : started World (option (list string)) :=
  fun w => (waiting (now (Fetch.json_uploads b)), w).

Definition githubDownloadReleases (owner repo : string) (lastVersion : value)
  : started World (list value) :=
  let url := github_url owner repo lastVersion in
  page <- await (fetch url) ;;
  text <- await (text page) ;;
  now (ret (matchAll1 github_id_re text)).

Definition github_next (owner repo : string) (st : nat * value * list value)
  : started World (nat * value * list value) :=
  let '(i, lastVersion, versions) := st in
  let i := S i in
  let lastVersion := last_value versions in
  page <- await (githubDownloadReleases owner repo lastVersion) ;;
  now (ret (i, lastVersion, versions ++ page)).

Definition githubReleases (owner repo : string) (cache : handle)
  : started World (list value) :=
  let cacheKey := owner +:+ "/" +:+ repo in
  hit <- now (cache_get cache cacheKey) ;;
  match hit with
  | Some versions => now (ret versions)
  | None =>
      versions <- await (githubDownloadReleases owner repo VUndefined) ;;
      versions <-
        (if Nat.eqb (length versions) 10 then
           st <- while 5 github_continue (github_next owner repo)
                   (0, VUndefined, versions) ;;
           now (ret st.2)
         else now (ret versions)) ;;
      now (cache_set cache cacheKey versions) ;;;
      now (ret versions)
  end.

Definition gitlabDownloadReleases (owner repo : string) (page : nat)
  : started World (list value) :=
  let url := gitlab_url owner repo page in
  r <- await (fetch url) ;;
  text <- await (text r) ;;
  now (ret (matchAll1 gitlab_id_re text)).

Definition gitlab_next (owner repo : string) (st : nat * value * list value)
  : started World (nat * value * list value) :=
  let '(i, lastVersion, versions) := st in
  let i := S i in
  let lastVersion := last_value versions in
  page <- await (gitlabDownloadReleases owner repo i) ;;
  now (ret (i, lastVersion, versions ++ page)).

Definition gitlabReleases (owner repo : string) (cache : handle)
  : started World (list value) :=
  let cacheKey := owner +:+ "/" +:+ repo in
  hit <- now (cache_get cache cacheKey) ;;
  match hit with
  | Some versions => now (ret versions)
  | None =>
      let i := 1 in
      versions <- await (gitlabDownloadReleases owner repo i) ;;
      versions <-
        (if Nat.eqb (length versions) 20 then
           st <- while 4 gitlab_continue (gitlab_next owner repo)
                   (i, VUndefined, versions) ;;
           now (ret st.2)
         else now (ret versions)) ;;
      now (cache_set cache cacheKey versions) ;;;
      now (ret versions)
  end.

Definition DenoLand_all (u : RegistryUrl) : started World (list value) :=
  name <- now (lift (DenoLand_name u)) ;;
  let name := show_value name in
  hit <- now (cache_get DL name) ;;
  match hit with
  | Some versions => now (ret versions)
  | None =>
      logging_errors ("error getting versions for " +:+ name)
        (r <- await (fetch ("https://cdn.deno.land/" +:+ name +:+ "/meta/versions.json")) ;;
         versions <- await (json_versions r) ;;
         match versions with
         | None => now (throw (incorrect_format name))
         | Some versions =>
             now (cache_set DL name (VString <$> versions)) ;;;
             now (ret (VString <$> versions))
         end)
  end.

Definition Jsr_all (u : RegistryUrl) : started World (list value) :=
  name <- now (lift (parsed_name jsr_parse_re u)) ;;
  let name := show_value name in
  hit <- now (cache_get JSR name) ;;
  match hit with
  | Some versions => now (ret versions)
  | None =>
      logging_errors ("error getting versions for " +:+ name)
        (r <- await (fetch ("https://jsr.io/" +:+ name +:+ "/meta.json")) ;;
         versions <- await (json_versions r) ;;
         match versions with
         | None => now (throw (incorrect_format name))
         | Some keys =>
             versions <- now (lift (sort_desc keys)) ;;
             now (cache_set JSR name (VString <$> versions)) ;;;
             now (ret (VString <$> versions))
         end)
  end.

Definition Npm_all (u : RegistryUrl) : started World (list value) :=
  name <- now (lift (parsed_name npm_parse_re u)) ;;
  let name := show_value name in
  hit <- now (cache_get NPM name) ;;
  match hit with
  | Some versions => now (ret versions)
  | None =>
      logging_errors ("error getting versions for " +:+ name)
        (r <- await (fetch ("https://registry.npmjs.org/" +:+ name)) ;;
         versions <- await (json_versions r) ;;
         match versions with
         | None => now (throw (incorrect_format name))
         | Some keys =>
             let versions := rev keys in
             now (cache_set NPM name (VString <$> versions)) ;;;
             now (ret (VString <$> versions))
         end)
  end.

Definition unpkgVersions (name : string) : started World (list value) :=
  page <- await (fetch ("https://unpkg.com/browse/" +:+ name +:+ "/")) ;;
  text <- await (text page) ;;
  now (ret (rev (matchAll1 option_re text))).

Definition nestlandReleases (repo : string) (cache : handle) : started World (list value) :=
  hit <- now (cache_get cache repo) ;;
  match hit with
  | Some versions => now (ret versions)
  | None =>
      r <- await (fetch ("https://x.nest.land/api/package/" +:+ repo)) ;;
      packageUploadNames <- await (json_uploads r) ;;
      match packageUploadNames with
      | None => now (ret [])
      | Some names =>
          now (ret (rev (map (fun name => nth_value (split "@" name) 1) names)))
      end
  end.

(** [all()]: the classes served by the unpkg page and the two that await
    [githubReleases] are [async] and [await] the fetcher; the others return
    its promise. *)
Definition all (u : RegistryUrl) : started World (list value) :=
  match ctor u with
  | DenoLand => DenoLand_all u
  | Jsr => Jsr_all u
  | Npm => Npm_all u
  | UnpkgScope | PikaScope | SkypackScope | EsmShScope =>
      info <- now (lift (defaultInfo u)) ;;
      await (unpkgVersions (scope info +:+ "/" +:+ packageName info))
  | Unpkg | Jspm | Pika | Skypack | EsmSh =>
      name <- now (lift (defaultName u)) ;;
      await (unpkgVersions (show_value name))
  | Denopkg | PaxDenoDev =>
      let owner := nth_value (split "/" (url u)) 3 in
      repo <- now (lift (defaultName u)) ;;
      await (githubReleases (show_value owner) (show_value repo) GR)
  | GithubRaw =>
      let parts := split "/" (url u) in
      githubReleases (show_value (nth_value parts 3)) (show_value (nth_value parts 4)) GR
  | JsDelivr =>
      p <- now (lift (JsDelivr_parts u)) ;;
      let '(_, user, repo, _) := p in
      githubReleases (show_value user) repo GR
  | GitlabRaw =>
      let parts := split "/" (url u) in
      gitlabReleases (show_value (nth_value parts 3)) (show_value (nth_value parts 4)) GL
  | NestLand =>
      match split "/" (url u) !! 3 with
      | None => now (throw TypeError)
      | Some p3 => nestlandReleases (default "" (split "@" p3 !! 0)) NL
      end
  end.

(** Modelled from the spec: [pkgInfo] of [./pkg.ts], which is not among the
    sources, as in [Upgrade.pkgInfo], with its [await] of [all()]. *)
Definition pkgInfo (specifier : string) (allowPre : bool) : started World (option Info) :=
  match lookup specifier REGISTRIES with
  | None => now (ret None)
  | Some u =>
      versions <- await (all u) ;;
      current <- now (lift (version u)) ;;
      now (ret (Some {| info_url := u; latest := nth_value' versions 0;
                        current := current |}))
  end.
End Network.

(* --------------------------------------------------------------------- *)
(** *** The pass of [upgradeDeps] *)

(** A callback [async (pkg) => { const info = await pkgInfo(imports[pkg],
    flag); ... }] of the pass: the alias it was called with, the specifier it
    read when it was launched, its call of [pkgInfo], and how the callback
    itself has settled, [None] as long as it waits. *)
Record callback : Type := {
  cb_alias : string;
  cb_specifier : string;
  cb_info : task World (option Info);
  cb_done : option (completion unit)
}.

(** The pass: its callbacks in the order they were launched, the state of
    the run, and the rejection of [Promise.all] once it has one, which is the
    first of a callback. *)
Record Pass : Type := {
  callbacks : list callback;
  state : Run;
  rejected : option exn
}.

Section Pass.
(** [pkgInfo] of [./pkg.ts]. *)
Variable pkgInfo : string -> bool -> started World (option Info).
Variable canParse : string -> bool.
Variable lessThan : string -> string -> completion bool.
Variable args : list string.
Variable allow_pre : bool.

(** [Object.keys(imports).filter(...).map(async (pkg) => ...)]: the callbacks
    are called one after the other, each up to its [await]: every call of
    [pkgInfo] is started, with the specifier the map has then. *)
Fixpoint launch (selected : list (string * string)) (r : Run) : list callback * Run :=
  match selected with
  | [] => ([], r)
  | (pkg, specifier) :: rest =>
      let '(t, w) := pkgInfo specifier allow_pre (world r) in
      let '(cbs, r') := launch rest (with_world r w) in
      ({| cb_alias := pkg; cb_specifier := specifier; cb_info := t; cb_done := None |}
       :: cbs, r')
  end.

(** One step of a callback that waits: its call of [pkgInfo] is resumed up
    to its next [await]; in a later step than the one in which the call
    settles, the callback goes on with what the call settled to, and runs to
    its end. *)
Definition step_callback (logs : bool) (cb : callback) (r : Run) : callback * Run :=
  match cb_info cb with
  | Settled c =>
      let '(c', r') := abind (lift c) (after_info canParse args logs (cb_alias cb)) r in
      ({| cb_alias := cb_alias cb; cb_specifier := cb_specifier cb;
          cb_info := cb_info cb; cb_done := Some c' |}, r')
  | Waiting effect next =>
      ({| cb_alias := cb_alias cb; cb_specifier := cb_specifier cb;
          cb_info := next (world r); cb_done := None |},
       with_world r (effect (world r)))
  end.

(** One step of the pass: the callback of index [i], when it waits, makes
    a step; when it throws and no callback has thrown before, the join
    rejects with what it threw. A callback that has settled does nothing
    more. *)
Definition step (logs : bool) (p : Pass) (i : nat) : Pass :=
  match callbacks p !! i with
  | None => p
  | Some cb =>
      match cb_done cb with
      | Some _ => p
      | None =>
          let '(cb', r') := step_callback logs cb (state p) in
          {| callbacks := <[i := cb']> (callbacks p);
             state := r';
             rejected := match rejected p, cb_done cb' with
                         | None, Some (Throw e) => Some e
                         | first, _ => first
                         end |}
      end
  end.

Definition steps (logs : bool) (schedule : list nat) (p : Pass) : Pass :=
  fold_left (step logs) schedule p.

Definition all_done (p : Pass) : bool :=
  forallb (fun cb => bool_decide (is_Some (cb_done cb))) (callbacks p).

(** [await Promise.all(...)]: the steps of [schedule] are taken until the
    join settles: it rejects as soon as a callback has thrown, it resolves
    when every callback has returned. The result is how the join settled
    ([None] when the schedule ends before), the pass at that moment and the
    steps not taken yet. *)
Fixpoint await_all (logs : bool) (schedule : list nat) (p : Pass)
  : option (completion unit) * Pass * list nat :=
  match rejected p with
  | Some e => (Some (Throw e), p, schedule)
  | None =>
      if all_done p then (Some (Normal tt), p, schedule)
      else match schedule with
           | [] => (None, p, [])
           | i :: rest => await_all logs rest (step logs p i)
           end
  end.

(** A run of [upgradeDeps]: how its promise settled ([None]: it is still
    waiting when the schedule ends), the state of the run at that moment, and
    the pass once every step of the schedule has been taken. [Promise.all]
    cancels nothing: the callbacks that wait when the join rejects go on
    with the steps that are left. *)
Record Outcome : Type := {
  result : option (completion bool);
  at_result : Run;
  final : Pass
}.

Definition launched (importMap : DependencyMap) (logs : bool) (deps : regex)
    (w : World) : Pass :=
  let r0 := logged logs (Plain "looking up latest versions")
              {| imports := importMap; upgradeFound := false; lines := []; world := w |} in
  let '(cbs, r1) := launch (selected deps (imports r0)) r0 in
  {| callbacks := cbs; state := r1; rejected := None |}.

Definition upgradeDeps (importMap : DependencyMap) (logs : bool) (deps : regex)
    (schedule : list nat) (w : World) : Outcome :=
  let '(joined, p, rest) := await_all logs schedule (launched importMap logs deps w) in
  match joined with
  | None => {| result := None; at_result := state p; final := p |}
  | Some (Throw e) =>
      {| result := Some (Throw e); at_result := state p; final := steps logs rest p |}
  | Some (Normal _) =>
      let '(c, r) := after_join lessThan logs (state p) in
      {| result := Some c; at_result := r;
         final := {| callbacks := callbacks p; state := r; rejected := None |} |}
  end.
End Pass.
End Concurrent.

(* ===================================================================== *)
(** ** Examples and synthetic feeds used in the statements *)
(* ===================================================================== *)

Module Examples.
Import Fetch Upgrade.

(** A specifier of each dialect, of the shape its pattern is written for. *)
Definition canonical (R : RegistryCtor) : string :=
  match R with
  | DenoLand => "https://deno.land/std@0.1.0/foo.ts"
  | Jsr => "jsr:@scope/pkg@1.0.0/mod.ts"
  | Npm => "npm:@scope/pkg@1.0.0/mod.js"
  | UnpkgScope => "https://unpkg.com/@scope/pkg@1.0.0/foo.ts"
  | Unpkg => "https://unpkg.com/foo@0.1.0/foo.ts"
  | Jspm => "https://dev.jspm.io/foo@0.1.0/foo.ts"
  | Denopkg => "https://denopkg.com/owner/repo@0.1.0/foo.ts"
  | PaxDenoDev => "https://pax.deno.dev/owner/repo@0.1.0/foo.ts"
  | PikaScope => "https://cdn.pika.dev/@scope/pkg@1.0.0/foo.ts"
  | Pika => "https://cdn.pika.dev/foo@0.1.0/foo.ts"
  | SkypackScope => "https://cdn.skypack.dev/@scope/pkg@1.0.0/foo.ts"
  | Skypack => "https://cdn.skypack.dev/foo@0.1.0/foo.ts"
  | EsmShScope => "https://esm.sh/@scope/pkg@1.0.0/foo.ts"
  | EsmSh => "https://esm.sh/foo@0.1.0/foo.ts"
  | GithubRaw => "https://raw.githubusercontent.com/owner/repo/v0.1.0/foo.ts"
  | JsDelivr => "https://cdn.jsdelivr.net/gh/owner/repo@v0.1.0/foo.ts"
  | GitlabRaw => "https://gitlab.com/owner/repo/-/raw/v0.1.0/foo.ts"
  | NestLand => "https://x.nest.land/foo@0.1.0/foo.ts"
  end.

(** The characters of a version: letters, digits, the dot, the hyphen and
    the plus sign of semantic versions. *)
Definition version_char (c : ascii) : bool :=
  let n := nat_of_ascii c in
  ((48 <=? n) && (n <=? 57)) || ((65 <=? n) && (n <=? 90))
  || ((97 <=? n) && (n <=? 122)) || (n =? 46) || (n =? 45) || (n =? 43).

Fixpoint all_chars (f : ascii -> bool) (s : string) : bool :=
  match s with
  | "" => true
  | String c s' => f c && all_chars f s'
  end.

(** A syntactically valid version string: not empty, made of version
    characters. *)
Definition valid_version (v : string) : bool :=
  negb (String.eqb v "") && all_chars version_char v.

(** The scoped variants and their unscoped counterparts. *)
Definition scoped_pairs : list (RegistryCtor * RegistryCtor) :=
  [(UnpkgScope, Unpkg); (PikaScope, Pika); (SkypackScope, Skypack); (EsmShScope, EsmSh)].

(** The entries of a list that come before the first occurrence of [R]. *)
Fixpoint before (R : RegistryCtor) (rs : list RegistryCtor) : list RegistryCtor :=
  match rs with
  | [] => []
  | R' :: rest => if bool_decide (R' = R) then [] else R' :: before R rest
  end.

(** A run of characters of a class ends where the subject ends or the next
    character is not of the class. *)
Definition stops (f : ascii -> bool) (s : string) : bool :=
  match s with
  | "" => true
  | String c _ => negb (f c)
  end.

(** The characters other than the at sign, the dollar sign and the slash. *)
Definition not_at (c : ascii) : bool := negb (Ascii.eqb c "@").
Definition not_dollar (c : ascii) : bool := negb (Ascii.eqb c "$").
Definition not_slash_char (c : ascii) : bool := negb (Ascii.eqb c "/").

(** The variants built on [defaultAt] and [defaultVersion], and those built
    on [defaultScopeAt] and [defaultInfo]. *)
Definition default_variant (R : RegistryCtor) : bool :=
  match R with
  | DenoLand | Unpkg | Jspm | Denopkg | PaxDenoDev | Pika | Skypack | EsmSh | NestLand =>
      true
  | _ => false
  end.

Definition scoped_variant (R : RegistryCtor) : bool :=
  match R with
  | UnpkgScope | PikaScope | SkypackScope | EsmShScope => true
  | _ => false
  end.

(** The network that answers nothing. *)
Definition offline : string -> option body := fun _ => None.

(** A sort that is never reached by the examples that use a filled cache. *)
Definition no_sort : list string -> completion (list string) :=
  fun _ => Throw (Error "no semantic-version library").

(** A stand-in for the semantic-version parser: it accepts three numbers
    separated by dots. *)
Definition numeric (s : string) : bool :=
  negb (String.eqb s "") && all_chars (accepts Digit) s.
Definition canParse3 (s : string) : bool :=
  match split "." s with
  | [a; b; c] => numeric a && numeric b && numeric c
  | _ => false
  end.
Definition no_lessThan : string -> string -> completion bool :=
  fun _ _ => Throw (Error "no semantic-version library").

(** The number a string of digits writes. *)
Fixpoint number_of (acc : N) (s : string) : N :=
  match s with
  | "" => acc
  | String c s' => number_of (10 * acc + (N_of_ascii c - 48))%N s'
  end.

(** A stand-in for [parse] and [compare] of the semantic-version library on
    release versions: three numbers, compared from the left. *)
Definition parse3 (s : string) : completion (N * N * N) :=
  match split "." s with
  | [a; b; c] =>
      if numeric a && numeric b && numeric c
      then Normal (number_of 0 a, number_of 0 b, number_of 0 c)
      else Throw TypeError
  | _ => Throw TypeError
  end.

Definition compare3 (x y : N * N * N) : Z :=
  let '(a, b, c) := x in
  let '(a', b', c') := y in
  match (a ?= a')%N with
  | Lt => (-1)%Z
  | Gt => 1%Z
  | Eq =>
      match (b ?= b')%N with
      | Lt => (-1)%Z
      | Gt => 1%Z
      | Eq => match (c ?= c')%N with Lt => (-1)%Z | Gt => 1%Z | Eq => 0%Z end
      end
  end.

(** A network on which jsr.io knows one package, and nothing else answers. *)
Definition jsr_only (name : string) (versions : list string) (u : string)
  : option body :=
  if String.eqb u ("https://jsr.io/" +:+ name +:+ "/meta.json")
  then Some (VersionsJson (Some versions))
  else None.

(** An Atom page of a GitLab tags feed: one entry per line. *)
Fixpoint gitlab_atom (tags : list string) : string :=
  match tags with
  | [] => ""
  | t :: tags' =>
      "<entry><id>https://gitlab.com/owner/repo/-/tags/" +:+ t +:+ "</id></entry>"
      +:+ String "010" (gitlab_atom tags')
  end.

(** An Atom page of a GitHub releases feed. *)
Fixpoint github_atom (tags : list string) : string :=
  match tags with
  | [] => ""
  | t :: tags' =>
      "<entry><id>tag:github.com,2008:Repository/42/" +:+ t +:+ "</id></entry>"
      +:+ github_atom tags'
  end.

(** A GitLab feed that returns a full page of twenty tags for every request,
    page [p] listing [vp.0] to [vp.19] (the page number is what follows the
    last [=] of the address). *)
Definition gitlab_full (u : string) : option body :=
  let p := default "" (last (split "=" u)) in
  Some (Text (gitlab_atom (map (fun k => "v" +:+ p +:+ "." +:+ pretty k) (seq 0 20)))).

(** A GitHub feed that returns a full page of ten tags for every request,
    each tag extending the cursor of the request. *)
Definition github_full (u : string) : option body :=
  let c := default "" (last (split "=" u)) in
  let c := if String.eqb c u then "r" else c in
  Some (Text (github_atom (map (fun k => c +:+ "." +:+ pretty k) (seq 0 10)))).

(** A GitHub feed that returns the same full page whatever the cursor. *)
Definition github_same (u : string) : option body :=
  Some (Text (github_atom (map (fun k => "v1." +:+ pretty k) (seq 0 10)))).

(** A directory page of unpkg.com with three versions, oldest first. *)
Definition unpkg_page : string :=
  "<select><option value=" +:+ String "034" "0.1.0" +:+ String "034" ">0.1.0</option>"
  +:+ "<option value=" +:+ String "034" "0.2.0" +:+ String "034" ">0.2.0</option>"
  +:+ "<option selected value=" +:+ String "034" "0.3.0" +:+ String "034" ">0.3.0</option>"
  +:+ "</select>".
Definition unpkg_net (u : string) : option body := Some (Text unpkg_page).

(** A deno.land index that lists its versions oldest first. *)
Definition deno_oldest_first (u : string) : option body :=
  Some (VersionsJson (Some ["1.0.0"; "2.0.0"])).

(** An upload log of nest.land without the list of names. *)
Definition nestland_no_names (u : string) : option body :=
  Some (NestLandResponse None).

(** The JSON documents without a [packageUploadNames] member. *)
Definition without_upload_names (b : body) : bool :=
  match b with
  | NestLandResponse None | VersionsJson _ => true
  | _ => false
  end.

(** The dialects whose fetcher writes a cache, the cache family they share
    and the key they use in it; nothing for the dialects without a written
    cache and when the key cannot be computed. *)
Inductive family : Type := FGitHub | FDenoLand | FJsr | FNpm | FGitLab.

Definition family_cache (f : family) : handle :=
  match f with
  | FGitHub => GR | FDenoLand => DL | FJsr => JSR | FNpm => NPM | FGitLab => GL
  end.

Definition key_of (c : completion value) : option string :=
  match c with Normal v => Some (show_value v) | Throw _ => None end.

Definition package_key (u : RegistryUrl) : option (family * string) :=
  match ctor u with
  | DenoLand => pair FDenoLand <$> key_of (DenoLand_name u)
  | Jsr => pair FJsr <$> key_of (parsed_name jsr_parse_re u)
  | Npm => pair FNpm <$> key_of (parsed_name npm_parse_re u)
  | Denopkg | PaxDenoDev =>
      (fun repo => (FGitHub, show_value (nth_value (split "/" (url u)) 3) +:+ "/" +:+ repo))
        <$> key_of (defaultName u)
  | GithubRaw =>
      Some (FGitHub, show_value (nth_value (split "/" (url u)) 3) +:+ "/"
                     +:+ show_value (nth_value (split "/" (url u)) 4))
  | JsDelivr =>
      match JsDelivr_parts u with
      | Normal (_, user, repo, _) => Some (FGitHub, show_value user +:+ "/" +:+ repo)
      | Throw _ => None
      end
  | GitlabRaw =>
      Some (FGitLab, show_value (nth_value (split "/" (url u)) 3) +:+ "/"
                     +:+ show_value (nth_value (split "/" (url u)) 4))
  | _ => None
  end.

(** A fetcher that reads its cache first and writes it last: on a hit it
    returns the cached list and leaves the process as it is; when it
    resolves, the list it resolves to is in the cache. *)
Definition read_through (h : handle) (k : string) (m : Async (list value)) : Prop :=
  (forall w vs, get_cache h w !! k = Some vs -> m w = (Normal vs, w)) /\
  (forall w w1 vs, m w = (Normal vs, w1) -> get_cache h w1 !! k = Some vs).

(** A process in which the versions of [@scope/pkg] on jsr.io are known. *)
Definition jsr_known (name : string) (versions : list string) : World :=
  set_JSR (<[name := VString <$> versions]>) start.

End Examples.

(* ===================================================================== *)
(** ** [jsrLatest], and what the further properties speak of *)
(* ===================================================================== *)

Module Latest.
Import Fetch.

(** The document of [https://jsr.io/<package>/meta.json] as [jsrLatest]
    reads it: a value with a [latest] member ([undefined] when the member is
    absent), or [null]. *)
Inductive meta : Type :=
| MetaObject (latest : value)
| MetaNull.

Section JsrLatest.
(** What the address answers once parsed; [None] when [fetch] or [json()]
    rejects. *)
Variable net_meta : string -> option meta.

(** [jsrLatest]: the rejection of the request is caught and replaced by the
    default; reading [latest] happens after the [catch]. *)
Definition jsrLatest (packageName : string) (defaultsTo : string) : Async string :=
  fun w =>
    let address := "https://jsr.io/" +:+ packageName +:+ "/meta.json" in
    let w' := log_request address w in
    match net_meta address with
    | None => (Normal ("jsr:" +:+ packageName +:+ "@^" +:+ defaultsTo), w')
    | Some (MetaObject latest) =>
        (Normal ("jsr:" +:+ packageName +:+ "@^" +:+ show_value latest), w')
    | Some MetaNull => (Throw TypeError, w')
    end.
End JsrLatest.

(** A GitLab feed that returns the same full page whatever the page asked. *)
Definition gitlab_same (u : string) : option body :=
  Some (Text (Examples.gitlab_atom
                (map (fun k => "v1." +:+ pretty k) (seq 0 20)))).

(** The address of the single document of a family, for a package name. *)
Definition document_address (f : Examples.family) (name : string) : option string :=
  match f with
  | Examples.FDenoLand => Some ("https://cdn.deno.land/" +:+ name +:+ "/meta/versions.json")
  | Examples.FJsr => Some ("https://jsr.io/" +:+ name +:+ "/meta.json")
  | Examples.FNpm => Some ("https://registry.npmjs.org/" +:+ name)
  | _ => None
  end.

(** A callback of the upgrade pass that has nothing to do: [pkgInfo] gave
    no result or no latest version, the current version is the latest one, or
    it does not parse and [force] was not given. *)
Definition nothing_to_do (canParse : string -> bool) (args : list string)
    (o : option Upgrade.Info) : Prop :=
  match o with
  | None => True
  | Some info =>
      truthy (Upgrade.latest info) = false \/
      Upgrade.current info = Upgrade.latest info \/
      (Upgrade.canParse_value canParse (Upgrade.current info) = false /\
       Upgrade.includes args "force" = false)
  end.

(** Every callback of a pass has nothing to do: the callbacks are resumed
    in the order of [launched], each in the world its predecessor left. *)
Fixpoint nothing_to_do_run (pkgInfo : string -> bool -> Async (option Upgrade.Info))
    (canParse : string -> bool) (args : list string) (allow_pre : bool)
    (launched : list (string * string)) (w : World) : Prop :=
  match launched with
  | [] => True
  | (_, specifier) :: rest =>
      match pkgInfo specifier allow_pre w with
      | (Normal o, w1) =>
          nothing_to_do canParse args o /\
          nothing_to_do_run pkgInfo canParse args allow_pre rest w1
      | (Throw _, _) => False
      end
  end.

(** The entry of an alias once its callback has returned: the address [at]
    gives for the latest version when [pkgInfo] found one, the current
    version parses or [force] was given, and the two versions differ; the
    specifier the callback read otherwise. *)
Definition entry_after (canParse : string -> bool) (args : list string)
    (specifier : string) (info : option Upgrade.Info) : string :=
  match info with
  | None => specifier
  | Some i =>
      if truthy (Upgrade.latest i)
         && (Upgrade.canParse_value canParse (Upgrade.current i)
             || Upgrade.includes args "force")
         && negb (bool_decide (Upgrade.current i = Upgrade.latest i))
      then match at_ (Upgrade.info_url i) (show_value (Upgrade.latest i)) with
           | Normal u' => url u'
           | Throw _ => specifier
           end
      else specifier
  end.

(** What the map holds for a callback of the pass: the entry its [info]
    decides once it has returned, the specifier it read when it was launched
    as long as it waits and when it has thrown. *)
Definition entry_of (canParse : string -> bool) (args : list string)
    (imports : Upgrade.DependencyMap) (cb : Concurrent.callback) : Prop :=
  match Concurrent.cb_done cb with
  | Some (Normal _) =>
      exists info,
        Concurrent.cb_info cb = Concurrent.Settled (Normal info) /\
        Upgrade.get imports (Concurrent.cb_alias cb)
        = Some (entry_after canParse args (Concurrent.cb_specifier cb) info)
  | _ =>
      Upgrade.get imports (Concurrent.cb_alias cb) = Some (Concurrent.cb_specifier cb)
  end.

(** What holds of a pass over [importMap] at every moment: the keys of the
    map are those it had, the entries the inclusion pattern rejects are as
    they were, the callbacks are those of the selected entries, and each has
    the entry [entry_of] tells. *)
Definition pass_invariant (canParse : string -> bool) (args : list string)
    (importMap : Upgrade.DependencyMap) (deps : Regex.regex) (p : Concurrent.Pass)
  : Prop :=
  let imports := Upgrade.imports (Concurrent.state p) in
  map fst imports = map fst importMap /\
  (forall pkg, Regex.test deps pkg = false ->
               Upgrade.get imports pkg = Upgrade.get importMap pkg) /\
  map (fun cb => (Concurrent.cb_alias cb, Concurrent.cb_specifier cb))
    (Concurrent.callbacks p)
  = Upgrade.selected deps importMap /\
  Forall (entry_of canParse args imports) (Concurrent.callbacks p).

(** The entries of the feed page an address answers, in the order of the
    page: what the pattern [re] captures in it, from its start to its end. *)
Definition entries (net : string -> option body) (re : Regex.regex) (address : string)
  : list value :=
  match net address with
  | Some (Text t) => Regex.matchAll1 re t
  | _ => []
  end.

(** A call that resolves to the entries of the pages it fetched, in the
    order it fetched them and, within a page, in the order of the page:
    [first] is the address it asked first ([requests] lists the latest
    request first). *)
Definition in_fetch_order (net : string -> option body) (re : Regex.regex)
    (first : string) (w : World) (result : completion (list value) * World) : Prop :=
  exists sent,
    requests result.2 = sent ++ requests w /\
    last sent = Some first /\
    result.1 = Normal (concat (map (entries net re) (rev sent))).

(** The six caches of a process. *)
Definition caches (w : World)
  : cache * cache * cache * cache * cache * cache :=
  (GR_CACHE w, DL_CACHE w, JSR_CACHE w, NPM_CACHE w, GL_CACHE w, NL_CACHE w).

(** The dialects served by the unpkg directory page. *)
Definition unpkg_family (R : RegistryCtor) : bool :=
  match R with
  | UnpkgScope | Unpkg | Jspm | PikaScope | Pika | SkypackScope | Skypack
  | EsmShScope | EsmSh => true
  | _ => false
  end.

(** The requests a computation added to the log. *)
Definition new_requests (w w' : World) : nat :=
  length (requests w') - length (requests w).

End Latest.

(* ===================================================================== *)
(** ** Properties *)
(* ===================================================================== *)

Import Fetch Upgrade Examples.
Local Open Scope async_scope.

(* --------------------------------------------------------------------- *)
(** *** Strings *)

Section StringFacts.
Implicit Types (s t u : string) (c : ascii) (f : ascii -> bool).

Lemma app_cons c s t : String c s +:+ t = String c (s +:+ t).
Proof. reflexivity. Qed.

Lemma app_nil_r s : s +:+ "" = s.
Proof. induction s as [|c s IH]; [reflexivity|]. rewrite app_cons, IH. reflexivity. Qed.

Lemma app_assoc s t u : (s +:+ t) +:+ u = s +:+ (t +:+ u).
Proof.
  induction s as [|c s IH]; [reflexivity|]. rewrite !app_cons, IH. reflexivity.
Qed.

Lemma length_app s t : String.length (s +:+ t) = String.length s + String.length t.
Proof.
  induction s as [|c s IH]; [reflexivity|]. rewrite app_cons. simpl. rewrite IH. reflexivity.
Qed.

Lemma take_app s t : take (String.length s) (s +:+ t) = s.
Proof.
  induction s as [|c s IH]; [destruct t; reflexivity|].
  rewrite app_cons. simpl. rewrite IH. reflexivity.
Qed.

Lemma all_chars_app f s t :
  all_chars f (s +:+ t) = all_chars f s && all_chars f t.
Proof.
  induction s as [|c s IH]; [reflexivity|].
  rewrite app_cons. simpl. rewrite IH. apply andb_assoc.
Qed.

Lemma all_chars_impl f (g : ascii -> bool) s :
  (forall c, f c = true -> g c = true) -> all_chars f s = true -> all_chars g s = true.
Proof.
  intros H. induction s as [|c s IH]; [reflexivity|]. simpl.
  intros [Hc Hs]%andb_true_iff. rewrite (H _ Hc), (IH Hs). reflexivity.
Qed.
End StringFacts.

(** What a version character is not. *)
Lemma version_char_plain (c : ascii) :
  version_char c = true ->
  c <> "/"%char /\ c <> "@"%char /\ c <> "$"%char /\ c <> "^"%char.
Proof.
  intros H. repeat split; intros ->; vm_compute in H; discriminate.
Qed.

Lemma valid_version_cons (v : string) :
  valid_version v = true ->
  exists c v', v = String c v' /\ version_char c = true /\ all_chars version_char v' = true.
Proof.
  unfold valid_version. destruct v as [|c v']; [discriminate|].
  simpl. intros [Hc Hv]%andb_true_iff. eauto.
Qed.

(* --------------------------------------------------------------------- *)
(** *** Running a pattern on a subject known in part *)

Section RunFacts.
Implicit Types (s a b : string) (f : ascii -> bool) (pos : nat) (cs : caps).

Lemma star_greedy_run f a b pos (k : nat -> string -> option mstate) (r : mstate) :
  all_chars f a = true -> stops f b = true ->
  k (pos + String.length a) b = Some r ->
  star_greedy f pos (a +:+ b) k = Some r.
Proof.
  revert pos. induction a as [|c a IH]; intros pos Ha Hb Hk.
  - simpl in Hk. rewrite Nat.add_0_r in Hk. change ("" +:+ b) with b.
    destruct b as [|c b]; simpl; [exact Hk|].
    simpl in Hb. apply negb_true_iff in Hb. rewrite Hb. exact Hk.
  - rewrite app_cons. simpl in Ha. apply andb_true_iff in Ha as [Hc Ha].
    simpl. rewrite Hc. rewrite (IH (S pos) Ha Hb); [reflexivity|].
    replace (S pos + String.length a) with (pos + String.length (String c a))
      by (simpl; lia).
    exact Hk.
Qed.

Lemma run_Seq (r1 r2 : regex) pos s cs (k : cont) :
  run (Seq r1 r2) pos s cs k = run r1 pos s cs (fun p s' c => run r2 p s' c k).
Proof. reflexivity. Qed.

Lemma run_Group (n : nat) (r1 : regex) pos s cs (k : cont) :
  run (Group n r1) pos s cs k
  = run r1 pos s cs (fun p s' c => k p s' ((n, take (p - pos) s) :: c)).
Proof. reflexivity. Qed.

Lemma run_Star (g : bool) (c : cset) pos s cs (k : cont) :
  run (Star g c) pos s cs k = star g (accepts c) pos s (fun p s' => k p s' cs).
Proof. reflexivity. Qed.

Lemma run_One_ok (c : cset) (x : ascii) pos s cs (k : cont) :
  accepts c x = true -> run (One c) pos (String x s) cs k = k (S pos) s cs.
Proof. intros H. simpl. rewrite H. reflexivity. Qed.

Lemma run_One_no (c : cset) (x : ascii) pos s cs (k : cont) :
  accepts c x = false -> run (One c) pos (String x s) cs k = None.
Proof. intros H. simpl. rewrite H. reflexivity. Qed.

Lemma run_Opt_taken (r1 : regex) pos s cs (k : cont) (m : mstate) :
  run r1 pos s cs k = Some m -> run (Opt r1) pos s cs k = Some m.
Proof. intros H. simpl. rewrite H. reflexivity. Qed.

Lemma run_Alt_left (r1 r2 : regex) pos s cs (k : cont) (m : mstate) :
  run r1 pos s cs k = Some m -> run (Alt r1 r2) pos s cs k = Some m.
Proof. intros H. simpl. rewrite H. reflexivity. Qed.

Lemma run_plus_greedy (c : cset) a b pos cs (k : cont) (r : mstate) :
  a <> "" -> all_chars (accepts c) a = true -> stops (accepts c) b = true ->
  k (pos + String.length a) b cs = Some r ->
  run (Plus true c) pos (a +:+ b) cs k = Some r.
Proof.
  intros Hne Ha Hb Hk. destruct a as [|x a]; [congruence|].
  rewrite app_cons. simpl in Ha. apply andb_true_iff in Ha as [Hx Ha].
  simpl. rewrite Hx. unfold star.
  apply (star_greedy_run _ a b (S pos) (fun p s => k p s cs)); [exact Ha|exact Hb|].
  replace (S pos + String.length a) with (pos + String.length (String x a))
    by (simpl; lia).
  exact Hk.
Qed.
End RunFacts.

(* --------------------------------------------------------------------- *)
(** *** [defaultVersion] on a specifier of the shape [prefix@version/rest] *)

Lemma version_re_at (pos : nat) (v rest : string) :
  v <> "" -> all_chars (accepts not_slash) v = true ->
  run version_re pos (String "@" (v +:+ String "/" rest)) [] accept
  = Some (S (S (pos + String.length v)), rest, [(1, v)]).
Proof.
  intros Hne Hv. unfold version_re. cbn [cat lit].
  rewrite run_Seq, run_One_ok by reflexivity. rewrite run_Seq, run_Group.
  apply run_plus_greedy; [exact Hne|exact Hv|reflexivity|].
  apply run_Opt_taken. rewrite run_One_ok by reflexivity. unfold accept.
  replace (S pos + String.length v - S pos) with (String.length v) by lia.
  rewrite take_app. reflexivity.
Qed.

Lemma version_re_skip (pos : nat) (c : ascii) (s : string) :
  not_at c = true -> run version_re pos (String c s) [] accept = None.
Proof.
  unfold not_at. intros H%negb_true_iff.
  unfold version_re. cbn [cat lit]. rewrite run_Seq. apply run_One_no.
  simpl. rewrite Ascii.eqb_sym. exact H.
Qed.

Lemma search_version_re (pos : nat) (pre v rest : string) :
  all_chars not_at pre = true -> v <> "" -> all_chars (accepts not_slash) v = true ->
  search version_re pos (pre +:+ String "@" (v +:+ String "/" rest))
  = Some (Found (pos + String.length pre) (S (S (pos + String.length pre + String.length v)))
            rest [(1, v)]).
Proof.
  intros Hp Hne Hv. revert pos Hp. induction pre as [|c pre IH]; intros pos Hp.
  - change ("" +:+ ?s) with s. cbn [search]. rewrite version_re_at by assumption.
    simpl. rewrite Nat.add_0_r. reflexivity.
  - rewrite app_cons. simpl in Hp. apply andb_true_iff in Hp as [Hc Hp].
    cbn [search]. rewrite version_re_skip by exact Hc.
    rewrite IH by exact Hp. simpl String.length. do 2 f_equal; lia.
Qed.

Lemma defaultVersion_shape (R : RegistryCtor) (pre v rest : string) :
  all_chars not_at pre = true -> v <> "" -> all_chars (accepts not_slash) v = true ->
  defaultVersion (new R (pre +:+ String "@" (v +:+ String "/" rest)))
  = Normal (VString v).
Proof.
  intros Hp Hne Hv. unfold defaultVersion, match_. cbn [url].
  rewrite search_version_re by assumption. reflexivity.
Qed.

Lemma star_lazy_run (f g : ascii -> bool) (a b : string) (pos : nat)
    (k : nat -> string -> option mstate) (r : mstate) :
  all_chars f a = true -> all_chars g a = true ->
  (forall p x t, g x = true -> k p (String x t) = None) ->
  k (pos + String.length a) b = Some r ->
  star_lazy f pos (a +:+ b) k = Some r.
Proof.
  intros Hf Hg Hfail. revert pos. induction a as [|c a IH]; intros pos Hk.
  - simpl in Hk. rewrite Nat.add_0_r in Hk. change ("" +:+ b) with b.
    destruct b; simpl; rewrite Hk; reflexivity.
  - rewrite app_cons. simpl in Hf, Hg.
    apply andb_true_iff in Hf as [Hc Hf]. apply andb_true_iff in Hg as [Hgc Hg].
    simpl. rewrite (Hfail pos c _ Hgc), Hc. apply IH; [exact Hf|exact Hg|].
    replace (S pos + String.length a) with (pos + String.length (String c a))
      by (simpl; lia).
    exact Hk.
Qed.

(* --------------------------------------------------------------------- *)
(** *** [defaultAt] on a specifier of the shape [prefix@version/rest] *)

Lemma substitute_plain (n : nat) (matched before after : string) (cs : caps)
    (t : string) :
  all_chars not_dollar t = true -> substitute n matched before after cs t = t.
Proof.
  induction t as [|c t IH]; [reflexivity|]. simpl.
  intros [Hc Ht]%andb_true_iff. unfold not_dollar in Hc. rewrite Hc, (IH Ht).
  reflexivity.
Qed.

Lemma at_re_at (pos : nat) (old rest : string) :
  all_chars (accepts Any) old = true -> all_chars not_slash_char old = true ->
  run at_re pos (String "@" (old +:+ String "/" rest)) [] accept
  = Some (S (S (pos + String.length old)), rest, [(2, "/"); (1, old)]).
Proof.
  intros Ha Hs. unfold at_re. cbn [cat lit].
  rewrite run_Seq, run_One_ok by reflexivity. rewrite run_Seq, run_Group.
  rewrite run_Star. unfold star.
  apply (star_lazy_run _ not_slash_char); [exact Ha|exact Hs| |].
  - intros p x t Hx. unfold not_slash_char in Hx. apply negb_true_iff in Hx.
    rewrite run_Group. cbn [run accepts]. rewrite Hx. reflexivity.
  - rewrite run_Group. apply run_Alt_left. rewrite run_One_ok by reflexivity.
    unfold accept.
    replace (S pos + String.length old - S pos) with (String.length old) by lia.
    rewrite take_app.
    replace (S (S pos + String.length old) - (S pos + String.length old)) with 1 by lia.
    reflexivity.
Qed.

Lemma at_re_skip (pos : nat) (c : ascii) (s : string) :
  not_at c = true -> run at_re pos (String c s) [] accept = None.
Proof.
  unfold not_at. intros H%negb_true_iff.
  unfold at_re. cbn [cat lit]. rewrite run_Seq. apply run_One_no.
  simpl. exact H.
Qed.

Lemma search_at_re (pos : nat) (pre old rest : string) :
  all_chars not_at pre = true ->
  all_chars (accepts Any) old = true -> all_chars not_slash_char old = true ->
  search at_re pos (pre +:+ String "@" (old +:+ String "/" rest))
  = Some (Found (pos + String.length pre)
            (S (S (pos + String.length pre + String.length old)))
            rest [(2, "/"); (1, old)]).
Proof.
  intros Hp Ha Hs. revert pos Hp. induction pre as [|c pre IH]; intros pos Hp.
  - change ("" +:+ ?s) with s. cbn [search]. rewrite at_re_at by assumption.
    simpl. rewrite Nat.add_0_r. reflexivity.
  - rewrite app_cons. simpl in Hp. apply andb_true_iff in Hp as [Hc Hp].
    cbn [search]. rewrite at_re_skip by exact Hc.
    rewrite IH by exact Hp. simpl String.length. do 2 f_equal; lia.
Qed.

Lemma defaultAt_shape (R : RegistryCtor) (pre old rest v : string) :
  all_chars not_at pre = true ->
  all_chars (accepts Any) old = true -> all_chars not_slash_char old = true ->
  all_chars not_dollar v = true ->
  defaultAt (new R (pre +:+ String "@" (old +:+ String "/" rest))) v
  = pre +:+ String "@" (v +:+ String "/" rest).
Proof.
  intros Hp Ha Hs Hv. unfold defaultAt, replace. cbn [url].
  rewrite search_at_re by assumption. cbn [m_start m_end m_rest m_caps].
  rewrite Nat.add_0_l, take_app.
  rewrite substitute_plain.
  - change ("@" +:+ v +:+ "/") with (String "@" (v +:+ "/")).
    rewrite app_cons, app_assoc. reflexivity.
  - change ("@" +:+ v +:+ "/") with (String "@" (v +:+ "/")).
    simpl. rewrite all_chars_app, Hv. reflexivity.
Qed.

Lemma valid_version_facts (v : string) :
  valid_version v = true ->
  v <> "" /\ all_chars (accepts not_slash) v = true /\
  all_chars not_dollar v = true /\ all_chars not_at v = true /\
  all_chars not_slash_char v = true.
Proof.
  unfold valid_version. intros [Hne Hv]%andb_true_iff. split.
  - intros ->. discriminate.
  - repeat split; revert Hv; apply all_chars_impl; intros c Hc;
      destruct (version_char_plain c Hc) as (H1 & H2 & H3 & H4);
      unfold not_dollar, not_at, not_slash_char; simpl;
      rewrite ?orb_false_r; apply negb_true_iff, Ascii.eqb_neq; assumption.
Qed.

(** For every specifier of the shape [prefix@version/rest] whose prefix has
    no at sign, the variants built on the two default helpers give back the
    version they were moved to. *)
Lemma at_then_version_default (R : RegistryCtor) (pre old rest v : string) :
  default_variant R = true ->
  all_chars not_at pre = true ->
  all_chars (accepts Any) old = true -> all_chars not_slash_char old = true ->
  valid_version v = true ->
  bind (at_ (new R (pre +:+ String "@" (old +:+ String "/" rest))) v) version
  = Normal (VString v).
Proof.
  intros HR Hp Ha Hs Hv.
  destruct (valid_version_facts v Hv) as (Hne & Hns & Hnd & _ & _).
  destruct R; try discriminate HR; unfold at_; cbn [ctor bind]; unfold version;
    cbn [ctor]; rewrite defaultAt_shape by assumption;
    apply defaultVersion_shape; assumption.
Qed.

(* --------------------------------------------------------------------- *)
(** *** [split], [join] and the indexed store *)

Section SplitJoin.
Variable sep : ascii.
Let free (c : ascii) : bool := negb (Ascii.eqb c sep).

Lemma split_free (s : string) : all_chars free s = true -> split sep s = [s].
Proof.
  induction s as [|c s IH]; [reflexivity|]. simpl.
  intros [Hc Hs]%andb_true_iff. unfold free in Hc. apply negb_true_iff in Hc.
  rewrite Hc, (IH Hs). reflexivity.
Qed.

Lemma split_app_sep (a b : string) :
  all_chars free a = true -> split sep (a +:+ String sep b) = a :: split sep b.
Proof.
  induction a as [|c a IH].
  - intros _. change ("" +:+ ?s) with s. simpl. rewrite Ascii.eqb_refl. reflexivity.
  - rewrite app_cons. simpl. intros [Hc Ha]%andb_true_iff.
    unfold free in Hc. apply negb_true_iff in Hc. rewrite Hc, (IH Ha). reflexivity.
Qed.

Lemma split_pieces_free (s : string) : Forall (fun p => all_chars free p = true) (split sep s).
Proof.
  induction s as [|c s IH]; [repeat constructor|]. simpl.
  destruct (Ascii.eqb c sep) eqn:E.
  - constructor; [reflexivity|exact IH].
  - destruct (split sep s) as [|x xs].
    + repeat constructor. simpl. unfold free. rewrite E. reflexivity.
    + inversion IH as [|? ? Hx Hxs]; subst. constructor; [|exact Hxs].
      simpl. unfold free at 1. rewrite E. exact Hx.
Qed.

Lemma split_pieces (f : ascii -> bool) (s : string) :
  all_chars f s = true -> Forall (fun p => all_chars f p = true) (split sep s).
Proof.
  induction s as [|c s IH]; [repeat constructor|]. simpl.
  intros [Hc Hs]%andb_true_iff. specialize (IH Hs).
  destruct (Ascii.eqb c sep).
  - constructor; [reflexivity|exact IH].
  - destruct (split sep s) as [|x xs].
    + repeat constructor. simpl. rewrite Hc. reflexivity.
    + inversion IH as [|? ? Hx Hxs]; subst. constructor; [|exact Hxs].
      simpl. rewrite Hc. exact Hx.
Qed.

Lemma split_join (a : list (option string)) :
  a <> [] ->
  Forall (fun x => all_chars free (default "" x) = true) a ->
  split sep (join (String sep "") a) = default "" <$> a.
Proof.
  induction a as [|x a IH]; [congruence|]. intros _ Ha.
  inversion Ha as [|? ? Hx Ha']; subst. destruct a as [|y a].
  - simpl. apply split_free, Hx.
  - change (join (String sep "") (x :: y :: a))
      with (default "" x +:+ String sep (join (String sep "") (y :: a))).
    rewrite split_app_sep by exact Hx. rewrite IH by (congruence || exact Ha').
    reflexivity.
Qed.
End SplitJoin.

Lemma store_lookup (a : list (option string)) (i : nat) (v : string) :
  (default "" <$> store a i v) !! i = Some v.
Proof.
  revert a. induction i as [|i IH]; intros [|x a]; simpl; try reflexivity; apply IH.
Qed.

Lemma store_lookup_other (l : list string) (i j : nat) (v : string) :
  j < i -> i < length l -> (default "" <$> store (Some <$> l) i v) !! j = l !! j.
Proof.
  revert l j. induction i as [|i IH]; intros [|x l] [|j] Hj Hi; simpl in *;
    try lia; try reflexivity.
  apply IH; lia.
Qed.

Lemma store_not_empty (a : list (option string)) (i : nat) (v : string) :
  store a i v <> [].
Proof. destruct i, a; discriminate. Qed.

Lemma store_Forall (P : option string -> Prop) (a : list (option string)) (i : nat)
    (v : string) :
  P None -> P (Some v) -> Forall P a -> Forall P (store a i v).
Proof.
  intros HN Hv. revert a. induction i as [|i IH]; intros [|x a] Ha; simpl.
  - repeat constructor. exact Hv.
  - inversion Ha; subst. constructor; assumption.
  - constructor; [exact HN|]. apply IH. constructor.
  - inversion Ha; subst. constructor; [assumption|]. apply IH. assumption.
Qed.

Lemma split_pieces_some (s : string) :
  Forall (fun x => all_chars not_slash_char (default "" x) = true)
    (Some <$> split "/" s).
Proof.
  apply Forall_fmap. eapply Forall_impl; [apply split_pieces_free|].
  intros p Hp. exact Hp.
Qed.

(** The GitHub raw variant, on every specifier. *)
Lemma at_then_version_GithubRaw (u : string) (v : string) :
  all_chars not_slash_char v = true ->
  bind (at_ (new GithubRaw u) v) version = Normal (VString v).
Proof.
  intros Hv. unfold at_. cbn [ctor bind url]. unfold version. cbn [ctor url].
  change "/"%string with (String "/"%char "") at 1.
  rewrite split_join.
  - rewrite store_lookup. reflexivity.
  - apply store_not_empty.
  - apply store_Forall; [reflexivity|exact Hv|apply split_pieces_some].
Qed.

(** The scoped variants, on every specifier [defaultInfo] reads. *)
Lemma at_then_version_scoped (R : RegistryCtor) (u : string) (info : PackageInfo)
    (v : string) :
  scoped_variant R = true ->
  defaultInfo (new R u) = Normal info ->
  all_chars not_slash_char v = true -> all_chars not_at v = true ->
  bind (at_ (new R u) v) version = Normal (VString v).
Proof.
  intros HR Hinfo Hv Hat.
  assert (Hat_ : at_ (new R u) v
                 = Normal (new R (join "/" (store (Some <$> parts info) 4
                                              (packageName info +:+ "@" +:+ v))))).
  { destruct R; try discriminate HR; unfold at_, defaultScopeAt; cbn [ctor];
      rewrite Hinfo; reflexivity. }
  rewrite Hat_. cbn [bind].
  unfold defaultInfo in Hinfo. cbn [url] in Hinfo.
  destruct (split "/" u !! 4) as [p4|] eqn:E4; [|discriminate].
  destruct (split "/" u !! 3) as [p3|] eqn:E3; [|discriminate].
  destruct (split "@" p4 !! 0) as [name|] eqn:E0; [|discriminate].
  destruct (split "@" p4 !! 1) as [ver|] eqn:E1; [|discriminate].
  inversion Hinfo; subst info; clear Hinfo. cbn [parts packageName] in *.
  assert (Hp4 : all_chars not_slash_char p4 = true).
  { pose proof (split_pieces_free "/" u) as H. rewrite Forall_forall in H.
    apply H. eapply list_elem_of_lookup_2; exact E4. }
  assert (Hname : all_chars not_slash_char name = true /\ all_chars not_at name = true).
  { split.
    - pose proof (split_pieces "@" not_slash_char p4 Hp4) as H.
      rewrite Forall_forall in H. apply H. eapply list_elem_of_lookup_2; exact E0.
    - pose proof (split_pieces_free "@" p4) as H. rewrite Forall_forall in H.
      apply H. eapply list_elem_of_lookup_2; exact E0. }
  destruct Hname as [Hn1 Hn2].
  assert (Hversion : defaultInfo (new R (join "/" (store (Some <$> split "/" u) 4
                                                   (name +:+ "@" +:+ v))))
                     = Normal {| parts := default "" <$> store (Some <$> split "/" u) 4
                                                           (name +:+ "@" +:+ v);
                                 scope := p3; packageName := name; version_of := v |}).
  { unfold defaultInfo. cbn [url].
    change "/"%string with (String "/"%char "") at 1 2.
    rewrite split_join.
    - rewrite store_lookup.
      rewrite store_lookup_other by (lia || (apply lookup_lt_Some in E4; exact E4)).
      rewrite E3.
      change (name +:+ "@" +:+ v) with (name +:+ String "@" v).
      rewrite split_app_sep by exact Hn2. rewrite split_free by exact Hat.
      reflexivity.
    - apply store_not_empty.
    - apply store_Forall; [reflexivity| |apply split_pieces_some].
      change (all_chars not_slash_char (name +:+ String "@" v) = true).
      rewrite all_chars_app. simpl. rewrite Hn1, Hv. reflexivity. }
  destruct R; try discriminate HR; unfold version; cbn [ctor]; rewrite Hversion;
    reflexivity.
Qed.

(* --------------------------------------------------------------------- *)
(** *** The [jsr:] and [npm:] parsers on a scoped specifier *)

Lemma run_Eps (pos : nat) (s : string) (cs : caps) (k : cont) :
  run Eps pos s cs k = k pos s cs.
Proof. reflexivity. Qed.

Lemma run_Opt_skipped (r1 : regex) (pos : nat) (s : string) (cs : caps) (k : cont) :
  run r1 pos s cs k = None -> run (Opt r1) pos s cs k = k pos s cs.
Proof. intros H. simpl. rewrite H. reflexivity. Qed.

Lemma star_greedy_all (f : ascii -> bool) (a : string) (pos : nat)
    (k : nat -> string -> option mstate) (r : mstate) :
  all_chars f a = true -> k (pos + String.length a) "" = Some r ->
  star_greedy f pos a k = Some r.
Proof.
  intros Ha Hk. rewrite <- (app_nil_r a).
  apply star_greedy_run; [exact Ha|reflexivity|exact Hk].
Qed.

Section Parsers.
Variables scope pkg v path : string.
Hypothesis Hscope : scope <> "" /\ all_chars (accepts not_slash) scope = true.
Hypothesis Hpkg : pkg <> "" /\ all_chars (accepts not_at_slash) pkg = true.
Hypothesis Hv : v <> "" /\ all_chars (accepts not_slash) v = true.
Hypothesis Hpath : all_chars (accepts Any) path = true.

(** From the at sign of the scope on: the first group takes the scope and
    the name, the second the version, the third the rest. *)
Lemma parse_scoped_tail (slash : bool) (pos : nat) :
  exists e cs',
    run (cat [scoped_or_plain slash;
              Opt (Seq (lit "@") (Group 2 (Plus true not_slash)));
              Group 3 (Star true Any)]) pos
      (String "@" (scope +:+ String "/" (pkg +:+ String "@" (v +:+ String "/" path))))
      [] accept
    = Some (e, "", cs') /\ cap cs' 2 = Some v.
Proof.
  destruct Hscope as [Hs1 Hs2], Hpkg as [Hp1 Hp2], Hv as [Hv1 Hv2].
  eexists _, _. split.
  - cbn [cat]. rewrite run_Seq. unfold scoped_or_plain. rewrite run_Group.
    apply run_Alt_left. cbn [cat]. rewrite run_Seq.
    assert (Hsl : forall k : cont,
               run (if slash then Opt (lit "/") else Eps) pos
                 (String "@" (scope +:+ String "/"
                    (pkg +:+ String "@" (v +:+ String "/" path)))) [] k
               = k pos (String "@" (scope +:+ String "/"
                    (pkg +:+ String "@" (v +:+ String "/" path)))) []).
    { intros k. destruct slash; [|apply run_Eps].
      apply run_Opt_skipped. cbn [lit]. apply run_One_no. reflexivity. }
    rewrite Hsl. cbn [lit]. rewrite run_Seq, run_One_ok by reflexivity.
    rewrite run_Seq. apply run_plus_greedy; [exact Hs1|exact Hs2|reflexivity|].
    rewrite run_Seq, run_One_ok by reflexivity.
    apply run_plus_greedy; [exact Hp1|exact Hp2|reflexivity|].
    cbv beta. rewrite run_Seq. apply run_Opt_taken.
    rewrite run_Seq, run_One_ok by reflexivity. rewrite run_Group.
    apply run_plus_greedy; [exact Hv1|exact Hv2|reflexivity|].
    cbv beta. rewrite run_Group, run_Star. unfold star.
    apply star_greedy_all; [simpl; exact Hpath|]. unfold accept. reflexivity.
  - cbn [cap Nat.eqb]. f_equal.
    match goal with |- take ?n _ = _ => replace n with (String.length v) by lia end.
    apply take_app.
Qed.
End Parsers.

Lemma search_here (r : regex) (pos : nat) (s : string) (e : nat) (rest : string)
    (cs : caps) :
  run r pos s [] accept = Some (e, rest, cs) ->
  search r pos s = Some (Found pos e rest cs).
Proof. intros H. destruct s; simpl; rewrite H; reflexivity. Qed.

Lemma parsed_version_scoped (re : regex) (prefix : string) (slash : bool)
    (scope pkg v path : string) :
  (forall s (k : cont),
      run re 0 (prefix +:+ s) [] k
      = run (cat [scoped_or_plain slash;
                  Opt (Seq (lit "@") (Group 2 (Plus true not_slash)));
                  Group 3 (Star true Any)]) (String.length prefix) s [] k) ->
  scope <> "" /\ all_chars (accepts not_slash) scope = true ->
  pkg <> "" /\ all_chars (accepts not_at_slash) pkg = true ->
  v <> "" /\ all_chars (accepts not_slash) v = true ->
  all_chars (accepts Any) path = true ->
  exists m,
    match_ re 3
      (prefix +:+ String "@" (scope +:+ String "/"
                   (pkg +:+ String "@" (v +:+ String "/" path)))) = Some m /\
    m !! 2 = Some (Some v).
Proof.
  intros Hre Hscope Hpkg Hv Hpath.
  destruct (parse_scoped_tail scope pkg v path Hscope Hpkg Hv Hpath slash
              (String.length prefix)) as (e & cs' & Hrun & Hcap).
  unfold match_. rewrite (search_here _ _ _ _ _ _ (eq_trans (Hre _ _) Hrun)).
  eexists. split; [reflexivity|]. simpl. rewrite Hcap. reflexivity.
Qed.

Lemma jsr_parse_prefix (s : string) (k : cont) :
  run jsr_parse_re 0 ("jsr:" +:+ s) [] k
  = run (cat [scoped_or_plain true;
              Opt (Seq (lit "@") (Group 2 (Plus true not_slash)));
              Group 3 (Star true Any)]) (String.length "jsr:") s [] k.
Proof. reflexivity. Qed.

Lemma npm_parse_prefix (s : string) (k : cont) :
  run npm_parse_re 0 ("npm:" +:+ s) [] k
  = run (cat [scoped_or_plain false;
              Opt (Seq (lit "@") (Group 2 (Plus true not_slash)));
              Group 3 (Star true Any)]) (String.length "npm:") s [] k.
Proof. reflexivity. Qed.

Lemma startsWith_caret (v : string) :
  valid_version v = true -> startsWith v "^" = false.
Proof.
  intros H. destruct (valid_version_cons v H) as (c & v' & -> & Hc & _).
  destruct (version_char_plain c Hc) as (_ & _ & _ & Hcaret).
  unfold startsWith. cbn [String.prefix].
  destruct (ascii_dec "^" c) as [E|E]; [congruence|reflexivity].
Qed.

(* --------------------------------------------------------------------- *)
(** *** The outcomes of [defaultVersion] *)

Lemma star_greedy_result (f : ascii -> bool) (pos : nat) (s : string)
    (k : nat -> string -> option mstate) (r : mstate) :
  star_greedy f pos s k = Some r -> exists p s', k p s' = Some r.
Proof.
  revert pos. induction s as [|c s IH]; intros pos; simpl.
  - eauto.
  - destruct (f c); [|eauto].
    destruct (star_greedy f (S pos) s k) as [r'|] eqn:E; [|eauto].
    intros H; inversion H; subst. exact (IH _ E).
Qed.

Lemma version_re_captures (pos : nat) (s : string) (m : mstate) :
  run version_re pos s [] accept = Some m -> exists v, cap m.2 1 = Some v.
Proof.
  unfold version_re. cbn [cat lit]. rewrite run_Seq.
  destruct s as [|a s]; [discriminate|].
  destruct (accepts (Chr "@") a) eqn:Ea;
    [rewrite run_One_ok by exact Ea|rewrite run_One_no by exact Ea; discriminate].
  rewrite run_Seq, run_Group. cbn [run].
  destruct s as [|b s]; [discriminate|].
  destruct (accepts not_slash b); [|discriminate].
  unfold star. intros H. apply star_greedy_result in H as (p & s' & H).
  destruct s' as [|x s']; [inversion H; simpl; eauto|].
  destruct (accepts (OneOf ["/"%char; "$"%char]) x); inversion H; simpl; eauto.
Qed.

Lemma search_version_re_captures (pos : nat) (s : string) (m : found) :
  search version_re pos s = Some m -> exists v, cap (m_caps m) 1 = Some v.
Proof.
  revert pos. induction s as [|c s IH]; intros pos; cbn [search].
  - destruct (run version_re pos "" [] accept) as [[[e rest] cs]|] eqn:E; [|discriminate].
    intros H; inversion H; subst. exact (version_re_captures _ _ _ E).
  - destruct (run version_re pos (String c s) [] accept) as [[[e rest] cs]|] eqn:E.
    + intros H; inversion H; subst. exact (version_re_captures _ _ _ E).
    + apply IH.
Qed.

(** X1. [defaultVersion] returns a string or throws the version-not-found
    error: it never returns [undefined] and never fails in another way. *)
Lemma defaultVersion_outcome (u : RegistryUrl) :
  defaultVersion u = Throw (version_not_found (url u)) \/
  exists v, defaultVersion u = Normal (VString v).
Proof.
  unfold defaultVersion, match_.
  destruct (search version_re 0 (url u)) as [m|] eqn:E; [right|left; reflexivity].
  destruct (search_version_re_captures _ _ _ E) as [v Hv].
  exists v. simpl. rewrite Hv. reflexivity.
Qed.

(* --------------------------------------------------------------------- *)
(** *** [version()] and [at()] on concrete specifiers *)

(** C8. [version()] of a specifier without a version: the [npm:] variant
    returns [undefined] and the [jsr:] variant fails with a [TypeError]; the
    variants built on [defaultVersion] fail with the version-not-found error
    that names the specifier. *)
Theorem version_without_pinned_version :
  version (new Npm "npm:express") = Normal VUndefined /\
  version (new Jsr "jsr:@scope/pkg") = Throw TypeError /\
  version (new Unpkg "https://unpkg.com/foo")
  = Throw (Error "Unable to find version in https://unpkg.com/foo").
Proof. repeat split; vm_compute; reflexivity. Qed.

(** C2. [at()] of the jsDelivr and GitLab variants builds an instance of the
    GitHub raw variant, not of their own. *)
Theorem at_of_JsDelivr_and_GitlabRaw_changes_variant :
  at_ (new JsDelivr (canonical JsDelivr)) "v0.2.0"
  = Normal (new GithubRaw "https://cdn.jsdelivr.net/gh/owner/repo@v0.2.0/foo.ts") /\
  at_ (new GitlabRaw (canonical GitlabRaw)) "v0.2.0"
  = Normal (new GithubRaw "https://gitlab.com/owner/repo/-/raw/v0.2.0/foo.ts").
Proof. split; vm_compute; reflexivity. Qed.

(** X2. Every variant other than the jsDelivr and GitLab ones builds, with
    [at()], an instance of its own class. *)
Lemma at_keeps_variant (u u' : RegistryUrl) (v : string) :
  ctor u <> JsDelivr -> ctor u <> GitlabRaw ->
  at_ u v = Normal u' -> ctor u' = ctor u.
Proof.
  intros HJ HG. unfold at_.
  destruct (ctor u) eqn:E; try congruence; unfold bind;
    repeat match goal with
           | |- context [match ?x with _ => _ end] => destruct x; simpl
           end;
    intros H; inversion H; reflexivity.
Qed.

(** C1. For the jsDelivr and GitLab variants, [at(v).version()] is not [v]:
    the instance [at] returns reads the version as the GitHub raw variant
    does, from the sixth segment. *)
Theorem at_then_version_of_JsDelivr_and_GitlabRaw :
  bind (at_ (new JsDelivr (canonical JsDelivr)) "0.2.0") version
  = Normal (VString "repo@0.2.0") /\
  bind (at_ (new GitlabRaw (canonical GitlabRaw)) "0.2.0") version
  = Normal (VString "-").
Proof. split; vm_compute; reflexivity. Qed.

(** X3. The sixteen variants whose [at] builds an instance of their own
    class: on the canonical specifier of the dialect, [at(v).version()] is [v]
    for every valid version [v]. *)
Lemma at_then_version_canonical (R : RegistryCtor) (v : string) :
  R <> JsDelivr -> R <> GitlabRaw ->
  valid_version v = true ->
  bind (at_ (new R (canonical R)) v) version = Normal (VString v).
Proof.
  intros HJ HG Hv.
  destruct (valid_version_facts v Hv) as (Hne & Hns & Hnd & Hna & Hnsc).
  destruct R; try congruence.
  - apply (at_then_version_default DenoLand "https://deno.land/std" "0.1.0" "foo.ts");
      (reflexivity || exact Hv).
  - unfold at_. cbn [ctor url].
    replace (match_ jsr_parse_re 3 (canonical Jsr))
      with (Some [Some "jsr:@scope/pkg@1.0.0/mod.ts"; Some "@scope/pkg";
                  Some "1.0.0"; Some "/mod.ts"]) by (vm_compute; reflexivity).
    cbn [bind]. unfold version. cbn [ctor url].
    destruct (parsed_version_scoped jsr_parse_re "jsr:" true "scope" "pkg" v "mod.ts"
                jsr_parse_prefix) as (m & Hm & H2);
      [split; [discriminate|reflexivity]..|split; [exact Hne|exact Hns]|reflexivity|].
    change (match_ jsr_parse_re 3 _) with
      (match_ jsr_parse_re 3
         ("jsr:" +:+ String "@" ("scope" +:+ String "/"
                      ("pkg" +:+ String "@" (v +:+ String "/" "mod.ts"))))).
    rewrite Hm, H2. change (mjoin (Some (Some v))) with (Some v).
    cbv beta iota. rewrite (startsWith_caret v Hv). reflexivity.
  - unfold at_. cbn [ctor url].
    replace (match_ npm_parse_re 3 (canonical Npm))
      with (Some [Some "npm:@scope/pkg@1.0.0/mod.js"; Some "@scope/pkg";
                  Some "1.0.0"; Some "/mod.js"]) by (vm_compute; reflexivity).
    cbn [bind]. unfold version. cbn [ctor url].
    destruct (parsed_version_scoped npm_parse_re "npm:" false "scope" "pkg" v "mod.js"
                npm_parse_prefix) as (m & Hm & H2);
      [split; [discriminate|reflexivity]..|split; [exact Hne|exact Hns]|reflexivity|].
    change (match_ npm_parse_re 3 _) with
      (match_ npm_parse_re 3
         ("npm:" +:+ String "@" ("scope" +:+ String "/"
                      ("pkg" +:+ String "@" (v +:+ String "/" "mod.js"))))).
    rewrite Hm, H2. reflexivity.
  - eapply (at_then_version_scoped UnpkgScope);
      [reflexivity|vm_compute; reflexivity|exact Hnsc|exact Hna].
  - apply (at_then_version_default Unpkg "https://unpkg.com/foo" "0.1.0" "foo.ts");
      (reflexivity || exact Hv).
  - apply (at_then_version_default Jspm "https://dev.jspm.io/foo" "0.1.0" "foo.ts");
      (reflexivity || exact Hv).
  - apply (at_then_version_default Denopkg "https://denopkg.com/owner/repo" "0.1.0"
             "foo.ts"); (reflexivity || exact Hv).
  - apply (at_then_version_default PaxDenoDev "https://pax.deno.dev/owner/repo" "0.1.0"
             "foo.ts"); (reflexivity || exact Hv).
  - eapply (at_then_version_scoped PikaScope);
      [reflexivity|vm_compute; reflexivity|exact Hnsc|exact Hna].
  - apply (at_then_version_default Pika "https://cdn.pika.dev/foo" "0.1.0" "foo.ts");
      (reflexivity || exact Hv).
  - eapply (at_then_version_scoped SkypackScope);
      [reflexivity|vm_compute; reflexivity|exact Hnsc|exact Hna].
  - apply (at_then_version_default Skypack "https://cdn.skypack.dev/foo" "0.1.0"
             "foo.ts"); (reflexivity || exact Hv).
  - eapply (at_then_version_scoped EsmShScope);
      [reflexivity|vm_compute; reflexivity|exact Hnsc|exact Hna].
  - apply (at_then_version_default EsmSh "https://esm.sh/foo" "0.1.0" "foo.ts");
      (reflexivity || exact Hv).
  - apply at_then_version_GithubRaw. exact Hnsc.
  - apply (at_then_version_default NestLand "https://x.nest.land/foo" "0.1.0" "foo.ts");
      (reflexivity || exact Hv).
Qed.

(* --------------------------------------------------------------------- *)
(** *** [lookup] *)

Section Lookup.
Variable url : string.
Let matches (R : RegistryCtor) : bool := test (regexp R) url.

Lemma lookup_find (rs : list RegistryCtor) :
  lookup url rs = (fun R => new R url) <$> List.find matches rs.
Proof.
  induction rs as [|R rs IH]; simpl; [reflexivity|].
  fold (matches R). destruct (matches R); [reflexivity|exact IH].
Qed.

Lemma lookup_none (rs : list RegistryCtor) :
  lookup url rs = None <-> Forall (fun R => matches R = false) rs.
Proof.
  induction rs as [|R rs IH]; simpl.
  - split; [constructor|reflexivity].
  - fold (matches R). destruct (matches R) eqn:E.
    + split; [discriminate|]. intros H. inversion H; subst. congruence.
    + rewrite IH. split; [intros H; constructor; assumption|].
      intros H. inversion H; subst. assumption.
Qed.

Lemma find_not_later (S U : RegistryCtor) (rs : list RegistryCtor) :
  S ∈ before U rs -> matches S = true -> List.find matches rs <> Some U.
Proof.
  induction rs as [|R rs IH]; simpl; intros Hin HS.
  - inversion Hin.
  - case_bool_decide as E.
    + inversion Hin.
    + destruct (matches R) eqn:HR.
      * congruence.
      * apply IH; [|exact HS].
        apply elem_of_cons in Hin as [->|Hin]; [congruence|exact Hin].
Qed.

Lemma find_first (S : RegistryCtor) (rs : list RegistryCtor) :
  S ∈ rs -> matches S = true ->
  Forall (fun R => matches R = false) (before S rs) ->
  List.find matches rs = Some S.
Proof.
  induction rs as [|R rs IH]; simpl; intros Hin HS Hb.
  - inversion Hin.
  - case_bool_decide as E.
    + subst R. rewrite HS. reflexivity.
    + inversion Hb as [|? ? HR Hb']; subst. rewrite HR.
      apply IH; [|exact HS|exact Hb'].
      apply elem_of_cons in Hin as [->|Hin]; [congruence|exact Hin].
Qed.
End Lookup.

(** C5. [lookup] returns the instance of the first class of the list whose
    pattern accepts the specifier, and nothing when none does. In the default
    list every scoped variant comes before its unscoped counterpart, so a
    specifier that both patterns accept is never classified as the unscoped
    one; it is classified as the scoped one when no class placed earlier in the
    list accepts it. *)
Theorem lookup_first_match_scoped_before_unscoped :
  (forall url rs,
      lookup url rs
      = (fun R => new R url) <$> List.find (fun R => test (regexp R) url) rs) /\
  (forall url rs,
      lookup url rs = None <-> Forall (fun R => test (regexp R) url = false) rs) /\
  (forall S U, (S, U) ∈ scoped_pairs -> S ∈ before U REGISTRIES) /\
  (forall S U url,
      (S, U) ∈ scoped_pairs ->
      test (regexp S) url = true -> test (regexp U) url = true ->
      lookup url REGISTRIES <> Some (new U url) /\
      (Forall (fun R => test (regexp R) url = false) (before S REGISTRIES) ->
       lookup url REGISTRIES = Some (new S url))).
Proof.
  assert (Hall : Forall (fun p => p.1 ∈ before p.2 REGISTRIES /\ p.1 ∈ REGISTRIES)
                        scoped_pairs).
  { unfold scoped_pairs. repeat constructor; simpl; set_solver. }
  rewrite Forall_forall in Hall.
  split; [exact lookup_find|]. split; [exact lookup_none|].
  split; [intros S U H; exact (proj1 (Hall _ H))|].
  intros S U url Hp HS HU. rewrite lookup_find.
  destruct (Hall _ Hp) as [Hord Hin]. simpl in Hord, Hin. split.
  - intros H. destruct (List.find _ REGISTRIES) as [R|] eqn:E; [|discriminate].
    simpl in H. inversion H; subst R.
    revert E. apply (find_not_later url S U); [exact Hord|exact HS].
  - intros Hb. rewrite (find_first url S); [reflexivity|exact Hin|exact HS|exact Hb].
Qed.

Lemma lookup_first_match_scoped_before_unscoped_witness :
  lookup (canonical EsmShScope) REGISTRIES <> Some (new EsmSh (canonical EsmShScope)) /\
  lookup (canonical EsmShScope) REGISTRIES = Some (new EsmShScope (canonical EsmShScope)).
Proof.
  destruct lookup_first_match_scoped_before_unscoped as (_ & _ & _ & H).
  destruct (H EsmShScope EsmSh (canonical EsmShScope)) as [H1 H2].
  - unfold scoped_pairs. do 3 apply list_elem_of_further. apply list_elem_of_here.
  - vm_compute. reflexivity.
  - vm_compute. reflexivity.
  - split; [exact H1|]. apply H2. vm_compute.
    repeat constructor.
Defined.

(** A specifier that the scoped and the unscoped unpkg patterns accept and
    that [lookup] gives to the [jsr:] variant, first in the list. *)
Lemma lookup_scoped_specifier_taken_by_jsr :
  let url := "https://unpkg.com/@jsr:ab/pkg@1.0.0" in
  test (regexp UnpkgScope) url = true /\
  test (regexp Unpkg) url = true /\
  lookup url REGISTRIES = Some (new Jsr url) /\
  lookup url REGISTRIES <> Some (new UnpkgScope url).
Proof. vm_compute. repeat split; congruence. Qed.

(* --------------------------------------------------------------------- *)
(** *** Running the monad *)

Lemma abind_normal {St A B} (m : M St A) (f : A -> M St B) (w w' : St) (a : A) :
  m w = (Normal a, w') -> abind m f w = f a w'.
Proof. intros H. unfold abind. rewrite H. reflexivity. Qed.

Lemma abind_throw {St A B} (m : M St A) (f : A -> M St B) (w w' : St) (e : exn) :
  m w = (Throw e, w') -> abind m f w = (Throw e, w').
Proof. intros H. unfold abind. rewrite H. reflexivity. Qed.

Lemma abind_inv {St A B} (m : M St A) (f : A -> M St B) (w w1 : St) (b : B) :
  abind m f w = (Normal b, w1) ->
  exists a w', m w = (Normal a, w') /\ f a w' = (Normal b, w1).
Proof.
  unfold abind. destruct (m w) as [[a|e] w'] eqn:E; intros H.
  - exists a, w'. split; [reflexivity|exact H].
  - discriminate.
Qed.

Lemma logging_errors_inv {A} (l : string) (m : Async A) (w w1 : World) (a : A) :
  logging_errors l m w = (Normal a, w1) -> m w = (Normal a, w1).
Proof.
  unfold logging_errors. destruct (m w) as [[a'|e] w'] eqn:E; intros H.
  - exact H.
  - discriminate.
Qed.

(* --------------------------------------------------------------------- *)
(** *** The nest.land upload log *)

(** C10. When the upload log has no [packageUploadNames], [all()] of the
    nest.land variant resolves to the empty list, after one request, and the
    cache is left as it was. *)
Theorem nestland_without_upload_names
    (net : string -> option body) (sort_desc : list string -> completion (list string))
    (u : RegistryUrl) (p3 : string) (w : World) :
  ctor u = NestLand ->
  split "/" (url u) !! 3 = Some p3 ->
  let repo := default "" (split "@" p3 !! 0) in
  let address := "https://x.nest.land/api/package/" +:+ repo in
  NL_CACHE w !! repo = None ->
  forall b, net address = Some b -> without_upload_names b = true ->
  let result := all net sort_desc u w in
  result.1 = Normal [] /\
  NL_CACHE result.2 = NL_CACHE w /\
  requests result.2 = address :: requests w.
Proof.
  intros Hc Hp repo address Hmiss b Hnet Hb result.
  assert (H : result = (Normal [], log_request address w)).
  { subst result. unfold all. rewrite Hc, Hp. fold repo.
    unfold nestlandReleases, abind, cache_get. simpl.
    rewrite Hmiss. fold address. unfold fetch. rewrite Hnet.
    destruct b as [t|vs|[names|]]; try discriminate Hb; reflexivity. }
  rewrite H. repeat split.
Qed.

Lemma nestland_without_upload_names_witness :
  let result := all nestland_no_names no_sort (new NestLand (canonical NestLand)) start in
  result.1 = Normal [] /\
  NL_CACHE result.2 = NL_CACHE start /\
  requests result.2 = ["https://x.nest.land/api/package/foo"].
Proof.
  apply (nestland_without_upload_names nestland_no_names no_sort
           (new NestLand (canonical NestLand)) "foo@0.1.0" start
           eq_refl eq_refl eq_refl (NestLandResponse None) eq_refl eq_refl).
Defined.

(* --------------------------------------------------------------------- *)
(** *** The order of the lists [all()] resolves to *)

(** An index that lists the older version first: [all()] resolves to the
    list as it is, the older version at index 0. *)
Lemma DenoLand_all_keeps_document_order :
  (all deno_oldest_first no_sort (new DenoLand (canonical DenoLand)) start).1
  = Normal [VString "1.0.0"; VString "2.0.0"] /\
  (all deno_oldest_first no_sort (new DenoLand (canonical DenoLand)) start).1
  <> Normal (rev [VString "1.0.0"; VString "2.0.0"]).
Proof. vm_compute. split; [reflexivity|discriminate]. Qed.

(* --------------------------------------------------------------------- *)
(** *** The upgrade engine *)

(** With the versions of the package in the cache, [pkgInfo] needs no
    request: the latest version is the first of the list, the current one is
    read from the specifier. *)
Lemma pkgInfo_jsr_scope_pkg
    (net : string -> option body) (sort_desc : list string -> completion (list string))
    (allowPre : bool) (w : World) :
  JSR_CACHE w !! "@scope/pkg" = Some [VString "1.2.0"; VString "1.0.0"] ->
  pkgInfo net sort_desc "jsr:@scope/pkg@^1.0.0" allowPre w
  = (Normal (Some {| info_url := new Jsr "jsr:@scope/pkg@^1.0.0";
                     latest := VString "1.2.0"; current := VString "1.0.0" |}), w).
Proof.
  intros Hc. unfold pkgInfo.
  replace (lookup "jsr:@scope/pkg@^1.0.0" REGISTRIES)
    with (Some (new Jsr "jsr:@scope/pkg@^1.0.0")) by (vm_compute; reflexivity).
  unfold all, Jsr_all. simpl ctor.
  replace (parsed_name jsr_parse_re (new Jsr "jsr:@scope/pkg@^1.0.0"))
    with (Normal (VString "@scope/pkg")) by (vm_compute; reflexivity).
  replace (version (new Jsr "jsr:@scope/pkg@^1.0.0"))
    with (Normal (VString "1.0.0")) by (vm_compute; reflexivity).
  unfold abind, lift, cache_get. simpl. rewrite Hc. reflexivity.
Qed.

Section EngineFacts.
Variable pkgInfo : string -> bool -> Async (option Info).
Variable canParse : string -> bool.
Variable lessThan : string -> string -> completion bool.
Variable args : list string.
Variable allow_pre : bool.
Variable settle_order : list (string * string) -> list (string * string).

Let upgrade_one := upgrade_one pkgInfo canParse args allow_pre.
Let join_all := join_all pkgInfo canParse args allow_pre.
Let run_upgradeDeps :=
  run_upgradeDeps pkgInfo canParse lessThan args allow_pre settle_order.

(** A callback whose [pkgInfo] rejects throws, and touches nothing but the
    process state its fetch went through. *)
Lemma upgrade_one_throws (logs : bool) (pkg specifier : string) (r : Run)
    (e : exn) (w' : World) :
  pkgInfo specifier allow_pre (world r) = (Throw e, w') ->
  upgrade_one logs pkg specifier r = (Throw e, with_world r w').
Proof.
  intros H. unfold upgrade_one, Upgrade.upgrade_one, after_info, abind, in_world.
  rewrite H. reflexivity.
Qed.

(** A callback that finds a newer version rewrites its own entry. *)
Lemma upgrade_one_rewrites (logs : bool) (pkg specifier : string) (r : Run)
    (info : Info) (w' : World) (u' : RegistryUrl) :
  pkgInfo specifier allow_pre (world r) = (Normal (Some info), w') ->
  truthy (latest info) = true ->
  canParse_value canParse (current info) || includes args "force" = true ->
  current info <> latest info ->
  at_ (info_url info) (show_value (latest info)) = Normal u' ->
  exists l,
    upgrade_one logs pkg specifier r
    = (Normal tt,
       {| imports := set (imports r) pkg (url u'); upgradeFound := true;
          lines := (if logs then [l] else []) ++ lines r; world := w' |}).
Proof.
  intros H Ht Hp Hne Hat. unfold upgrade_one, Upgrade.upgrade_one, after_info, abind, in_world.
  rewrite H. cbv beta iota. rewrite Ht. simpl negb. cbv iota.
  replace (negb (canParse_value canParse (current info)) && negb (includes args "force"))
    with false
    by (destruct (canParse_value canParse (current info)), (includes args "force");
        simpl in *; congruence).
  rewrite (bool_decide_eq_false_2 _ Hne). simpl negb. cbv iota.
  unfold logger, logged, mark_found, lift, assign. rewrite Hat.
  eexists. destruct logs; simpl; reflexivity.
Qed.

Lemma join_all_app (logs : bool) (l1 l2 : list (string * string)) (r : Run) :
  join_all logs (l1 ++ l2) r
  = match join_all logs l1 r with
    | (Normal _, r1) => join_all logs l2 r1
    | (Throw e, r1) => (Throw e, r1)
    end.
Proof.
  revert r. induction l1 as [|[pkg specifier] l1 IH]; intros r; simpl.
  - reflexivity.
  - unfold abind. fold (upgrade_one logs pkg specifier r).
    destruct (upgrade_one logs pkg specifier r) as [[[]|e] r'].
    + apply IH.
    + reflexivity.
Qed.

(** The run once the join has settled. *)
Lemma run_upgradeDeps_joined (importMap : DependencyMap) (logs : bool) (deps : regex)
    (w : World) :
  let r0 := logged logs (Plain "looking up latest versions")
              {| imports := importMap; upgradeFound := false; lines := []; world := w |} in
  run_upgradeDeps importMap logs deps w
  = match join_all logs (settle_order (selected deps importMap)) r0 with
    | (Normal _, r1) =>
        (Normal (upgradeFound r1),
         if upgradeFound r1 then r1
         else logged logs
                (Plain "dependencies are on the most recent releases of your dependencies!")
                r1)
    | (Throw e, r1) => (Throw e, r1)
    end.
Proof.
  intros r0. unfold run_upgradeDeps, Upgrade.run_upgradeDeps, upgradeDeps, after_join.
  unfold abind at 1. unfold logger at 1. fold r0. unfold abind at 1.
  replace (imports r0) with importMap by (unfold r0, logged; destruct logs; reflexivity).
  fold (selected deps importMap). unfold abind at 1.
  fold (join_all logs (settle_order (selected deps importMap)) r0).
  destruct (join_all logs (settle_order (selected deps importMap)) r0) as [[[]|e] r1].
  - unfold requiredMinVersion, min_version_pass, abind, ret, logger, logged.
    destruct r1 as [i [] l w1]; simpl; reflexivity.
  - reflexivity.
Qed.
End EngineFacts.

(** A run in which one entry is rewritten and the fetch of the next one
    fails: the run fails and the rewrite of the first entry is in the map. *)
Lemma upgradeDeps_partial_rewrite_on_failure :
  let importMap := [("@deco/a", "jsr:@deco/a@1.0.0"); ("@deco/b", "jsr:@deco/b@1.0.0")] in
  let result :=
    run_upgradeDeps (pkgInfo offline no_sort) canParse3 no_lessThan [] false id
      importMap true PACKAGES_TO_CHECK (jsr_known "@deco/a" ["1.2.0"; "1.0.0"]) in
  result.1 = Throw TypeError /\
  get (imports result.2) "@deco/a" = Some "jsr:@deco/a@1.2.0" /\
  imports result.2 <> importMap.
Proof. vm_compute. repeat split; congruence. Qed.

(** C9. On the map with the one entry [@scope/pkg] at
    [jsr:@scope/pkg@^1.0.0], with an inclusion pattern [@scope/.*], when
    [pkgInfo] resolves to the [jsr:] instance of the specifier, the latest
    version 1.2.0 and the current version 1.0.0 that [version()] reads, the
    engine reports a change and rewrites the entry to [jsr:@scope/pkg@1.2.0]:
    the version segment alone is replaced, by the latest version as it was
    fetched, without the caret. *)
Theorem upgradeDeps_jsr_example
    (pkgInfo : string -> bool -> Async (option Info))
    (canParse : string -> bool) (lessThan : string -> string -> completion bool)
    (args : list string) (allow_pre logs : bool)
    (settle_order : list (string * string) -> list (string * string)) (w w' : World) :
  (forall l, Permutation (settle_order l) l) ->
  canParse "1.0.0" = true ->
  pkgInfo "jsr:@scope/pkg@^1.0.0" allow_pre w
  = (Normal (Some {| info_url := new Jsr "jsr:@scope/pkg@^1.0.0";
                     latest := VString "1.2.0"; current := VString "1.0.0" |}), w') ->
  let result :=
    run_upgradeDeps pkgInfo canParse lessThan args allow_pre settle_order
      [("@scope/pkg", "jsr:@scope/pkg@^1.0.0")] logs
      (cat [lit "@scope/"; Star true Any]) w in
  result.1 = Normal true /\
  imports result.2 = [("@scope/pkg", "jsr:@scope/pkg@1.2.0")] /\
  world result.2 = w'.
Proof.
  intros Hperm Hparse Hinfo result. subst result.
  rewrite run_upgradeDeps_joined. cbv zeta.
  replace (selected _ [("@scope/pkg", "jsr:@scope/pkg@^1.0.0")])
    with [("@scope/pkg", "jsr:@scope/pkg@^1.0.0")] by (vm_compute; reflexivity).
  rewrite (Permutation_length_1_inv (Permutation_sym (Hperm _))).
  simpl join_all. unfold abind.
  destruct (upgrade_one_rewrites pkgInfo canParse args allow_pre logs
              "@scope/pkg" "jsr:@scope/pkg@^1.0.0"
              (logged logs (Plain "looking up latest versions")
                 {| imports := [("@scope/pkg", "jsr:@scope/pkg@^1.0.0")];
                    upgradeFound := false; lines := []; world := w |})
              {| info_url := new Jsr "jsr:@scope/pkg@^1.0.0";
                 latest := VString "1.2.0"; current := VString "1.0.0" |}
              w' (new Jsr "jsr:@scope/pkg@1.2.0"))
    as [l Hl].
  - destruct logs; exact Hinfo.
  - reflexivity.
  - simpl. rewrite Hparse. reflexivity.
  - discriminate.
  - vm_compute. reflexivity.
  - rewrite Hl. simpl. destruct logs; simpl; auto.
Qed.

Lemma upgradeDeps_jsr_example_witness :
  let result :=
    run_upgradeDeps (pkgInfo offline no_sort) canParse3 no_lessThan [] false id
      [("@scope/pkg", "jsr:@scope/pkg@^1.0.0")] true
      (cat [lit "@scope/"; Star true Any]) (jsr_known "@scope/pkg" ["1.2.0"; "1.0.0"]) in
  result.1 = Normal true /\
  imports result.2 = [("@scope/pkg", "jsr:@scope/pkg@1.2.0")] /\
  world result.2 = jsr_known "@scope/pkg" ["1.2.0"; "1.0.0"].
Proof.
  apply (upgradeDeps_jsr_example (pkgInfo offline no_sort) canParse3 no_lessThan []
           false true id).
  - intros l. reflexivity.
  - reflexivity.
  - apply pkgInfo_jsr_scope_pkg. reflexivity.
Defined.

(** The specifier the run leaves is not the one with the caret. *)
Lemma upgradeDeps_jsr_example_drops_caret :
  let result :=
    run_upgradeDeps (pkgInfo offline no_sort) canParse3 no_lessThan [] false id
      [("@scope/pkg", "jsr:@scope/pkg@^1.0.0")] true
      (cat [lit "@scope/"; Star true Any]) (jsr_known "@scope/pkg" ["1.2.0"; "1.0.0"]) in
  result.1 = Normal true /\
  get (imports result.2) "@scope/pkg" = Some "jsr:@scope/pkg@1.2.0" /\
  get (imports result.2) "@scope/pkg" <> Some "jsr:@scope/pkg@^1.2.0".
Proof. vm_compute. repeat split; congruence. Qed.

(* --------------------------------------------------------------------- *)
(** *** The caches *)

Section CacheFacts.
Variable net : string -> option body.
Variable sort_desc : list string -> completion (list string).

Lemma get_set_cache (h : handle) (k : string) (vs : list value) (w : World) :
  h ∈ [GR; DL; JSR; NPM; GL; NL] ->
  get_cache h (set_cache h (<[k := vs]>) w) !! k = Some vs.
Proof.
  intros Hh. repeat (apply elem_of_cons in Hh as [->|Hh]; [apply lookup_insert_eq|]).
  inversion Hh.
Qed.

(** The shape shared by the five caching fetchers. *)
Lemma read_through_intro (h : handle) (k : string) (miss : Async (list value)) :
  h ∈ [GR; DL; JSR; NPM; GL; NL] ->
  (forall w w1 vs, miss w = (Normal vs, w1) ->
     exists w0, w1 = set_cache h (<[k := vs]>) w0) ->
  read_through h k
    (hit <- cache_get h k ;;
     match hit with Some versions => ret versions | None => miss end).
Proof.
  intros Hh Hmiss. split.
  - intros w vs Hc. unfold abind, cache_get. rewrite Hc. reflexivity.
  - intros w w1 vs H. unfold abind, cache_get in H.
    destruct (get_cache h w !! k) as [vs'|] eqn:Hc.
    + inversion H; subst. exact Hc.
    + destruct (Hmiss _ _ _ H) as [w0 ->]. apply get_set_cache, Hh.
Qed.

Lemma store_then_return (h : handle) (k : string) (vs vs' : list value) (w w1 : World) :
  (cache_set h k vs ;;; ret vs) w = (Normal vs', w1) ->
  w1 = set_cache h (<[k := vs']>) w.
Proof. unfold abind, cache_set, ret. intros H. inversion H; subst. reflexivity. Qed.

Lemma githubReleases_read_through (owner repo : string) :
  read_through GR (owner +:+ "/" +:+ repo) (githubReleases net owner repo GR).
Proof.
  unfold githubReleases. apply read_through_intro; [set_solver|].
  intros w w1 vs H.
  apply abind_inv in H as (v0 & w' & _ & H).
  apply abind_inv in H as (v1 & w'' & _ & H).
  exists w''. exact (store_then_return _ _ _ _ _ _ H).
Qed.

Lemma gitlabReleases_read_through (owner repo : string) :
  read_through GL (owner +:+ "/" +:+ repo) (gitlabReleases net owner repo GL).
Proof.
  unfold gitlabReleases. apply read_through_intro; [set_solver|].
  intros w w1 vs H.
  apply abind_inv in H as (v0 & w' & _ & H).
  apply abind_inv in H as (v1 & w'' & _ & H).
  exists w''. exact (store_then_return _ _ _ _ _ _ H).
Qed.

Lemma DenoLand_all_read_through (u : RegistryUrl) (name : value) :
  DenoLand_name u = Normal name ->
  read_through DL (show_value name) (DenoLand_all net u).
Proof.
  intros Hn. unfold DenoLand_all. rewrite Hn.
  change (abind (lift (Normal name)) ?f) with (f name). cbv beta zeta.
  apply read_through_intro; [set_solver|].
  intros w w1 vs H. apply logging_errors_inv in H.
  apply abind_inv in H as (b & w' & _ & H).
  apply abind_inv in H as ([v|] & w'' & _ & H); [|discriminate].
  exists w''. exact (store_then_return _ _ _ _ _ _ H).
Qed.

Lemma Npm_all_read_through (u : RegistryUrl) (name : value) :
  parsed_name npm_parse_re u = Normal name ->
  read_through NPM (show_value name) (Npm_all net u).
Proof.
  intros Hn. unfold Npm_all. rewrite Hn.
  change (abind (lift (Normal name)) ?f) with (f name). cbv beta zeta.
  apply read_through_intro; [set_solver|].
  intros w w1 vs H. apply logging_errors_inv in H.
  apply abind_inv in H as (b & w' & _ & H).
  apply abind_inv in H as ([v|] & w'' & _ & H); [|discriminate].
  exists w''. exact (store_then_return _ _ _ _ _ _ H).
Qed.

Lemma Jsr_all_read_through (u : RegistryUrl) (name : value) :
  parsed_name jsr_parse_re u = Normal name ->
  read_through JSR (show_value name) (Jsr_all net sort_desc u).
Proof.
  intros Hn. unfold Jsr_all. rewrite Hn.
  change (abind (lift (Normal name)) ?f) with (f name). cbv beta zeta.
  apply read_through_intro; [set_solver|].
  intros w w1 vs H. apply logging_errors_inv in H.
  apply abind_inv in H as (b & w' & _ & H).
  apply abind_inv in H as ([v|] & w'' & _ & H); [|discriminate].
  apply abind_inv in H as (sorted & w3 & Hs & H).
  unfold lift in Hs. inversion Hs; subst.
  exists w3. exact (store_then_return _ _ _ _ _ _ H).
Qed.

(** [all()] of a caching dialect reads and writes the cache of its family
    under its package key. *)
Lemma all_read_through (u : RegistryUrl) (f : family) (k : string) :
  package_key u = Some (f, k) ->
  read_through (family_cache f) k (all net sort_desc u).
Proof.
  unfold package_key, all. destruct (ctor u) eqn:Hc; try discriminate.
  - destruct (DenoLand_name u) as [name|] eqn:Hn; [|discriminate].
    intros H; inversion H; subst. apply DenoLand_all_read_through, Hn.
  - destruct (parsed_name jsr_parse_re u) as [name|] eqn:Hn; [|discriminate].
    intros H; inversion H; subst. apply Jsr_all_read_through, Hn.
  - destruct (parsed_name npm_parse_re u) as [name|] eqn:Hn; [|discriminate].
    intros H; inversion H; subst. apply Npm_all_read_through, Hn.
  - destruct (defaultName u) as [repo|]; [|discriminate].
    intros H; inversion H; subst. apply githubReleases_read_through.
  - destruct (defaultName u) as [repo|]; [|discriminate].
    intros H; inversion H; subst. apply githubReleases_read_through.
  - intros H; inversion H; subst. apply githubReleases_read_through.
  - destruct (JsDelivr_parts u) as [[[[parts user] repo] ver]|]; [|discriminate].
    intros H; inversion H; subst. apply githubReleases_read_through.
  - intros H; inversion H; subst. apply gitlabReleases_read_through.
Qed.
End CacheFacts.

(** C4. For the dialects that write a cache (deno.land, jsr, npm, the
    GitHub-backed ones and GitLab), once [all()] has resolved, a second
    [all()] on a specifier with the same package key resolves to the same
    list and leaves the process as it is: no request is sent, whatever the
    network would answer. *)
Theorem all_second_call_served_from_cache
    (net net' : string -> option body)
    (sort_desc sort_desc' : list string -> completion (list string))
    (u u' : RegistryUrl) (f : family) (k : string)
    (vs : list value) (w w1 : World) :
  package_key u = Some (f, k) ->
  package_key u' = Some (f, k) ->
  all net sort_desc u w = (Normal vs, w1) ->
  all net' sort_desc' u' w1 = (Normal vs, w1) /\
  requests (all net' sort_desc' u' w1).2 = requests w1.
Proof.
  intros Hk Hk' H.
  destruct (all_read_through net sort_desc u f k Hk) as [_ Hfill].
  destruct (all_read_through net' sort_desc' u' f k Hk') as [Hhit _].
  rewrite (Hhit w1 vs (Hfill w w1 vs H)). split; reflexivity.
Qed.

Lemma all_second_call_served_from_cache_witness :
  let u := new DenoLand (canonical DenoLand) in
  let u' := new DenoLand "https://deno.land/std@0.2.0/bar.ts" in
  let first := all deno_oldest_first no_sort u start in
  all offline no_sort u' first.2 = (Normal [VString "1.0.0"; VString "2.0.0"], first.2) /\
  requests (all offline no_sort u' first.2).2
  = ["https://cdn.deno.land/std/meta/versions.json"].
Proof.
  cbv zeta.
  apply (all_second_call_served_from_cache deno_oldest_first offline no_sort no_sort
           (new DenoLand (canonical DenoLand))
           (new DenoLand "https://deno.land/std@0.2.0/bar.ts") FDenoLand "std"
           [VString "1.0.0"; VString "2.0.0"] start).
  - reflexivity.
  - reflexivity.
  - reflexivity.
Defined.

(** The unpkg page is fetched by every call: two calls, two requests. *)
Lemma unpkg_all_twice_fetches_twice :
  let u := new Unpkg (canonical Unpkg) in
  let first := all unpkg_net no_sort u start in
  let second := all unpkg_net no_sort u first.2 in
  first.1 = Normal [VString "0.3.0"; VString "0.2.0"; VString "0.1.0"] /\
  requests first.2 = ["https://unpkg.com/browse/foo/"] /\
  second.1 = first.1 /\
  requests second.2 = ["https://unpkg.com/browse/foo/"; "https://unpkg.com/browse/foo/"].
Proof. vm_compute. repeat split; reflexivity. Qed.

(* --------------------------------------------------------------------- *)
(** *** The paginated fetchers *)

Section Pagination.
Variable net : string -> option body.
Variables owner repo : string.

Lemma githubDownloadReleases_page (lastVersion : value) (t : string) (w : World) :
  net (github_url owner repo lastVersion) = Some (Text t) ->
  githubDownloadReleases net owner repo lastVersion w
  = (Normal (matchAll1 github_id_re t), log_request (github_url owner repo lastVersion) w).
Proof.
  intros H. unfold githubDownloadReleases, abind, fetch. rewrite H. reflexivity.
Qed.

Lemma gitlabDownloadReleases_page (page : nat) (t : string) (w : World) :
  net (gitlab_url owner repo page) = Some (Text t) ->
  gitlabDownloadReleases net owner repo page w
  = (Normal (matchAll1 gitlab_id_re t), log_request (gitlab_url owner repo page) w).
Proof.
  intros H. unfold gitlabDownloadReleases, abind, fetch. rewrite H. reflexivity.
Qed.

(** One turn of the GitHub loop: the last entry known is the cursor. *)
Lemma github_loop_step (fuel i : nat) (lv : value) (vs : list value) (t : string)
    (w : World) :
  lv <> last_value vs -> i < 5 ->
  net (github_url owner repo (last_value vs)) = Some (Text t) ->
  while (S fuel) github_continue (github_next net owner repo) (i, lv, vs) w
  = while fuel github_continue (github_next net owner repo)
      (S i, last_value vs, vs ++ matchAll1 github_id_re t)
      (log_request (github_url owner repo (last_value vs)) w).
Proof.
  intros Hne Hi Hnet. cbn [while]. unfold github_continue at 1.
  rewrite (bool_decide_eq_false_2 _ Hne).
  replace (i <? 5) with true by (symmetry; apply Nat.ltb_lt; exact Hi).
  cbn [negb andb]. unfold github_next at 1, abind at 1, abind at 1.
  rewrite (githubDownloadReleases_page _ _ _ Hnet). reflexivity.
Qed.

(** The loop stops without a request when the last entry did not move, and
    when five pages were added. *)
Lemma github_loop_stop (fuel i : nat) (lv : value) (vs : list value) (w : World) :
  lv = last_value vs \/ 5 <= i ->
  while fuel github_continue (github_next net owner repo) (i, lv, vs) w
  = (Normal (i, lv, vs), w).
Proof.
  intros H.
  assert (Hc : github_continue (i, lv, vs) = false).
  { unfold github_continue. destruct H as [H|H].
    - rewrite (bool_decide_eq_true_2 _ H). reflexivity.
    - replace (i <? 5) with false by (symmetry; apply Nat.ltb_ge; exact H).
      apply andb_false_r. }
  destruct fuel; cbn [while]; rewrite Hc; reflexivity.
Qed.

Lemma gitlab_loop_step (fuel i : nat) (lv : value) (vs : list value) (t : string)
    (w : World) :
  lv <> last_value vs -> i <= 3 ->
  net (gitlab_url owner repo (S i)) = Some (Text t) ->
  while (S fuel) gitlab_continue (gitlab_next net owner repo) (i, lv, vs) w
  = while fuel gitlab_continue (gitlab_next net owner repo)
      (S i, last_value vs, vs ++ matchAll1 gitlab_id_re t)
      (log_request (gitlab_url owner repo (S i)) w).
Proof.
  intros Hne Hi Hnet. cbn [while]. unfold gitlab_continue at 1.
  rewrite (bool_decide_eq_false_2 _ Hne).
  replace (i <=? 3) with true by (symmetry; apply Nat.leb_le; exact Hi).
  cbn [negb andb]. unfold gitlab_next at 1, abind at 1, abind at 1.
  rewrite (gitlabDownloadReleases_page _ _ _ Hnet). reflexivity.
Qed.

Lemma gitlab_loop_stop (fuel i : nat) (lv : value) (vs : list value) (w : World) :
  lv = last_value vs \/ 4 <= i ->
  while fuel gitlab_continue (gitlab_next net owner repo) (i, lv, vs) w
  = (Normal (i, lv, vs), w).
Proof.
  intros H.
  assert (Hc : gitlab_continue (i, lv, vs) = false).
  { unfold gitlab_continue. destruct H as [H|H].
    - rewrite (bool_decide_eq_true_2 _ H). reflexivity.
    - replace (i <=? 3) with false by (symmetry; apply Nat.leb_gt; exact H).
      apply andb_false_r. }
  destruct fuel; cbn [while]; rewrite Hc; reflexivity.
Qed.

(** The fuel given to the loops is never used up: each turn adds one to
    [i], and the conditions stop at 5 and at 4. *)
Lemma github_loop_within_fuel (fuel i : nat) (lv : value) (vs : list value) (w : World) :
  5 <= fuel + i ->
  (while fuel github_continue (github_next net owner repo) (i, lv, vs) w).1
  <> Throw OutOfFuel.
Proof.
  revert i lv vs w. induction fuel as [|fuel IH]; intros i lv vs w Hf.
  - rewrite github_loop_stop by (right; lia). discriminate.
  - cbn [while]. destruct (github_continue (i, lv, vs)); [|discriminate].
    unfold abind at 1, github_next at 1, abind at 1.
    unfold githubDownloadReleases, abind, fetch, text.
    destruct (net _) as [[t|v|v]|]; simpl; try discriminate.
    apply IH. lia.
Qed.

Lemma gitlab_loop_within_fuel (fuel i : nat) (lv : value) (vs : list value) (w : World) :
  4 <= fuel + i ->
  (while fuel gitlab_continue (gitlab_next net owner repo) (i, lv, vs) w).1
  <> Throw OutOfFuel.
Proof.
  revert i lv vs w. induction fuel as [|fuel IH]; intros i lv vs w Hf.
  - rewrite gitlab_loop_stop by (right; lia). discriminate.
  - cbn [while]. destruct (gitlab_continue (i, lv, vs)); [|discriminate].
    unfold abind at 1, gitlab_next at 1, abind at 1.
    unfold gitlabDownloadReleases, abind, fetch, text.
    destruct (net _) as [[t|v|v]|]; simpl; try discriminate.
    apply IH. lia.
Qed.

(** The fetchers on a cache miss, once the loop has settled. *)
Lemma githubReleases_miss (w w1 : World) (t0 : string)
    (st : nat * value * list value) :
  GR_CACHE w !! (owner +:+ "/" +:+ repo) = None ->
  net (github_url owner repo VUndefined) = Some (Text t0) ->
  length (matchAll1 github_id_re t0) = 10 ->
  while 5 github_continue (github_next net owner repo)
    (0, VUndefined, matchAll1 github_id_re t0)
    (log_request (github_url owner repo VUndefined) w) = (Normal st, w1) ->
  githubReleases net owner repo GR w
  = (Normal st.2, set_GR (<[owner +:+ "/" +:+ repo := st.2]>) w1).
Proof.
  intros Hmiss H0 Hfull Hloop. unfold githubReleases.
  unfold abind at 1, cache_get at 1. cbn [get_cache GR]. rewrite Hmiss.
  unfold abind at 1. rewrite (githubDownloadReleases_page _ _ _ H0).
  rewrite Hfull. cbn [Nat.eqb]. unfold abind at 1, abind at 1.
  rewrite Hloop. reflexivity.
Qed.

Lemma gitlabReleases_miss (w w1 : World) (t1 : string)
    (st : nat * value * list value) :
  GL_CACHE w !! (owner +:+ "/" +:+ repo) = None ->
  net (gitlab_url owner repo 1) = Some (Text t1) ->
  length (matchAll1 gitlab_id_re t1) = 20 ->
  while 4 gitlab_continue (gitlab_next net owner repo)
    (1, VUndefined, matchAll1 gitlab_id_re t1)
    (log_request (gitlab_url owner repo 1) w) = (Normal st, w1) ->
  gitlabReleases net owner repo GL w
  = (Normal st.2, set_GL (<[owner +:+ "/" +:+ repo := st.2]>) w1).
Proof.
  intros Hmiss H0 Hfull Hloop. unfold gitlabReleases.
  unfold abind at 1, cache_get at 1. cbn [get_cache GL]. rewrite Hmiss.
  unfold abind at 1. rewrite (gitlabDownloadReleases_page _ _ _ H0).
  rewrite Hfull. cbn [Nat.eqb]. unfold abind at 1, abind at 1.
  rewrite Hloop. reflexivity.
Qed.

(** X10. The GitHub loop: after a full first page, and as long as each
    page moves the last entry, five more pages are fetched, and no more. *)
Lemma githubReleases_five_more (w : World) (t0 t1 t2 t3 t4 t5 : string) :
  let page := matchAll1 github_id_re in
  let v1 := page t0 ++ page t1 in
  let v2 := v1 ++ page t2 in
  let v3 := v2 ++ page t3 in
  let v4 := v3 ++ page t4 in
  let u0 := github_url owner repo VUndefined in
  let u1 := github_url owner repo (last_value (page t0)) in
  let u2 := github_url owner repo (last_value v1) in
  let u3 := github_url owner repo (last_value v2) in
  let u4 := github_url owner repo (last_value v3) in
  let u5 := github_url owner repo (last_value v4) in
  GR_CACHE w !! (owner +:+ "/" +:+ repo) = None ->
  net u0 = Some (Text t0) -> net u1 = Some (Text t1) -> net u2 = Some (Text t2) ->
  net u3 = Some (Text t3) -> net u4 = Some (Text t4) -> net u5 = Some (Text t5) ->
  length (page t0) = 10 ->
  VUndefined <> last_value (page t0) ->
  last_value (page t0) <> last_value v1 ->
  last_value v1 <> last_value v2 ->
  last_value v2 <> last_value v3 ->
  last_value v3 <> last_value v4 ->
  let result := githubReleases net owner repo GR w in
  result.1 = Normal (v4 ++ page t5) /\
  requests result.2 = [u5; u4; u3; u2; u1; u0] ++ requests w.
Proof.
  intros page v1 v2 v3 v4 u0 u1 u2 u3 u4 u5 Hmiss H0 H1 H2 H3 H4 H5 Hfull
         P0 P1 P2 P3 P4 result.
  subst result.
  erewrite githubReleases_miss; cycle 1; [exact Hmiss|exact H0|exact Hfull| |].
  - fold page.
    rewrite (github_loop_step _ 0 _ _ _ _ P0 ltac:(lia) H1). fold page v1.
    rewrite (github_loop_step _ 1 _ _ _ _ P1 ltac:(lia) H2). fold page v2.
    rewrite (github_loop_step _ 2 _ _ _ _ P2 ltac:(lia) H3). fold page v3.
    rewrite (github_loop_step _ 3 _ _ _ _ P3 ltac:(lia) H4). fold page v4.
    rewrite (github_loop_step _ 4 _ _ _ _ P4 ltac:(lia) H5). fold page.
    rewrite github_loop_stop by (right; lia). reflexivity.
  - split; reflexivity.
Qed.

(** X11. The GitHub loop stops as soon as a fetched page leaves the last
    entry where it was: here after one more page. *)
Lemma githubReleases_stops_on_repeat (w : World) (t0 t1 : string) :
  let page := matchAll1 github_id_re in
  let u0 := github_url owner repo VUndefined in
  let u1 := github_url owner repo (last_value (page t0)) in
  GR_CACHE w !! (owner +:+ "/" +:+ repo) = None ->
  net u0 = Some (Text t0) -> net u1 = Some (Text t1) ->
  length (page t0) = 10 ->
  VUndefined <> last_value (page t0) ->
  last_value (page t0) = last_value (page t0 ++ page t1) ->
  let result := githubReleases net owner repo GR w in
  result.1 = Normal (page t0 ++ page t1) /\
  requests result.2 = [u1; u0] ++ requests w.
Proof.
  intros page u0 u1 Hmiss H0 H1 Hfull P0 Heq result. subst result.
  erewrite githubReleases_miss; cycle 1; [exact Hmiss|exact H0|exact Hfull| |].
  - fold page.
    rewrite (github_loop_step _ 0 _ _ _ _ P0 ltac:(lia) H1). fold page.
    rewrite github_loop_stop by (left; exact Heq). reflexivity.
  - split; reflexivity.
Qed.
End Pagination.

(** The fetchers always settle: the fuel of their loop is enough, whatever
    the network answers. *)
Lemma githubReleases_settles
    (net : string -> option body) (owner repo : string) (cache : handle) (w : World) :
  (githubReleases net owner repo cache w).1 <> Throw OutOfFuel.
Proof.
  unfold githubReleases, abind at 1, cache_get.
  destruct (get_cache cache w !! _); [discriminate|].
  unfold abind at 1.
  destruct (githubDownloadReleases net owner repo VUndefined w) as [[vs|e] w0] eqn:E0.
  - unfold abind at 1. destruct (length vs =? 10).
    + unfold abind at 1.
      pose proof (github_loop_within_fuel net owner repo 5 0 VUndefined vs w0
                    ltac:(lia)) as Hf.
      destruct (while 5 _ _ _ w0) as [[st|e] w1]; simpl in Hf |- *.
      * discriminate.
      * intros H. apply Hf. inversion H. reflexivity.
    + discriminate.
  - unfold githubDownloadReleases, abind, fetch, text in E0.
    destruct (net _) as [[t|v|v]|]; inversion E0; discriminate.
Qed.

Lemma gitlabReleases_settles
    (net : string -> option body) (owner repo : string) (cache : handle) (w : World) :
  (gitlabReleases net owner repo cache w).1 <> Throw OutOfFuel.
Proof.
  unfold gitlabReleases, abind at 1, cache_get.
  destruct (get_cache cache w !! _); [discriminate|].
  unfold abind at 1.
  destruct (gitlabDownloadReleases net owner repo 1 w) as [[vs|e] w0] eqn:E0.
  - unfold abind at 1. destruct (length vs =? 20).
    + unfold abind at 1.
      pose proof (gitlab_loop_within_fuel net owner repo 4 1 VUndefined vs w0
                    ltac:(lia)) as Hf.
      destruct (while 4 _ _ _ w0) as [[st|e] w1]; simpl in Hf |- *.
      * discriminate.
      * intros H. apply Hf. inversion H. reflexivity.
    + discriminate.
  - unfold gitlabDownloadReleases, abind, fetch, text in E0.
    destruct (net _) as [[t|v|v]|]; inversion E0; discriminate.
Qed.

(** C3. The GitLab loop: after a full first page, and as long as each page
    moves the last entry, the pages 2, 3 and 4 are fetched: four pages in
    all, one more than the three the comment above the loop announces. *)
Theorem gitlabReleases_fetches_four_pages
    (net : string -> option body) (owner repo : string) (w : World)
    (t1 t2 t3 t4 : string) :
  let page := matchAll1 gitlab_id_re in
  let v2 := page t1 ++ page t2 in
  let v3 := v2 ++ page t3 in
  GL_CACHE w !! (owner +:+ "/" +:+ repo) = None ->
  net (gitlab_url owner repo 1) = Some (Text t1) ->
  net (gitlab_url owner repo 2) = Some (Text t2) ->
  net (gitlab_url owner repo 3) = Some (Text t3) ->
  net (gitlab_url owner repo 4) = Some (Text t4) ->
  length (page t1) = 20 ->
  VUndefined <> last_value (page t1) ->
  last_value (page t1) <> last_value v2 ->
  last_value v2 <> last_value v3 ->
  let result := gitlabReleases net owner repo GL w in
  result.1 = Normal (v3 ++ page t4) /\
  requests result.2
  = [gitlab_url owner repo 4; gitlab_url owner repo 3;
     gitlab_url owner repo 2; gitlab_url owner repo 1] ++ requests w.
Proof.
  intros page v2 v3 Hmiss H1 H2 H3 H4 Hfull P1 P2 P3 result. subst result.
  erewrite gitlabReleases_miss; cycle 1; [exact Hmiss|exact H1|exact Hfull| |].
  - fold page.
    rewrite (gitlab_loop_step _ _ _ _ 1 _ _ _ _ P1 ltac:(lia) H2). fold page v2.
    rewrite (gitlab_loop_step _ _ _ _ 2 _ _ _ _ P2 ltac:(lia) H3). fold page v3.
    rewrite (gitlab_loop_step _ _ _ _ 3 _ _ _ _ P3 ltac:(lia) H4). fold page.
    rewrite gitlab_loop_stop by (right; lia). reflexivity.
  - split; reflexivity.
Qed.

Lemma gitlabReleases_fetches_four_pages_witness :
  let result := gitlabReleases gitlab_full "owner" "repo" GL start in
  (length <$> match result.1 with Normal vs => Some vs | Throw _ => None end) = Some 80 /\
  requests result.2
  = ["https://gitlab.com/owner/repo/-/tags?format=atom&page=4";
     "https://gitlab.com/owner/repo/-/tags?format=atom&page=3";
     "https://gitlab.com/owner/repo/-/tags?format=atom&page=2";
     "https://gitlab.com/owner/repo/-/tags?format=atom&page=1"].
Proof.
  cbv zeta.
  edestruct (gitlabReleases_fetches_four_pages gitlab_full "owner" "repo" start)
    as [Hr Hq].
  - reflexivity.
  - reflexivity.
  - reflexivity.
  - reflexivity.
  - reflexivity.
  - vm_compute. reflexivity.
  - vm_compute. discriminate.
  - vm_compute. discriminate.
  - vm_compute. discriminate.
  - rewrite Hr, Hq. vm_compute. split; reflexivity.
Defined.

(** The two behaviours of the GitHub loop on synthetic feeds: five more
    requests when every page is full and new, one more when the feed repeats
    its page. *)
Lemma githubReleases_on_synthetic_feeds :
  length (requests (githubReleases github_full "owner" "repo" GR start).2) = 6 /\
  length (requests (githubReleases github_same "owner" "repo" GR start).2) = 2.
Proof. vm_compute. split; reflexivity. Qed.

(* ===================================================================== *)
(** ** Further properties of the fetchers *)
(* ===================================================================== *)

Import Latest.

Section FetcherFacts.
Variable net : string -> option body.
Variables owner repo : string.

Lemma fetch_frame (u : string) (w : World) :
  caches (fetch net u w).2 = caches w /\
  console (fetch net u w).2 = console w /\
  requests (fetch net u w).2 = u :: requests w.
Proof. unfold fetch. destruct (net u); repeat split. Qed.

Lemma githubDownloadReleases_frame (lv : value) (w : World) :
  let r := githubDownloadReleases net owner repo lv w in
  caches r.2 = caches w /\ console r.2 = console w /\
  requests r.2 = github_url owner repo lv :: requests w.
Proof.
  unfold githubDownloadReleases, abind, fetch, text.
  destruct (net _) as [[t|v|v]|]; repeat split.
Qed.

Lemma gitlabDownloadReleases_frame (page : nat) (w : World) :
  let r := gitlabDownloadReleases net owner repo page w in
  caches r.2 = caches w /\ console r.2 = console w /\
  requests r.2 = gitlab_url owner repo page :: requests w.
Proof.
  unfold gitlabDownloadReleases, abind, fetch, text.
  destruct (net _) as [[t|v|v]|]; repeat split.
Qed.

(** The loops write no cache and send at most as many requests as the
    counter leaves room for. *)
Lemma github_loop_frame (fuel i : nat) (lv : value) (vs : list value) (w w' : World)
    (c : completion (nat * value * list value)) :
  while fuel github_continue (github_next net owner repo) (i, lv, vs) w = (c, w') ->
  caches w' = caches w /\ console w' = console w /\
  length (requests w') + i <= length (requests w) + Nat.max i 5.
Proof.
  revert i lv vs w. induction fuel as [|fuel IH]; intros i lv vs w; cbn [while].
  - destruct (github_continue (i, lv, vs)); intros H; inversion H; subst;
      repeat split; lia.
  - destruct (github_continue (i, lv, vs)) eqn:Hc;
      [|intros H; inversion H; subst; repeat split; lia].
    unfold github_continue in Hc. apply andb_true_iff in Hc as [_ Hi].
    apply Nat.ltb_lt in Hi.
    unfold abind at 1, github_next at 1, abind at 1.
    destruct (githubDownloadReleases_frame (last_value vs) w) as (Hc1 & Hc2 & Hr).
    destruct (githubDownloadReleases net owner repo (last_value vs) w) as [[page|e] w1];
      simpl in Hc1, Hc2, Hr.
    + cbn [ret]. intros H. destruct (IH _ _ _ _ H) as (Hc3 & Hc4 & Hb).
      rewrite Hr in Hb. simpl in Hb.
      repeat split; [rewrite Hc3; exact Hc1|rewrite Hc4; exact Hc2|lia].
    + intros H; inversion H; subst. rewrite Hr. simpl.
      repeat split; [assumption|assumption|lia].
Qed.

Lemma gitlab_loop_frame (fuel i : nat) (lv : value) (vs : list value) (w w' : World)
    (c : completion (nat * value * list value)) :
  while fuel gitlab_continue (gitlab_next net owner repo) (i, lv, vs) w = (c, w') ->
  caches w' = caches w /\ console w' = console w /\
  length (requests w') + i <= length (requests w) + Nat.max i 4.
Proof.
  revert i lv vs w. induction fuel as [|fuel IH]; intros i lv vs w; cbn [while].
  - destruct (gitlab_continue (i, lv, vs)); intros H; inversion H; subst;
      repeat split; lia.
  - destruct (gitlab_continue (i, lv, vs)) eqn:Hc;
      [|intros H; inversion H; subst; repeat split; lia].
    unfold gitlab_continue in Hc. apply andb_true_iff in Hc as [_ Hi].
    apply Nat.leb_le in Hi.
    unfold abind at 1, gitlab_next at 1, abind at 1.
    destruct (gitlabDownloadReleases_frame (S i) w) as (Hc1 & Hc2 & Hr).
    destruct (gitlabDownloadReleases net owner repo (S i) w) as [[page|e] w1];
      simpl in Hc1, Hc2, Hr.
    + cbn [ret]. intros H. destruct (IH _ _ _ _ H) as (Hc3 & Hc4 & Hb).
      rewrite Hr in Hb. simpl in Hb.
      repeat split; [rewrite Hc3; exact Hc1|rewrite Hc4; exact Hc2|lia].
    + intros H; inversion H; subst. rewrite Hr. simpl.
      repeat split; [assumption|assumption|lia].
Qed.

(** What the fetchers leave behind: on a hit nothing changes; otherwise the
    requests are those of the first page and of the loop, and the only cache
    write is the last step of a call that resolves. *)
Lemma githubReleases_cases (w w' : World) (c : completion (list value)) :
  githubReleases net owner repo GR w = (c, w') ->
  console w' = console w /\
  length (requests w') <= length (requests w) + 6 /\
  match c with
  | Normal vs => caches w' = caches (set_GR (<[owner +:+ "/" +:+ repo := vs]>) w)
                 \/ (w' = w /\ GR_CACHE w !! (owner +:+ "/" +:+ repo) = Some vs)
  | Throw e => caches w' = caches w /\ e <> OutOfFuel
  end.
Proof.
  unfold githubReleases, abind at 1, cache_get. cbn [get_cache GR].
  destruct (GR_CACHE w !! _) as [hit|] eqn:Hhit.
  { intros H; inversion H; subst. repeat split; [lia|right; split; reflexivity]. }
  unfold abind at 1.
  destruct (githubDownloadReleases_frame VUndefined w) as (Hc1 & Hc2 & Hr).
  destruct (githubDownloadReleases net owner repo VUndefined w) as [[vs|e] w0] eqn:E0;
    simpl in Hc1, Hc2, Hr.
  - unfold abind at 1. destruct (length vs =? 10).
    + unfold abind at 1.
      destruct (while 5 _ _ _ w0) as [[st|e] w1] eqn:El.
      * destruct (github_loop_frame _ _ _ _ _ _ _ El) as (Hc3 & Hc4 & Hb).
        rewrite Hr in Hb. simpl in Hb.
        intros H; inversion H; subst. simpl.
        repeat split; [congruence|lia|left].
        unfold caches in *. simpl. congruence.
      * destruct (github_loop_frame _ _ _ _ _ _ _ El) as (Hc3 & Hc4 & Hb).
        rewrite Hr in Hb. simpl in Hb.
        intros H; inversion H; subst.
        repeat split; [congruence|lia|congruence|].
        pose proof (github_loop_within_fuel net owner repo 5 0 VUndefined vs w0
                      ltac:(lia)) as Hf.
        rewrite El in Hf. intros ->. apply Hf. reflexivity.
    + intros H; inversion H; subst. simpl. rewrite Hr. simpl.
      repeat split; [assumption|lia|left].
      unfold caches in *. simpl. congruence.
  - intros H; inversion H; subst. rewrite Hr. simpl.
    repeat split; [assumption|lia|assumption|].
    unfold githubDownloadReleases, abind, fetch, text in E0.
    destruct (net _) as [[t|v|v]|]; inversion E0; discriminate.
Qed.

Lemma gitlabReleases_cases (w w' : World) (c : completion (list value)) :
  gitlabReleases net owner repo GL w = (c, w') ->
  console w' = console w /\
  length (requests w') <= length (requests w) + 4 /\
  match c with
  | Normal vs => caches w' = caches (set_GL (<[owner +:+ "/" +:+ repo := vs]>) w)
                 \/ (w' = w /\ GL_CACHE w !! (owner +:+ "/" +:+ repo) = Some vs)
  | Throw e => caches w' = caches w /\ e <> OutOfFuel
  end.
Proof.
  unfold gitlabReleases, abind at 1, cache_get. cbn [get_cache GL].
  destruct (GL_CACHE w !! _) as [hit|] eqn:Hhit.
  { intros H; inversion H; subst. repeat split; [lia|right; split; reflexivity]. }
  unfold abind at 1.
  destruct (gitlabDownloadReleases_frame 1 w) as (Hc1 & Hc2 & Hr).
  destruct (gitlabDownloadReleases net owner repo 1 w) as [[vs|e] w0] eqn:E0;
    simpl in Hc1, Hc2, Hr.
  - unfold abind at 1. destruct (length vs =? 20).
    + unfold abind at 1.
      destruct (while 4 _ _ _ w0) as [[st|e] w1] eqn:El.
      * destruct (gitlab_loop_frame _ _ _ _ _ _ _ El) as (Hc3 & Hc4 & Hb).
        rewrite Hr in Hb. simpl in Hb.
        intros H; inversion H; subst. simpl.
        repeat split; [congruence|lia|left].
        unfold caches in *. simpl. congruence.
      * destruct (gitlab_loop_frame _ _ _ _ _ _ _ El) as (Hc3 & Hc4 & Hb).
        rewrite Hr in Hb. simpl in Hb.
        intros H; inversion H; subst.
        repeat split; [congruence|lia|congruence|].
        pose proof (gitlab_loop_within_fuel net owner repo 4 1 VUndefined vs w0
                      ltac:(lia)) as Hf.
        rewrite El in Hf. intros ->. apply Hf. reflexivity.
    + intros H; inversion H; subst. simpl. rewrite Hr. simpl.
      repeat split; [assumption|lia|left].
      unfold caches in *. simpl. congruence.
  - intros H; inversion H; subst. rewrite Hr. simpl.
    repeat split; [assumption|lia|assumption|].
    unfold gitlabDownloadReleases, abind, fetch, text in E0.
    destruct (net _) as [[t|v|v]|]; inversion E0; discriminate.
Qed.
End FetcherFacts.

(** X12. Whatever the network answers, [githubReleases] sends at most six
    requests and [gitlabReleases] at most four. *)
Theorem paginated_fetchers_request_bound
    (net : string -> option body) (owner repo : string) (w : World) :
  length (requests (githubReleases net owner repo GR w).2) <= length (requests w) + 6 /\
  length (requests (gitlabReleases net owner repo GL w).2) <= length (requests w) + 4.
Proof.
  split.
  - destruct (githubReleases net owner repo GR w) as [c w'] eqn:E.
    exact (proj1 (proj2 (githubReleases_cases net owner repo w w' c E))).
  - destruct (gitlabReleases net owner repo GL w) as [c w'] eqn:E.
    exact (proj1 (proj2 (gitlabReleases_cases net owner repo w w' c E))).
Qed.

(** X13. A call of [githubReleases] or [gitlabReleases] that rejects leaves
    every cache as it was: a list is cached only by the call that resolves
    to it. *)
Theorem paginated_fetchers_cache_nothing_on_failure
    (net : string -> option body) (owner repo : string) (w w' : World) (e : exn) :
  (githubReleases net owner repo GR w = (Throw e, w') -> caches w' = caches w) /\
  (gitlabReleases net owner repo GL w = (Throw e, w') -> caches w' = caches w).
Proof.
  split; intros H.
  - exact (proj1 (proj2 (proj2 (githubReleases_cases net owner repo w w' _ H)))).
  - exact (proj1 (proj2 (proj2 (gitlabReleases_cases net owner repo w w' _ H)))).
Qed.

Lemma paginated_fetchers_cache_nothing_on_failure_witness :
  caches (githubReleases offline "owner" "repo" GR start).2 = caches start.
Proof.
  apply (proj1 (paginated_fetchers_cache_nothing_on_failure offline "owner" "repo"
                  start (githubReleases offline "owner" "repo" GR start).2 TypeError)).
  reflexivity.
Defined.

(** X14. When the first page is not full (ten entries for GitHub, twenty for
    GitLab), no further page is requested: the list is the first page, it is
    cached under [owner/repo], and one request was sent. *)
Theorem paginated_fetchers_short_first_page
    (net : string -> option body) (owner repo : string) (w : World) (t : string) :
  (GR_CACHE w !! (owner +:+ "/" +:+ repo) = None ->
   net (github_url owner repo VUndefined) = Some (Text t) ->
   length (matchAll1 github_id_re t) <> 10 ->
   githubReleases net owner repo GR w
   = (Normal (matchAll1 github_id_re t),
      set_GR (<[owner +:+ "/" +:+ repo := matchAll1 github_id_re t]>)
        (log_request (github_url owner repo VUndefined) w))) /\
  (GL_CACHE w !! (owner +:+ "/" +:+ repo) = None ->
   net (gitlab_url owner repo 1) = Some (Text t) ->
   length (matchAll1 gitlab_id_re t) <> 20 ->
   gitlabReleases net owner repo GL w
   = (Normal (matchAll1 gitlab_id_re t),
      set_GL (<[owner +:+ "/" +:+ repo := matchAll1 gitlab_id_re t]>)
        (log_request (gitlab_url owner repo 1) w))).
Proof.
  split; intros Hmiss Hnet Hlen.
  - unfold githubReleases, abind at 1, cache_get at 1. cbn [get_cache GR].
    rewrite Hmiss. unfold abind at 1.
    rewrite (githubDownloadReleases_page _ _ _ _ _ _ Hnet).
    apply Nat.eqb_neq in Hlen. rewrite Hlen. reflexivity.
  - unfold gitlabReleases, abind at 1, cache_get at 1. cbn [get_cache GL].
    rewrite Hmiss. unfold abind at 1.
    rewrite (gitlabDownloadReleases_page _ _ _ _ _ _ Hnet).
    apply Nat.eqb_neq in Hlen. rewrite Hlen. reflexivity.
Qed.

Lemma paginated_fetchers_short_first_page_witness :
  (githubReleases unpkg_net "owner" "repo" GR start).1 = Normal [] /\
  requests (githubReleases unpkg_net "owner" "repo" GR start).2
  = ["https://github.com/owner/repo/releases.atom"].
Proof.
  rewrite (proj1 (paginated_fetchers_short_first_page unpkg_net "owner" "repo" start
                    unpkg_page) eq_refl eq_refl).
  - split; reflexivity.
  - vm_compute. discriminate.
Defined.

(** X15. The GitLab loop stops as soon as a fetched page leaves the last
    entry where it was: here after the second page. *)
Theorem gitlabReleases_stops_on_repeat
    (net : string -> option body) (owner repo : string) (w : World) (t1 t2 : string) :
  let page := matchAll1 gitlab_id_re in
  GL_CACHE w !! (owner +:+ "/" +:+ repo) = None ->
  net (gitlab_url owner repo 1) = Some (Text t1) ->
  net (gitlab_url owner repo 2) = Some (Text t2) ->
  length (page t1) = 20 ->
  VUndefined <> last_value (page t1) ->
  last_value (page t1) = last_value (page t1 ++ page t2) ->
  let result := gitlabReleases net owner repo GL w in
  result.1 = Normal (page t1 ++ page t2) /\
  requests result.2 = [gitlab_url owner repo 2; gitlab_url owner repo 1] ++ requests w.
Proof.
  intros page Hmiss H1 H2 Hfull P1 Heq result. subst result.
  erewrite gitlabReleases_miss; cycle 1; [exact Hmiss|exact H1|exact Hfull| |].
  - fold page.
    rewrite (gitlab_loop_step _ _ _ _ 1 _ _ _ _ P1 ltac:(lia) H2). fold page.
    rewrite gitlab_loop_stop by (left; exact Heq). reflexivity.
  - split; reflexivity.
Qed.

Lemma gitlabReleases_stops_on_repeat_witness :
  length (requests (gitlabReleases gitlab_same "owner" "repo" GL start).2) = 2.
Proof.
  edestruct (gitlabReleases_stops_on_repeat gitlab_same "owner" "repo" start)
    as [Hr Hq].
  - reflexivity.
  - reflexivity.
  - reflexivity.
  - vm_compute. reflexivity.
  - vm_compute. discriminate.
  - vm_compute. reflexivity.
  - rewrite Hq. reflexivity.
Defined.

Lemma githubReleases_five_more_witness :
  length (requests (githubReleases github_full "owner" "repo" GR start).2) = 6.
Proof.
  pose (t := fun c => github_atom (map (fun k => c +:+ "." +:+ pretty k) (seq 0 10))).
  destruct (githubReleases_five_more github_full "owner" "repo" start
              (t "r") (t "r.9") (t "r.9.9") (t "r.9.9.9") (t "r.9.9.9.9")
              (t "r.9.9.9.9.9")) as [Hr Hq].
  - reflexivity.
  - vm_compute. reflexivity.
  - vm_compute. reflexivity.
  - vm_compute. reflexivity.
  - vm_compute. reflexivity.
  - vm_compute. reflexivity.
  - vm_compute. reflexivity.
  - vm_compute. reflexivity.
  - vm_compute. discriminate.
  - vm_compute. discriminate.
  - vm_compute. discriminate.
  - vm_compute. discriminate.
  - vm_compute. discriminate.
  - rewrite Hq. reflexivity.
Defined.

Lemma githubReleases_stops_on_repeat_witness :
  length (requests (githubReleases github_same "owner" "repo" GR start).2) = 2.
Proof.
  edestruct (githubReleases_stops_on_repeat github_same "owner" "repo" start)
    as [Hr Hq].
  - reflexivity.
  - reflexivity.
  - reflexivity.
  - vm_compute. reflexivity.
  - vm_compute. discriminate.
  - vm_compute. reflexivity.
  - rewrite Hq. reflexivity.
Defined.

(* --------------------------------------------------------------------- *)
(** *** The single documents *)

Section DocumentFacts.
Variable net : string -> option body.
Variable sort_desc : list string -> completion (list string).

(** The part of the three fetchers inside [try]: one request, no console
    line; the cache is written only on the way to a result. *)
Lemma fetch_versions_frame (address : string) (w w' : World)
    (c : completion (option (list string))) :
  (r <- fetch net address ;; json_versions r) w = (c, w') ->
  w' = log_request address w.
Proof.
  unfold abind, fetch, json_versions.
  destruct (net address) as [[t|v|v]|]; intros H; inversion H; reflexivity.
Qed.

Lemma all_document_miss (u : RegistryUrl) (f : family) (name address : string)
    (w : World) :
  package_key u = Some (f, name) ->
  document_address f name = Some address ->
  get_cache (family_cache f) w !! name = None ->
  all net sort_desc u w
  = logging_errors ("error getting versions for " +:+ name)
      (r <- fetch net address ;;
       versions <- json_versions r ;;
       match versions with
       | None => throw (incorrect_format name)
       | Some keys =>
           versions <- lift (match f with
                             | FJsr => sort_desc keys
                             | FNpm => Normal (rev keys)
                             | _ => Normal keys
                             end) ;;
           cache_set (family_cache f) name (VString <$> versions) ;;;
           ret (VString <$> versions)
       end) w.
Proof.
  unfold package_key, all. destruct (ctor u) eqn:Hc; try discriminate.
  - destruct (DenoLand_name u) as [n|] eqn:Hn; [|discriminate].
    intros H1; inversion H1; subst. intros H2; inversion H2; subst. intros Hmiss.
    unfold DenoLand_all. rewrite Hn.
    change (abind (lift (Normal n)) ?g) with (g n). cbv beta zeta.
    unfold abind at 1, cache_get at 1. cbn [family_cache] in Hmiss. rewrite Hmiss.
    reflexivity.
  - destruct (parsed_name jsr_parse_re u) as [n|] eqn:Hn; [|discriminate].
    intros H1; inversion H1; subst. intros H2; inversion H2; subst. intros Hmiss.
    unfold Jsr_all. rewrite Hn.
    change (abind (lift (Normal n)) ?g) with (g n). cbv beta zeta.
    unfold abind at 1, cache_get at 1. cbn [family_cache] in Hmiss. rewrite Hmiss.
    reflexivity.
  - destruct (parsed_name npm_parse_re u) as [n|] eqn:Hn; [|discriminate].
    intros H1; inversion H1; subst. intros H2; inversion H2; subst. intros Hmiss.
    unfold Npm_all. rewrite Hn.
    change (abind (lift (Normal n)) ?g) with (g n). cbv beta zeta.
    unfold abind at 1, cache_get at 1. cbn [family_cache] in Hmiss. rewrite Hmiss.
    reflexivity.
  - destruct (defaultName u); [|discriminate].
    intros H1; inversion H1; subst. discriminate.
  - destruct (defaultName u); [|discriminate].
    intros H1; inversion H1; subst. discriminate.
  - intros H1; inversion H1; subst. discriminate.
  - destruct (JsDelivr_parts u) as [[[[? ?] ?] ?]|]; [|discriminate].
    intros H1; inversion H1; subst. discriminate.
  - intros H1; inversion H1; subst. discriminate.
Qed.
End DocumentFacts.

(** X16. For the deno.land, jsr and npm variants, a call of [all()] that
    misses the cache and fails sends its one request, writes the line
    [error getting versions for <name>] to the console, throws the error on,
    and leaves every cache as it was. *)
Theorem all_document_failure_logged_not_cached
    (net : string -> option body) (sort_desc : list string -> completion (list string))
    (u : RegistryUrl) (f : family) (name address : string) (w w' : World) (e : exn) :
  package_key u = Some (f, name) ->
  document_address f name = Some address ->
  get_cache (family_cache f) w !! name = None ->
  all net sort_desc u w = (Throw e, w') ->
  caches w' = caches w /\
  console w' = ("error getting versions for " +:+ name) :: console w /\
  requests w' = address :: requests w.
Proof.
  intros Hk Ha Hmiss. rewrite (all_document_miss net sort_desc u f name address w Hk Ha Hmiss).
  unfold logging_errors. unfold abind at 1.
  destruct (fetch net address w) as [[b|e0] w0] eqn:Ef.
  - assert (Hw0 : w0 = log_request address w).
    { unfold fetch in Ef. destruct (net address); inversion Ef; reflexivity. }
    unfold abind at 1.
    destruct (json_versions b w0) as [[[keys|]|e1] w1] eqn:Ej.
    + assert (w1 = w0) by (destruct b; inversion Ej; reflexivity). subst w1.
      unfold abind at 1, lift.
      destruct (match f with FJsr => sort_desc keys | FNpm => Normal (rev keys)
                | _ => Normal keys end) as [vs|e2].
      * unfold abind, cache_set, ret. discriminate.
      * intros H; inversion H; subst. repeat split.
    + assert (w1 = w0) by (destruct b; inversion Ej; reflexivity). subst w1.
      unfold throw. intros H; inversion H; subst. repeat split.
    + assert (w1 = w0) by (destruct b; inversion Ej; reflexivity). subst w1.
      intros H; inversion H; subst. repeat split.
  - assert (Hw0 : w0 = log_request address w).
    { unfold fetch in Ef. destruct (net address); inversion Ef; reflexivity. }
    intros H; inversion H; subst. repeat split.
Qed.

Lemma all_document_failure_logged_not_cached_witness :
  let r := all offline no_sort (new Npm (canonical Npm)) start in
  caches r.2 = caches start /\
  console r.2 = ["error getting versions for @scope/pkg"] /\
  requests r.2 = ["https://registry.npmjs.org/@scope/pkg"].
Proof.
  apply (all_document_failure_logged_not_cached offline no_sort
           (new Npm (canonical Npm)) FNpm "@scope/pkg"
           "https://registry.npmjs.org/@scope/pkg" start _ TypeError);
    reflexivity.
Defined.

(** X17. For the deno.land, jsr and npm variants, a document without a
    [versions] member makes [all()] fail with the error
    [versions.json for <name> has incorrect format]; a request that fails
    makes it fail with the error of [fetch]. *)
Theorem all_document_incorrect_format
    (net : string -> option body) (sort_desc : list string -> completion (list string))
    (u : RegistryUrl) (f : family) (name address : string) (w : World) :
  package_key u = Some (f, name) ->
  document_address f name = Some address ->
  get_cache (family_cache f) w !! name = None ->
  (net address = Some (VersionsJson None) ->
   (all net sort_desc u w).1
   = Throw (Error ("versions.json for " +:+ name +:+ " has incorrect format"))) /\
  (net address = None -> (all net sort_desc u w).1 = Throw TypeError).
Proof.
  intros Hk Ha Hmiss. rewrite (all_document_miss net sort_desc u f name address w Hk Ha Hmiss).
  unfold logging_errors, abind, fetch.
  split; intros Hnet; rewrite Hnet; reflexivity.
Qed.

Lemma all_document_incorrect_format_witness :
  (all (fun _ => Some (VersionsJson None)) no_sort (new DenoLand (canonical DenoLand))
     start).1
  = Throw (Error "versions.json for std has incorrect format").
Proof.
  apply (all_document_incorrect_format (fun _ => Some (VersionsJson None)) no_sort
           (new DenoLand (canonical DenoLand)) FDenoLand "std"
           "https://cdn.deno.land/std/meta/versions.json" start);
    reflexivity.
Defined.

(* --------------------------------------------------------------------- *)
(** *** The unpkg page and the nest.land upload log *)

(** X18. [all()] of the nine dialects served by the unpkg directory page
    never writes a cache or the console, and sends at most one request. *)
Theorem unpkg_family_all_frame
    (net : string -> option body) (sort_desc : list string -> completion (list string))
    (u : RegistryUrl) (w : World) :
  unpkg_family (ctor u) = true ->
  let r := all net sort_desc u w in
  caches r.2 = caches w /\ console r.2 = console w /\
  (requests r.2 = requests w \/ exists a, requests r.2 = a :: requests w).
Proof.
  intros Hf. cbv zeta.
  assert (Hu : forall name,
             let r := unpkgVersions net name w in
             caches r.2 = caches w /\ console r.2 = console w /\
             (requests r.2 = requests w \/ exists a, requests r.2 = a :: requests w)).
  { intros name. unfold unpkgVersions, abind, fetch, text.
    destruct (net _) as [[t|v|v]|]; repeat split; right; eexists; reflexivity. }
  unfold all. destruct (ctor u); try discriminate Hf; unfold abind at 1, lift;
    try (destruct (defaultInfo u) as [info|e]; [apply Hu|repeat split; left; reflexivity]);
    try (destruct (defaultName u) as [n|e]; [apply Hu|repeat split; left; reflexivity]).
Qed.

Lemma unpkg_family_all_frame_witness :
  caches (all unpkg_net no_sort (new EsmSh (canonical EsmSh)) start).2 = caches start.
Proof.
  apply (unpkg_family_all_frame unpkg_net no_sort (new EsmSh (canonical EsmSh)) start).
  reflexivity.
Defined.

(** X19. On a cache miss, an upload log that lists [<repo>@<version>] names
    makes [nestlandReleases] resolve to the versions in reverse order of the
    log, and the list is not written to the cache. *)
Theorem nestlandReleases_reverses_upload_log
    (net : string -> option body) (repo name : string) (versions : list string)
    (w : World) :
  NL_CACHE w !! repo = None ->
  net ("https://x.nest.land/api/package/" +:+ repo)
  = Some (NestLandResponse
            (Some (map (fun v => name +:+ String "@" v) versions))) ->
  all_chars not_at name = true ->
  Forall (fun v => all_chars not_at v = true) versions ->
  let r := nestlandReleases net repo NL w in
  r.1 = Normal (VString <$> rev versions) /\ caches r.2 = caches w.
Proof.
  intros Hmiss Hnet Hname Hvs. cbv zeta.
  unfold nestlandReleases, abind, cache_get, fetch, json_uploads.
  cbn [get_cache NL]. rewrite Hmiss, Hnet. cbn [ret fst snd]. split; [|reflexivity].
  assert (H : forall l, Forall (fun v => all_chars not_at v = true) l ->
            map (fun n => nth_value (split "@" n) 1)
              (map (fun v => name +:+ String "@" v) l) = VString <$> l).
  { induction l as [|v l IH]; [reflexivity|]. intros Hl.
    inversion Hl as [|? ? Hv Hl']; subst. cbn [map]. rewrite (IH Hl').
    rewrite (split_app_sep "@" name v Hname), (split_free "@" v Hv). reflexivity. }
  rewrite (H versions Hvs). f_equal. symmetry. apply (map_rev VString).
Qed.

Lemma nestlandReleases_reverses_upload_log_witness :
  (nestlandReleases
     (fun _ => Some (NestLandResponse (Some ["foo@0.1.0"; "foo@0.2.0"])))
     "foo" NL start).1
  = Normal [VString "0.2.0"; VString "0.1.0"].
Proof.
  apply (nestlandReleases_reverses_upload_log
           (fun _ => Some (NestLandResponse (Some ["foo@0.1.0"; "foo@0.2.0"])))
           "foo" "foo" ["0.1.0"; "0.2.0"] start).
  - reflexivity.
  - reflexivity.
  - reflexivity.
  - repeat constructor.
Defined.

(* ===================================================================== *)
(** ** The order of the lists, dialect by dialect *)
(* ===================================================================== *)

(* --------------------------------------------------------------------- *)
(** *** The sort of [Jsr.all] *)

Section SortFacts.
Context {SemVer : Type}.
Variable parse : string -> completion SemVer.
Variable compare : SemVer -> SemVer -> Z.
(** What the sort needs of [compare]: two versions are comparable, in
    one direction at least, and the order is transitive. *)
Hypothesis compare_total : forall a b, (compare a b <= 0)%Z -> (0 <= compare b a)%Z.
Hypothesis compare_trans :
  forall a b c, (0 <= compare a b)%Z -> (0 <= compare b c)%Z -> (0 <= compare a c)%Z.

(** [x] is a version at least as recent as [y]. *)
Let newer_or_equal (x y : string) : Prop :=
  exists a b, parse x = Normal a /\ parse y = Normal b /\ (0 <= compare a b)%Z.
Let parses (x : string) : Prop := exists a, parse x = Normal a.

Lemma insert_sorted (x : string) (sorted : list string) :
  parses x -> Forall parses sorted -> StronglySorted newer_or_equal sorted ->
  exists l,
    insert (newest_first parse compare) x sorted = Normal l /\
    Permutation l (x :: sorted) /\
    StronglySorted newer_or_equal l.
Proof.
  intros [px Hx] Hall Hs. induction sorted as [|y rest IH].
  - exists [x]. repeat split; [reflexivity|]. repeat constructor.
  - apply Forall_cons in Hall as [[py Hy] Hrest].
    apply StronglySorted_inv in Hs as [Hs Hy_rest].
    cbn [insert]. unfold newest_first at 1. rewrite Hx, Hy. cbn [bind].
    destruct (0 <? compare px py)%Z eqn:Hc.
    + apply Z.ltb_lt in Hc. exists (x :: y :: rest). repeat split; [reflexivity|].
      constructor; [constructor; assumption|]. constructor.
      * exists px, py. repeat split; [assumption..|lia].
      * rewrite Forall_forall in Hy_rest |- *. intros z Hz.
        destruct (Hy_rest z Hz) as (a & b & Ha & Hb & Hab).
        rewrite Hy in Ha. inversion Ha; subst a.
        exists px, b. repeat split; [assumption..|].
        apply (compare_trans px py b); [lia|exact Hab].
    + apply Z.ltb_ge in Hc.
      destruct (IH Hrest Hs) as (l & Hl & Hperm & Hsorted).
      rewrite Hl. cbn [bind]. exists (y :: l). split; [reflexivity|]. split.
      * rewrite Hperm. apply perm_swap.
      * constructor; [exact Hsorted|].
        rewrite Hperm. constructor; [|exact Hy_rest].
        exists py, px. repeat split; [assumption..|].
        apply compare_total, Hc.
Qed.

Lemma sort_from (keys acc : list string) :
  Forall parses keys -> Forall parses acc -> StronglySorted newer_or_equal acc ->
  exists l,
    fold_left (fun sorted x => bind sorted (insert (newest_first parse compare) x))
      keys (Normal acc) = Normal l /\
    Permutation l (acc ++ keys) /\
    StronglySorted newer_or_equal l.
Proof.
  revert acc. induction keys as [|x keys IH]; intros acc Hkeys Hacc Hs.
  - exists acc. rewrite List.app_nil_r. repeat split; [reflexivity|exact Hs].
  - apply Forall_cons in Hkeys as [Hx Hkeys].
    destruct (insert_sorted x acc Hx Hacc Hs) as (l1 & H1 & Hp1 & Hs1).
    cbn [fold_left bind]. rewrite H1.
    destruct (IH l1 Hkeys) as (l & Hl & Hp & Hsl); [|exact Hs1|].
    + rewrite Hp1. constructor; assumption.
    + exists l. split; [exact Hl|]. split; [|exact Hsl].
      rewrite Hp, Hp1. cbn [app]. rewrite Permutation_middle. reflexivity.
Qed.

(** The sort of [Jsr.all] on keys that are all versions: it returns them
    all, the most recent first. *)
Lemma semver_sort_descending (keys : list string) :
  Forall parses keys ->
  exists sorted,
    semver_sort parse compare keys = Normal sorted /\
    Permutation sorted keys /\
    StronglySorted newer_or_equal sorted.
Proof.
  intros Hkeys.
  destruct (sort_from keys [] Hkeys) as (l & Hl & Hp & Hs); [constructor..|].
  exists l. repeat split; assumption.
Qed.
End SortFacts.

(** The stand-in [compare3] is a comparator of the kind the sort needs. *)
Lemma compare3_total (a b : N * N * N) : (compare3 a b <= 0)%Z -> (0 <= compare3 b a)%Z.
Proof.
  destruct a as [[a1 a2] a3], b as [[b1 b2] b3]. unfold compare3.
  rewrite (N.compare_antisym a1 b1), (N.compare_antisym a2 b2), (N.compare_antisym a3 b3).
  destruct (a1 ?= b1)%N, (a2 ?= b2)%N, (a3 ?= b3)%N; cbn; lia.
Qed.

Lemma compare3_trans (a b c : N * N * N) :
  (0 <= compare3 a b)%Z -> (0 <= compare3 b c)%Z -> (0 <= compare3 a c)%Z.
Proof.
  destruct a as [[a1 a2] a3], b as [[b1 b2] b3], c as [[c1 c2] c3]. unfold compare3.
  destruct (N.compare_spec a1 b1), (N.compare_spec b1 c1), (N.compare_spec a1 c1);
    try lia;
    destruct (N.compare_spec a2 b2), (N.compare_spec b2 c2), (N.compare_spec a2 c2);
    try lia;
    destruct (N.compare_spec a3 b3), (N.compare_spec b3 c3), (N.compare_spec a3 c3);
    lia.
Qed.

(* --------------------------------------------------------------------- *)
(** *** The feeds, page after page *)

Section FeedOrder.
Variable net : string -> option body.
Variables owner repo : string.

Lemma github_loop_in_order (fuel i : nat) (lv : value) (vs : list value) (w : World) :
  (forall c, exists t, net (github_url owner repo c) = Some (Text t)) ->
  5 <= fuel + i ->
  exists st w1 more,
    while fuel github_continue (github_next net owner repo) (i, lv, vs) w
    = (Normal st, w1) /\
    requests w1 = more ++ requests w /\
    st.2 = vs ++ concat (map (entries net github_id_re) (rev more)).
Proof.
  intros Hnet. revert i lv vs w. induction fuel as [|fuel IH]; intros i lv vs w Hf.
  - exists (i, lv, vs), w, []. rewrite github_loop_stop by (right; lia).
    cbn. rewrite List.app_nil_r. repeat split.
  - destruct (decide (lv = last_value vs)) as [Heq|Hne].
    { exists (i, lv, vs), w, []. rewrite github_loop_stop by (left; exact Heq).
      cbn. rewrite List.app_nil_r. repeat split. }
    destruct (le_lt_dec 5 i) as [Hi|Hi].
    { exists (i, lv, vs), w, []. rewrite github_loop_stop by (right; exact Hi).
      cbn. rewrite List.app_nil_r. repeat split. }
    destruct (Hnet (last_value vs)) as [t Ht].
    rewrite (github_loop_step net owner repo fuel i lv vs t w Hne Hi Ht).
    destruct (IH (S i) (last_value vs) (vs ++ matchAll1 github_id_re t)
                 (log_request (github_url owner repo (last_value vs)) w) ltac:(lia))
      as (st & w1 & more & Hloop & Hreq & Hst).
    exists st, w1, (more ++ [github_url owner repo (last_value vs)]).
    split; [exact Hloop|]. split.
    + rewrite Hreq. cbn [requests log_request]. rewrite <- List.app_assoc. reflexivity.
    + rewrite Hst, rev_app_distr. cbn [rev app map concat].
      unfold entries at 2. rewrite Ht. rewrite <- List.app_assoc. reflexivity.
Qed.

Lemma gitlab_loop_in_order (fuel i : nat) (lv : value) (vs : list value) (w : World) :
  (forall n, exists t, net (gitlab_url owner repo n) = Some (Text t)) ->
  4 <= fuel + i ->
  exists st w1 more,
    while fuel gitlab_continue (gitlab_next net owner repo) (i, lv, vs) w
    = (Normal st, w1) /\
    requests w1 = more ++ requests w /\
    st.2 = vs ++ concat (map (entries net gitlab_id_re) (rev more)).
Proof.
  intros Hnet. revert i lv vs w. induction fuel as [|fuel IH]; intros i lv vs w Hf.
  - exists (i, lv, vs), w, []. rewrite gitlab_loop_stop by (right; lia).
    cbn. rewrite List.app_nil_r. repeat split.
  - destruct (decide (lv = last_value vs)) as [Heq|Hne].
    { exists (i, lv, vs), w, []. rewrite gitlab_loop_stop by (left; exact Heq).
      cbn. rewrite List.app_nil_r. repeat split. }
    destruct (le_lt_dec 4 i) as [Hi|Hi].
    { exists (i, lv, vs), w, []. rewrite gitlab_loop_stop by (right; exact Hi).
      cbn. rewrite List.app_nil_r. repeat split. }
    destruct (Hnet (S i)) as [t Ht].
    rewrite (gitlab_loop_step net owner repo fuel i lv vs t w Hne ltac:(lia) Ht).
    destruct (IH (S i) (last_value vs) (vs ++ matchAll1 gitlab_id_re t)
                 (log_request (gitlab_url owner repo (S i)) w) ltac:(lia))
      as (st & w1 & more & Hloop & Hreq & Hst).
    exists st, w1, (more ++ [gitlab_url owner repo (S i)]).
    split; [exact Hloop|]. split.
    + rewrite Hreq. cbn [requests log_request]. rewrite <- List.app_assoc. reflexivity.
    + rewrite Hst, rev_app_distr. cbn [rev app map concat].
      unfold entries at 2. rewrite Ht. rewrite <- List.app_assoc. reflexivity.
Qed.

(** On a cache miss, with a feed that answers every request with a page,
    [githubReleases] resolves to the entries of the pages in the order it
    fetched them, the first page first. *)
Lemma githubReleases_in_fetch_order (w : World) :
  GR_CACHE w !! (owner +:+ "/" +:+ repo) = None ->
  (forall c, exists t, net (github_url owner repo c) = Some (Text t)) ->
  in_fetch_order net github_id_re (github_url owner repo VUndefined) w
    (githubReleases net owner repo GR w).
Proof.
  intros Hmiss Hnet. destruct (Hnet VUndefined) as [t0 H0].
  unfold githubReleases.
  unfold abind at 1, cache_get at 1. cbn [get_cache GR]. rewrite Hmiss.
  unfold abind at 1. rewrite (githubDownloadReleases_page _ _ _ _ _ _ H0).
  destruct (length (matchAll1 github_id_re t0) =? 10) eqn:Hlen.
  - destruct (github_loop_in_order 5 0 VUndefined (matchAll1 github_id_re t0)
                (log_request (github_url owner repo VUndefined) w) Hnet ltac:(lia))
      as (st & w1 & more & Hloop & Hreq & Hst).
    unfold abind at 1, abind at 1. rewrite Hloop.
    exists (more ++ [github_url owner repo VUndefined]).
    cbn -[github_url entries github_id_re matchAll1]. split; [|split].
    + rewrite Hreq. cbn [requests log_request]. rewrite <- List.app_assoc. reflexivity.
    + apply last_snoc.
    + rewrite Hst, rev_app_distr. cbn [rev app map concat].
      replace (entries net github_id_re (github_url owner repo VUndefined))
        with (matchAll1 github_id_re t0) by (unfold entries; rewrite H0; reflexivity).
      reflexivity.
  - exists [github_url owner repo VUndefined]. cbn -[github_url entries github_id_re matchAll1]. split; [reflexivity|].
    split; [reflexivity|]. unfold entries. rewrite H0, List.app_nil_r. reflexivity.
Qed.

Lemma gitlabReleases_in_fetch_order (w : World) :
  GL_CACHE w !! (owner +:+ "/" +:+ repo) = None ->
  (forall n, exists t, net (gitlab_url owner repo n) = Some (Text t)) ->
  in_fetch_order net gitlab_id_re (gitlab_url owner repo 1) w
    (gitlabReleases net owner repo GL w).
Proof.
  intros Hmiss Hnet. destruct (Hnet 1) as [t0 H0].
  unfold gitlabReleases.
  unfold abind at 1, cache_get at 1. cbn [get_cache GL]. rewrite Hmiss.
  unfold abind at 1. rewrite (gitlabDownloadReleases_page _ _ _ _ _ _ H0).
  destruct (length (matchAll1 gitlab_id_re t0) =? 20) eqn:Hlen.
  - destruct (gitlab_loop_in_order 4 1 VUndefined (matchAll1 gitlab_id_re t0)
                (log_request (gitlab_url owner repo 1) w) Hnet ltac:(lia))
      as (st & w1 & more & Hloop & Hreq & Hst).
    unfold abind at 1, abind at 1. rewrite Hloop.
    exists (more ++ [gitlab_url owner repo 1]).
    cbn -[gitlab_url entries gitlab_id_re matchAll1]. split; [|split].
    + rewrite Hreq. cbn [requests log_request]. rewrite <- List.app_assoc. reflexivity.
    + apply last_snoc.
    + rewrite Hst, rev_app_distr. cbn [rev app map concat].
      replace (entries net gitlab_id_re (gitlab_url owner repo 1))
        with (matchAll1 gitlab_id_re t0) by (unfold entries; rewrite H0; reflexivity).
      reflexivity.
  - exists [gitlab_url owner repo 1]. cbn -[gitlab_url entries gitlab_id_re matchAll1]. split; [reflexivity|].
    split; [reflexivity|]. unfold entries. rewrite H0, List.app_nil_r. reflexivity.
Qed.
End FeedOrder.

(** C7. What [all()] resolves to on a cache miss, for each of the eighteen
    dialects. No dialect reads a date, and one alone sorts:
    - deno.land: the [versions] array of the index, in the order of the
      document;
    - npm: the keys of [versions] in reverse order;
    - jsr: the keys of [versions] sorted by the comparator
      [compare(parse(vsrB), parse(vsrA))]: when every key is a version, all of
      them, each at least as recent as those after it, whatever the order of
      the document;
    - the nine dialects served by the unpkg directory page: the versions of
      the page in reverse order;
    - Denopkg, PaxDenoDev, GithubRaw and JsDelivr (the GitHub feed) and
      GitlabRaw (the GitLab feed): the entries of the pages fetched, in the
      order the pages were fetched and each page in its own order, the first
      page first;
    - nest.land: the versions of the upload log in reverse order. *)
Theorem all_order_by_dialect
    {SemVer : Type} (parse : string -> completion SemVer)
    (compare : SemVer -> SemVer -> Z)
    (net : string -> option body) (u : RegistryUrl) (w : World) :
  let result := all net (semver_sort parse compare) u w in
  (forall name vs,
     ctor u = DenoLand -> DenoLand_name u = Normal (VString name) ->
     DL_CACHE w !! name = None ->
     net ("https://cdn.deno.land/" +:+ name +:+ "/meta/versions.json")
     = Some (VersionsJson (Some vs)) ->
     result.1 = Normal (VString <$> vs)) /\
  (forall name vs,
     ctor u = Npm -> parsed_name npm_parse_re u = Normal (VString name) ->
     NPM_CACHE w !! name = None ->
     net ("https://registry.npmjs.org/" +:+ name) = Some (VersionsJson (Some vs)) ->
     result.1 = Normal (VString <$> rev vs)) /\
  (forall name vs,
     ctor u = Jsr -> parsed_name jsr_parse_re u = Normal (VString name) ->
     JSR_CACHE w !! name = None ->
     net ("https://jsr.io/" +:+ name +:+ "/meta.json") = Some (VersionsJson (Some vs)) ->
     (forall a b, (compare a b <= 0)%Z -> (0 <= compare b a)%Z) ->
     (forall a b c, (0 <= compare a b)%Z -> (0 <= compare b c)%Z -> (0 <= compare a c)%Z) ->
     Forall (fun key => exists v, parse key = Normal v) vs ->
     exists sorted,
       result.1 = Normal (VString <$> sorted) /\
       Permutation sorted vs /\
       StronglySorted
         (fun x y => exists a b,
            parse x = Normal a /\ parse y = Normal b /\ (0 <= compare a b)%Z)
         sorted) /\
  (forall info t,
     scoped_variant (ctor u) = true -> defaultInfo u = Normal info ->
     net ("https://unpkg.com/browse/" +:+ (scope info +:+ "/" +:+ packageName info) +:+ "/")
     = Some (Text t) ->
     result.1 = Normal (rev (matchAll1 option_re t))) /\
  (forall name t,
     unpkg_family (ctor u) = true -> scoped_variant (ctor u) = false ->
     defaultName u = Normal name ->
     net ("https://unpkg.com/browse/" +:+ show_value name +:+ "/") = Some (Text t) ->
     result.1 = Normal (rev (matchAll1 option_re t))) /\
  (forall name,
     ctor u = Denopkg \/ ctor u = PaxDenoDev -> defaultName u = Normal name ->
     let owner := show_value (nth_value (split "/" (url u)) 3) in
     let repo := show_value name in
     GR_CACHE w !! (owner +:+ "/" +:+ repo) = None ->
     (forall c, exists t, net (github_url owner repo c) = Some (Text t)) ->
     in_fetch_order net github_id_re (github_url owner repo VUndefined) w result) /\
  (ctor u = GithubRaw ->
   let owner := show_value (nth_value (split "/" (url u)) 3) in
   let repo := show_value (nth_value (split "/" (url u)) 4) in
   GR_CACHE w !! (owner +:+ "/" +:+ repo) = None ->
   (forall c, exists t, net (github_url owner repo c) = Some (Text t)) ->
   in_fetch_order net github_id_re (github_url owner repo VUndefined) w result) /\
  (forall parts user repo version,
     ctor u = JsDelivr -> JsDelivr_parts u = Normal (parts, user, repo, version) ->
     let owner := show_value user in
     GR_CACHE w !! (owner +:+ "/" +:+ repo) = None ->
     (forall c, exists t, net (github_url owner repo c) = Some (Text t)) ->
     in_fetch_order net github_id_re (github_url owner repo VUndefined) w result) /\
  (ctor u = GitlabRaw ->
   let owner := show_value (nth_value (split "/" (url u)) 3) in
   let repo := show_value (nth_value (split "/" (url u)) 4) in
   GL_CACHE w !! (owner +:+ "/" +:+ repo) = None ->
   (forall n, exists t, net (gitlab_url owner repo n) = Some (Text t)) ->
   in_fetch_order net gitlab_id_re (gitlab_url owner repo 1) w result) /\
  (forall segment names,
     ctor u = NestLand -> split "/" (url u) !! 3 = Some segment ->
     let repo := default "" (split "@" segment !! 0) in
     NL_CACHE w !! repo = None ->
     net ("https://x.nest.land/api/package/" +:+ repo)
     = Some (NestLandResponse (Some names)) ->
     result.1
     = Normal (rev (map (fun name => nth_value (split "@" name) 1) names))).
Proof.
  intros result. subst result.
  split; [|split; [|split; [|split; [|split; [|split; [|split; [|split; [|split]]]]]]]].
  - intros name vs Hc Hn Hmiss Hnet. unfold all. rewrite Hc. unfold DenoLand_all.
    rewrite Hn. unfold abind, lift, cache_get, logging_errors, fetch. simpl.
    rewrite Hmiss, Hnet. reflexivity.
  - intros name vs Hc Hn Hmiss Hnet. unfold all. rewrite Hc. unfold Npm_all.
    rewrite Hn. unfold abind, lift, cache_get, logging_errors, fetch. simpl.
    rewrite Hmiss, Hnet. reflexivity.
  - intros name vs Hc Hn Hmiss Hnet Htotal Htrans Hparse.
    destruct (semver_sort_descending parse compare Htotal Htrans vs Hparse)
      as (sorted & Hsort & Hperm & Hsorted).
    exists sorted. split; [|split; [exact Hperm|exact Hsorted]].
    unfold all. rewrite Hc. unfold Jsr_all.
    rewrite Hn. unfold abind, lift, cache_get, logging_errors, fetch. simpl.
    rewrite Hmiss, Hnet. simpl. rewrite Hsort. reflexivity.
  - intros info t Hc Hinfo Hnet. unfold all.
    destruct (ctor u); try discriminate Hc;
      rewrite Hinfo; unfold unpkgVersions, abind, lift, fetch;
      rewrite Hnet; reflexivity.
  - intros name t Hc Hs Hname Hnet. unfold all.
    destruct (ctor u); try discriminate Hc; try discriminate Hs;
      rewrite Hname; unfold unpkgVersions, abind, lift, fetch;
      rewrite Hnet; reflexivity.
  - intros name Hc Hname owner repo Hmiss Hnet. unfold all.
    destruct Hc as [Hc|Hc]; rewrite Hc, Hname; unfold abind at 1, lift;
      exact (githubReleases_in_fetch_order net owner repo w Hmiss Hnet).
  - intros Hc owner repo Hmiss Hnet. unfold all. rewrite Hc.
    exact (githubReleases_in_fetch_order net owner repo w Hmiss Hnet).
  - intros parts user repo version Hc Hparts owner Hmiss Hnet. unfold all.
    rewrite Hc, Hparts. unfold abind at 1, lift.
    exact (githubReleases_in_fetch_order net owner repo w Hmiss Hnet).
  - intros Hc owner repo Hmiss Hnet. unfold all. rewrite Hc.
    exact (gitlabReleases_in_fetch_order net owner repo w Hmiss Hnet).
  - intros segment names Hc Hseg repo Hmiss Hnet. unfold all. rewrite Hc, Hseg.
    fold repo. unfold nestlandReleases, abind, cache_get. simpl.
    rewrite Hmiss. unfold fetch. rewrite Hnet. reflexivity.
Qed.

Lemma all_order_by_dialect_witness :
  let result :=
    all (jsr_only "@scope/pkg" ["1.2.0"; "1.10.0"; "1.0.0"]) (semver_sort parse3 compare3)
      (new Jsr (canonical Jsr)) start in
  (exists sorted,
     result.1 = Normal (VString <$> sorted) /\
     Permutation sorted ["1.2.0"; "1.10.0"; "1.0.0"] /\
     StronglySorted
       (fun x y => exists a b,
          parse3 x = Normal a /\ parse3 y = Normal b /\ (0 <= compare3 a b)%Z)
       sorted) /\
  result.1 = Normal [VString "1.10.0"; VString "1.2.0"; VString "1.0.0"].
Proof.
  split; [|vm_compute; reflexivity].
  apply (proj1 (proj2 (proj2
           (all_order_by_dialect parse3 compare3
              (jsr_only "@scope/pkg" ["1.2.0"; "1.10.0"; "1.0.0"])
              (new Jsr (canonical Jsr)) start)))
           "@scope/pkg" ["1.2.0"; "1.10.0"; "1.0.0"]).
  - reflexivity.
  - vm_compute. reflexivity.
  - reflexivity.
  - vm_compute. reflexivity.
  - exact compare3_total.
  - exact compare3_trans.
  - repeat constructor; eexists; vm_compute; reflexivity.
Defined.

(* ===================================================================== *)
(** ** Further properties of the upgrade engine *)
(* ===================================================================== *)

Section MapFacts.
Implicit Types (m : DependencyMap) (k pkg v : string).

Lemma set_keys m pkg v : pkg ∈ map fst m -> map fst (set m pkg v) = map fst m.
Proof.
  induction m as [|[k0 v0] m IH]; simpl; intros Hin.
  - inversion Hin.
  - destruct (String.eqb k0 pkg) eqn:E; [reflexivity|]. simpl. f_equal. apply IH.
    apply elem_of_cons in Hin as [->|Hin]; [|exact Hin].
    rewrite String.eqb_refl in E. discriminate.
Qed.

Lemma get_set_other m pkg v k : k <> pkg -> get (set m pkg v) k = get m k.
Proof.
  intros Hne. induction m as [|[k0 v0] m IH]; simpl.
  - destruct (String.eqb pkg k) eqn:E; [|reflexivity].
    apply String.eqb_eq in E. congruence.
  - destruct (String.eqb k0 pkg) eqn:E; simpl.
    + apply String.eqb_eq in E. subst k0.
      destruct (String.eqb pkg k) eqn:E'; [|reflexivity].
      apply String.eqb_eq in E'. congruence.
    + rewrite IH. reflexivity.
Qed.

Lemma selected_keys (deps : regex) m pkg specifier :
  (pkg, specifier) ∈ selected deps m -> test deps pkg = true /\ pkg ∈ map fst m.
Proof.
  unfold selected. intros [Ht Hin]%list_elem_of_filter. split; [exact Ht|].
  apply list_elem_of_In, in_map_iff. exists (pkg, specifier).
  split; [reflexivity|apply list_elem_of_In, Hin].
Qed.
End MapFacts.

Section EngineMore.
Variable pkgInfo : string -> bool -> Async (option Info).
Variable canParse : string -> bool.
Variable lessThan : string -> string -> completion bool.
Variable args : list string.
Variable allow_pre : bool.
Variable settle_order : list (string * string) -> list (string * string).

(** A callback changes at most the entry of its own alias. *)
Lemma upgrade_one_frame (logs : bool) (pkg specifier : string) (r r' : Run)
    (c : completion unit) :
  upgrade_one pkgInfo canParse args allow_pre logs pkg specifier r = (c, r') ->
  imports r' = imports r \/ exists v, imports r' = set (imports r) pkg v.
Proof.
  unfold upgrade_one, after_info, abind at 1, in_world.
  destruct (pkgInfo specifier allow_pre (world r)) as [[[info|]|e] w1];
    [|intros H; inversion H; left; reflexivity..].
  destruct (negb (truthy (latest info))); [intros H; inversion H; left; reflexivity|].
  destruct (negb (canParse_value canParse (current info)) && negb (includes args "force")).
  { unfold logger, logged. intros H; inversion H. destruct logs; left; reflexivity. }
  destruct (negb (bool_decide (current info = latest info)));
    [|intros H; inversion H; left; reflexivity].
  unfold abind, logger, logged, mark_found, lift, assign.
  destruct (at_ (info_url info) (show_value (latest info))) as [u'|e];
    intros H; inversion H; destruct logs; simpl; eauto.
Qed.

Lemma upgrade_one_noop (logs : bool) (pkg specifier : string) (r : Run)
    (o : option Info) (w1 : World) :
  pkgInfo specifier allow_pre (world r) = (Normal o, w1) ->
  nothing_to_do canParse args o ->
  exists r', upgrade_one pkgInfo canParse args allow_pre logs pkg specifier r
             = (Normal tt, r') /\
             imports r' = imports r /\ upgradeFound r' = upgradeFound r /\
             world r' = w1.
Proof.
  intros Hp Hn. unfold upgrade_one, after_info, abind at 1, in_world. rewrite Hp.
  destruct o as [info|]; [|eexists; repeat split].
  destruct (truthy (latest info)) eqn:Ht; [|eexists; repeat split].
  cbn [negb].
  destruct (negb (canParse_value canParse (current info)) && negb (includes args "force"))
    eqn:Hskip.
  { unfold logger, logged. eexists. split; [reflexivity|]. destruct logs; repeat split. }
  destruct Hn as [Hn|[Hn|[Hn1 Hn2]]].
  - congruence.
  - rewrite (bool_decide_eq_true_2 _ Hn). eexists; repeat split.
  - rewrite Hn1, Hn2 in Hskip. discriminate.
Qed.
End EngineMore.

Section EngineRuns.
Variable pkgInfo : string -> bool -> Async (option Info).
Variable canParse : string -> bool.
Variable args : list string.
Variable allow_pre : bool.

Lemma join_all_noop (logs : bool) (launched : list (string * string)) (r : Run) :
  nothing_to_do_run pkgInfo canParse args allow_pre launched (world r) ->
  exists r', join_all pkgInfo canParse args allow_pre logs launched r = (Normal tt, r') /\
             imports r' = imports r /\ upgradeFound r' = upgradeFound r.
Proof.
  revert r. induction launched as [|[pkg specifier] l IH]; intros r Hall.
  - eexists. repeat split.
  - cbn [nothing_to_do_run] in Hall.
    destruct (pkgInfo specifier allow_pre (world r)) as [[o|e] w1] eqn:Hp; [|contradiction].
    destruct Hall as [Hn Hrest].
    destruct (upgrade_one_noop pkgInfo canParse args allow_pre logs pkg specifier r o w1
                Hp Hn) as (r1 & H1 & Hi & Hf & Hw).
    destruct (IH r1) as (r2 & H2 & Hi2 & Hf2); [rewrite Hw; exact Hrest|].
    exists r2. cbn [join_all]. unfold abind. rewrite H1, H2.
    repeat split; congruence.
Qed.

Lemma join_all_frame (logs : bool) (deps : regex) (importMap : DependencyMap)
    (launched : list (string * string)) (r r' : Run) (c : completion unit) :
  launched ⊆ selected deps importMap ->
  map fst (imports r) = map fst importMap ->
  join_all pkgInfo canParse args allow_pre logs launched r = (c, r') ->
  map fst (imports r') = map fst importMap /\
  forall k, test deps k = false -> get (imports r') k = get (imports r) k.
Proof.
  revert r. induction launched as [|[pkg specifier] l IH]; intros r Hsub Hkeys.
  - intros H; inversion H; subst. split; [exact Hkeys|reflexivity].
  - cbn [join_all]. unfold abind.
    destruct (upgrade_one pkgInfo canParse args allow_pre logs pkg specifier r)
      as [[[]|e] r1] eqn:E1.
    + destruct (selected_keys deps importMap pkg specifier) as [Ht Hin];
        [apply Hsub; left|].
      assert (Hr1 : map fst (imports r1) = map fst importMap /\
                    forall k, test deps k = false -> get (imports r1) k = get (imports r) k).
      { destruct (upgrade_one_frame _ _ _ _ _ _ _ _ _ _ E1) as [->|[v ->]].
        - split; [exact Hkeys|reflexivity].
        - split.
          + rewrite set_keys; [exact Hkeys|]. rewrite Hkeys. exact Hin.
          + intros k Hk. apply get_set_other. intros ->. congruence. }
      destruct Hr1 as [Hk1 Hg1]. intros H.
      destruct (IH r1) as [Hk2 Hg2]; [|exact Hk1|exact H|].
      { intros x Hx. apply Hsub. right. exact Hx. }
      split; [exact Hk2|]. intros k Hk. rewrite (Hg2 k Hk). apply Hg1, Hk.
    + destruct (selected_keys deps importMap pkg specifier) as [Ht Hin];
        [apply Hsub; left|].
      intros H; inversion H; subst.
      destruct (upgrade_one_frame _ _ _ _ _ _ _ _ _ _ E1) as [->|[v ->]].
      * split; [exact Hkeys|reflexivity].
      * split.
        -- rewrite set_keys; [exact Hkeys|]. rewrite Hkeys. exact Hin.
        -- intros k Hk. apply get_set_other. intros ->. congruence.
Qed.

Lemma upgrade_one_found (logs : bool) (pkg specifier : string) (r r' : Run)
    (c : completion unit) :
  upgrade_one pkgInfo canParse args allow_pre logs pkg specifier r = (c, r') ->
  (imports r' = imports r /\ upgradeFound r' = upgradeFound r) \/ upgradeFound r' = true.
Proof.
  unfold upgrade_one, after_info, abind at 1, in_world.
  destruct (pkgInfo specifier allow_pre (world r)) as [[[info|]|e] w1];
    [|intros H; inversion H; left; split; reflexivity..].
  destruct (negb (truthy (latest info)));
    [intros H; inversion H; left; split; reflexivity|].
  destruct (negb (canParse_value canParse (current info)) && negb (includes args "force")).
  { unfold logger, logged. intros H; inversion H. destruct logs; left; split; reflexivity. }
  destruct (negb (bool_decide (current info = latest info)));
    [|intros H; inversion H; left; split; reflexivity].
  unfold abind, logger, logged, mark_found, lift, assign.
  destruct (at_ (info_url info) (show_value (latest info))) as [u'|e];
    intros H; inversion H; destruct logs; right; reflexivity.
Qed.

Lemma join_all_found (logs : bool) (launched : list (string * string)) (r r' : Run)
    (c : completion unit) :
  join_all pkgInfo canParse args allow_pre logs launched r = (c, r') ->
  (imports r' = imports r /\ upgradeFound r' = upgradeFound r) \/ upgradeFound r' = true.
Proof.
  revert r. induction launched as [|[pkg specifier] l IH]; intros r.
  - intros H; inversion H. left. split; reflexivity.
  - cbn [join_all]. unfold abind.
    destruct (upgrade_one pkgInfo canParse args allow_pre logs pkg specifier r)
      as [[[]|e] r1] eqn:E1.
    + intros H. destruct (IH _ H) as [[Hi Hf]|Hf]; [|right; exact Hf].
      destruct (upgrade_one_found _ _ _ _ _ _ E1) as [[Hi1 Hf1]|Hf1].
      * left. split; congruence.
      * right. congruence.
    + intros H; inversion H; subst. exact (upgrade_one_found _ _ _ _ _ _ E1).
Qed.
End EngineRuns.

(** X20. When every selected entry has nothing to do ([pkgInfo] gives no
    result or no latest version, the current version is the latest one, or it
    does not parse and [force] was not given), [upgradeDeps] returns [false]
    and the map is left as it was. *)
Theorem upgradeDeps_nothing_to_do
    (pkgInfo : string -> bool -> Async (option Info))
    (canParse : string -> bool) (lessThan : string -> string -> completion bool)
    (args : list string) (allow_pre : bool)
    (settle_order : list (string * string) -> list (string * string))
    (importMap : DependencyMap) (logs : bool) (deps : regex) (w : World) :
  nothing_to_do_run pkgInfo canParse args allow_pre
    (settle_order (selected deps importMap)) w ->
  let result :=
    run_upgradeDeps pkgInfo canParse lessThan args allow_pre settle_order
      importMap logs deps w in
  result.1 = Normal false /\ imports result.2 = importMap.
Proof.
  intros Hall result. subst result. rewrite run_upgradeDeps_joined. cbv zeta.
  destruct (join_all_noop pkgInfo canParse args allow_pre logs
              (settle_order (selected deps importMap))
              (logged logs (Plain "looking up latest versions")
                 {| imports := importMap; upgradeFound := false; lines := [];
                    world := w |})) as (r1 & Hj & Hi & Hf).
  { destruct logs; exact Hall. }
  rewrite Hj.
  assert (Hf' : upgradeFound r1 = false).
  { rewrite Hf. destruct logs; reflexivity. }
  assert (Hi' : imports r1 = importMap).
  { rewrite Hi. destruct logs; reflexivity. }
  rewrite Hf'. cbn [fst snd]. split; [reflexivity|].
  unfold logged. destruct logs; exact Hi'.
Qed.

Lemma upgradeDeps_nothing_to_do_witness :
  let importMap :=
    [("@deco/a", "jsr:@deco/a@^1.2.0"); ("@deco/b", "./vendor/b/mod.ts");
     ("other", "npm:other@1.0.0")] in
  let result :=
    run_upgradeDeps (pkgInfo offline no_sort) canParse3 no_lessThan [] false id
      importMap true PACKAGES_TO_CHECK (jsr_known "@deco/a" ["1.2.0"; "1.0.0"]) in
  result.1 = Normal false /\ imports result.2 = importMap.
Proof.
  apply (upgradeDeps_nothing_to_do (pkgInfo offline no_sort) canParse3 no_lessThan []
           false id).
  vm_compute. split; [right; left; reflexivity|split; exact I].
Defined.

(** X21. Whatever [pkgInfo] answers and however the run ends, [upgradeDeps]
    keeps the keys of the map and their order, and leaves every entry whose
    alias the inclusion pattern rejects as it was. *)
Theorem upgradeDeps_touches_selected_only
    (pkgInfo : string -> bool -> Async (option Info))
    (canParse : string -> bool) (lessThan : string -> string -> completion bool)
    (args : list string) (allow_pre : bool)
    (settle_order : list (string * string) -> list (string * string))
    (importMap : DependencyMap) (logs : bool) (deps : regex) (w : World) :
  settle_order (selected deps importMap) ⊆ selected deps importMap ->
  let result :=
    run_upgradeDeps pkgInfo canParse lessThan args allow_pre settle_order
      importMap logs deps w in
  map fst (imports result.2) = map fst importMap /\
  forall pkg, test deps pkg = false -> get (imports result.2) pkg = get importMap pkg.
Proof.
  intros Hsub result. subst result. rewrite run_upgradeDeps_joined. cbv zeta.
  destruct (join_all pkgInfo canParse args allow_pre logs
              (settle_order (selected deps importMap))
              (logged logs (Plain "looking up latest versions")
                 {| imports := importMap; upgradeFound := false; lines := [];
                    world := w |})) as [c r1] eqn:E.
  assert (H0 : map fst (imports (logged logs (Plain "looking up latest versions")
                 {| imports := importMap; upgradeFound := false; lines := [];
                    world := w |})) = map fst importMap)
    by (destruct logs; reflexivity).
  destruct (join_all_frame pkgInfo canParse args allow_pre logs deps importMap _ _ _ _
              Hsub H0 E) as [Hk Hg].
  assert (Hg' : forall pkg, test deps pkg = false -> get (imports r1) pkg = get importMap pkg).
  { intros pkg Hp. rewrite (Hg pkg Hp). destruct logs; reflexivity. }
  destruct c as [[]|e]; cbn [fst snd].
  - destruct (upgradeFound r1); [split; assumption|].
    unfold logged. destruct logs; split; assumption.
  - split; assumption.
Qed.

Lemma upgradeDeps_touches_selected_only_witness :
  let importMap :=
    [("preact", "npm:preact@10.0.0"); ("@deco/a", "jsr:@deco/a@^1.0.0");
     ("@deco/b", "jsr:@deco/b@^1.0.0")] in
  let result :=
    run_upgradeDeps (pkgInfo offline no_sort) canParse3 no_lessThan [] false (@rev _)
      importMap true PACKAGES_TO_CHECK (jsr_known "@deco/b" ["1.2.0"; "1.0.0"]) in
  map fst (imports result.2) = ["preact"; "@deco/a"; "@deco/b"] /\
  forall pkg, test PACKAGES_TO_CHECK pkg = false ->
              get (imports result.2) pkg = get importMap pkg.
Proof.
  cbv zeta.
  apply (upgradeDeps_touches_selected_only (pkgInfo offline no_sort) canParse3 no_lessThan
           [] false (@rev _)
           [("preact", "npm:preact@10.0.0"); ("@deco/a", "jsr:@deco/a@^1.0.0");
            ("@deco/b", "jsr:@deco/b@^1.0.0")] true PACKAGES_TO_CHECK
           (jsr_known "@deco/b" ["1.2.0"; "1.0.0"])).
  intros x Hx. vm_compute in Hx. vm_compute.
  apply list_elem_of_In in Hx. apply list_elem_of_In.
  destruct Hx as [<-|[<-|[]]]; [right; left|left]; reflexivity.
Defined.

(** X22. A run of [upgradeDeps] that returns [false] has left the map as
    it was: no entry is assigned without the flag being raised first. *)
Theorem upgradeDeps_false_leaves_map
    (pkgInfo : string -> bool -> Async (option Info))
    (canParse : string -> bool) (lessThan : string -> string -> completion bool)
    (args : list string) (allow_pre : bool)
    (settle_order : list (string * string) -> list (string * string))
    (importMap : DependencyMap) (logs : bool) (deps : regex) (w : World) :
  let result :=
    run_upgradeDeps pkgInfo canParse lessThan args allow_pre settle_order
      importMap logs deps w in
  result.1 = Normal false -> imports result.2 = importMap.
Proof.
  intros result. subst result. rewrite run_upgradeDeps_joined. cbv zeta.
  destruct (join_all pkgInfo canParse args allow_pre logs
              (settle_order (selected deps importMap))
              (logged logs (Plain "looking up latest versions")
                 {| imports := importMap; upgradeFound := false; lines := [];
                    world := w |})) as [c r1] eqn:E.
  destruct c as [[]|e]; cbn [fst snd]; [|discriminate].
  intros Hfalse. assert (Hf : upgradeFound r1 = false) by congruence.
  rewrite Hf.
  destruct (join_all_found _ _ _ _ _ _ _ _ _ E) as [[Hi _]|Ht]; [|congruence].
  unfold logged. destruct logs; rewrite Hi; reflexivity.
Qed.

Lemma upgradeDeps_false_leaves_map_witness :
  let importMap :=
    [("@deco/a", "jsr:@deco/a@^1.2.0"); ("deco", "https://example.com/deco/mod.ts")] in
  let result :=
    run_upgradeDeps (pkgInfo offline no_sort) canParse3 no_lessThan [] false id
      importMap false PACKAGES_TO_CHECK (jsr_known "@deco/a" ["1.2.0"; "1.0.0"]) in
  imports result.2 = importMap.
Proof.
  cbv zeta.
  apply (upgradeDeps_false_leaves_map (pkgInfo offline no_sort) canParse3 no_lessThan []
           false id).
  vm_compute. reflexivity.
Defined.

(** X23. When one entry is selected and [pkgInfo] finds a latest version
    different from the current one, the run returns [true] and the entry
    becomes the address [at] gives for the latest version, provided the
    current version parses or [force] is among the arguments. *)
Theorem upgradeDeps_rewrites_selected_entry
    (pkgInfo : string -> bool -> Async (option Info))
    (canParse : string -> bool) (lessThan : string -> string -> completion bool)
    (args : list string) (allow_pre : bool)
    (settle_order : list (string * string) -> list (string * string))
    (importMap : DependencyMap) (logs : bool) (deps : regex) (w w' : World)
    (pkg specifier : string) (info : Info) (u' : RegistryUrl) :
  settle_order (selected deps importMap) = [(pkg, specifier)] ->
  pkgInfo specifier allow_pre w = (Normal (Some info), w') ->
  truthy (latest info) = true ->
  canParse_value canParse (current info) || includes args "force" = true ->
  current info <> latest info ->
  at_ (info_url info) (show_value (latest info)) = Normal u' ->
  let result :=
    run_upgradeDeps pkgInfo canParse lessThan args allow_pre settle_order
      importMap logs deps w in
  result.1 = Normal true /\ imports result.2 = set importMap pkg (url u').
Proof.
  intros Hsel Hinfo Ht Hp Hne Hat result. subst result.
  rewrite run_upgradeDeps_joined. cbv zeta. rewrite Hsel.
  cbn [join_all]. unfold abind.
  destruct (upgrade_one_rewrites pkgInfo canParse args allow_pre logs pkg specifier
              (logged logs (Plain "looking up latest versions")
                 {| imports := importMap; upgradeFound := false; lines := [];
                    world := w |}) info w' u') as [l Hl]; try assumption.
  { destruct logs; exact Hinfo. }
  rewrite Hl. cbn [ret upgradeFound fst snd imports].
  split; [reflexivity|]. destruct logs; reflexivity.
Qed.

Lemma upgradeDeps_rewrites_selected_entry_witness :
  let importMap :=
    [("preact", "npm:preact@10.0.0"); ("@deco/a", "jsr:@deco/a@^next")] in
  let result :=
    run_upgradeDeps (pkgInfo offline no_sort) canParse3 no_lessThan ["force"] false id
      importMap true PACKAGES_TO_CHECK (jsr_known "@deco/a" ["1.2.0"; "1.0.0"]) in
  result.1 = Normal true /\
  imports result.2 = [("preact", "npm:preact@10.0.0"); ("@deco/a", "jsr:@deco/a@1.2.0")].
Proof.
  cbv zeta.
  refine (upgradeDeps_rewrites_selected_entry (pkgInfo offline no_sort) canParse3
            no_lessThan ["force"] false id _ true PACKAGES_TO_CHECK _ _
            "@deco/a" "jsr:@deco/a@^next" _ (new Jsr "jsr:@deco/a@1.2.0") _ _ _ _ _ _).
  - vm_compute. reflexivity.
  - vm_compute. reflexivity.
  - vm_compute. reflexivity.
  - vm_compute. reflexivity.
  - vm_compute. discriminate.
  - vm_compute. reflexivity.
Defined.

Section EngineLines.
Variable pkgInfo : string -> bool -> Async (option Info).
Variable canParse : string -> bool.
Variable args : list string.
Variable allow_pre : bool.

Lemma upgrade_one_lines (logs : bool) (pkg specifier : string) (r r' : Run)
    (c : completion unit) :
  upgrade_one pkgInfo canParse args allow_pre logs pkg specifier r = (c, r') ->
  exists l, lines r' = l ++ lines r /\ (logs = false -> l = []).
Proof.
  unfold upgrade_one, after_info, abind at 1, in_world.
  destruct (pkgInfo specifier allow_pre (world r)) as [[[info|]|e] w1];
    [|intros H; inversion H; exists []; split; reflexivity..].
  destruct (negb (truthy (latest info)));
    [intros H; inversion H; exists []; split; reflexivity|].
  destruct (negb (canParse_value canParse (current info)) && negb (includes args "force")).
  { unfold logger, logged. intros H; inversion H.
    destruct logs; [eexists [_]; split; [reflexivity|discriminate]
                   |exists []; split; reflexivity]. }
  destruct (negb (bool_decide (current info = latest info)));
    [|intros H; inversion H; exists []; split; reflexivity].
  unfold abind, logger, logged, mark_found, lift, assign.
  destruct (at_ (info_url info) (show_value (latest info))) as [u'|e];
    intros H; inversion H;
    (destruct logs; [eexists [_]; split; [reflexivity|discriminate]
                    |exists []; split; reflexivity]).
Qed.

Lemma join_all_lines (logs : bool) (launched : list (string * string)) (r r' : Run)
    (c : completion unit) :
  join_all pkgInfo canParse args allow_pre logs launched r = (c, r') ->
  exists l, lines r' = l ++ lines r /\ (logs = false -> l = []).
Proof.
  revert r. induction launched as [|[pkg specifier] rest IH]; intros r.
  - intros H; inversion H. exists []. split; reflexivity.
  - cbn [join_all]. unfold abind.
    destruct (upgrade_one pkgInfo canParse args allow_pre logs pkg specifier r)
      as [[[]|e] r1] eqn:E1.
    + intros H. destruct (IH _ H) as (l2 & H2 & Hs2).
      destruct (upgrade_one_lines _ _ _ _ _ _ E1) as (l1 & H1 & Hs1).
      exists (l2 ++ l1). split.
      * rewrite H2, H1. apply List.app_assoc.
      * intros Hl. rewrite (Hs1 Hl), (Hs2 Hl). reflexivity.
    + intros H; inversion H; subst. exact (upgrade_one_lines _ _ _ _ _ _ E1).
Qed.
End EngineLines.

(** X27. What [upgradeDeps] gives to its logger: nothing when [logs] is
    false; when [logs] is true, the first line is always
    [looking up latest versions], whatever happens next. *)
Theorem upgradeDeps_logger_calls
    (pkgInfo : string -> bool -> Async (option Info))
    (canParse : string -> bool) (lessThan : string -> string -> completion bool)
    (args : list string) (allow_pre : bool)
    (settle_order : list (string * string) -> list (string * string))
    (importMap : DependencyMap) (deps : regex) (w : World) :
  let run logs :=
    run_upgradeDeps pkgInfo canParse lessThan args allow_pre settle_order
      importMap logs deps w in
  lines (run false).2 = [] /\
  last (lines (run true).2) = Some (Plain "looking up latest versions").
Proof.
  intros run. subst run. cbv beta. rewrite !run_upgradeDeps_joined. cbv zeta. split.
  - destruct (join_all pkgInfo canParse args allow_pre false
                (settle_order (selected deps importMap)) _) as [c r1] eqn:E.
    destruct (join_all_lines _ _ _ _ _ _ _ _ _ E) as (l & Hl & Hs).
    rewrite (Hs eq_refl) in Hl. cbn in Hl.
    destruct c as [[]|e]; cbn [snd]; [destruct (upgradeFound r1)|]; exact Hl.
  - destruct (join_all pkgInfo canParse args allow_pre true
                (settle_order (selected deps importMap)) _) as [c r1] eqn:E.
    destruct (join_all_lines _ _ _ _ _ _ _ _ _ E) as (l & Hl & _).
    cbn in Hl.
    destruct c as [[]|e]; cbn [snd]; [destruct (upgradeFound r1)|];
      cbn [logged lines]; rewrite Hl;
      rewrite ?app_comm_cons, last_app; reflexivity.
Qed.


(* ===================================================================== *)
(** ** A call run alone *)
(* ===================================================================== *)

(** Each asynchronous function of [Fetch], a call run to its settlement, is
    the call started of [Concurrent] when no other call makes a step in
    between. *)
Section Alone.
Import Concurrent.

Lemma abind_ext {St A B} (m m' : M St A) (f g : A -> M St B) (s : St) :
  (forall s', m s' = m' s') -> (forall a s', f a s' = g a s') ->
  abind m f s = abind m' g s.
Proof.
  intros Hm H. unfold abind. rewrite Hm. destruct (m' s) as [[a|e] s']; [apply H|reflexivity].
Qed.

Lemma logging_errors_ext {A} (line : string) (m m' : Async A) (w : World) :
  (forall w', m w' = m' w') -> Fetch.logging_errors line m w = Fetch.logging_errors line m' w.
Proof. intros H. unfold Fetch.logging_errors. rewrite H. reflexivity. Qed.

Lemma while_ext {St S} (cond : S -> bool) (body body' : S -> M St S) (fuel : nat)
    (x : S) (s : St) :
  (forall x' s', body x' s' = body' x' s') ->
  Fetch.while fuel cond body x s = Fetch.while fuel cond body' x s.
Proof.
  intros H. revert x s. induction fuel as [|fuel IH]; intros x s; cbn [Fetch.while].
  - reflexivity.
  - destruct (cond x); [|reflexivity]. apply abind_ext; [apply H|apply IH].
Qed.

Lemma settle_on_settle {St A B} (t : task St A) (k : completion A -> started St B)
    (s : St) :
  settle (on_settle t k s).1 (on_settle t k s).2
  = alone (k (settle t s).1) (settle t s).2.
Proof.
  revert s. induction t as [c|effect next IH]; intros s.
  - cbn [on_settle settle fst snd]. unfold alone. destruct (k c s). reflexivity.
  - cbn [on_settle settle fst snd waiting]. apply IH.
Qed.

Lemma settle_waiting {St A} (m : started St A) (s : St) :
  settle (waiting m) s = alone m s.
Proof. unfold waiting, alone. cbn [settle]. destruct (m s). reflexivity. Qed.

Lemma alone_now {St A} (m : M St A) (s : St) : alone (now m) s = m s.
Proof. unfold alone, now. destruct (m s). reflexivity. Qed.

Lemma alone_tbind {St A B} (m : started St A) (k : A -> started St B) (s : St) :
  alone (tbind m k) s = abind (alone m) (fun a => alone (k a)) s.
Proof.
  unfold alone at 1, tbind. destruct (m s) as [t s'] eqn:E.
  destruct (on_settle t _ s') as [t1 s1] eqn:E1.
  change t1 with (t1, s1).1. change s1 with (t1, s1).2 at 2. rewrite <- E1.
  rewrite settle_on_settle. unfold abind, alone at 2. rewrite E.
  destruct (settle t s') as [[a|e] s2]; cbn [fst snd]; [reflexivity|].
  apply alone_now.
Qed.

Lemma alone_await {St A} (m : started St A) (s : St) : alone (await m) s = alone m s.
Proof.
  unfold alone at 1, await. destruct (m s) as [t s'] eqn:E.
  destruct (on_settle t _ s') as [t1 s1] eqn:E1.
  change t1 with (t1, s1).1. change s1 with (t1, s1).2 at 2. rewrite <- E1.
  rewrite settle_on_settle. unfold alone. rewrite E.
  destruct (settle t s') as [c s2]. reflexivity.
Qed.

Lemma alone_logging_errors {A} (line : string) (m : started World A) (w : World) :
  alone (Concurrent.logging_errors line m) w = Fetch.logging_errors line (alone m) w.
Proof.
  unfold alone at 1, Concurrent.logging_errors. destruct (m w) as [t w'] eqn:E.
  destruct (on_settle t _ w') as [t1 w1] eqn:E1.
  change t1 with (t1, w1).1. change w1 with (t1, w1).2 at 2. rewrite <- E1.
  rewrite settle_on_settle. unfold Fetch.logging_errors, alone at 2. rewrite E.
  destruct (settle t w') as [[a|e] w2]; cbn [fst snd]; rewrite alone_now; reflexivity.
Qed.

Lemma alone_while {St S} (cond : S -> bool) (body : S -> started St S)
    (fuel : nat) (x : S) (s : St) :
  alone (Concurrent.while fuel cond body x) s
  = Fetch.while fuel cond (fun x' => alone (body x')) x s.
Proof.
  revert x s. induction fuel as [|fuel IH]; intros x s; cbn [Concurrent.while Fetch.while].
  - destruct (cond x); apply alone_now.
  - destruct (cond x); [|apply alone_now].
    rewrite alone_tbind. apply abind_ext; [reflexivity|]. intros x' s'. apply IH.
Qed.

Variable net : string -> option body.
Variable sort_desc : list string -> completion (list string).

Lemma alone_fetch (u : string) (w : World) :
  alone (Concurrent.fetch net u) w = Fetch.fetch net u w.
Proof.
  unfold alone at 1, Concurrent.fetch, Fetch.fetch. rewrite settle_waiting, alone_now.
  unfold lift. destruct (net u); reflexivity.
Qed.

Lemma alone_text (b : body) (w : World) :
  alone (Concurrent.text b) w = Fetch.text b w.
Proof. unfold alone at 1, Concurrent.text. rewrite settle_waiting. apply alone_now. Qed.

Lemma alone_json_versions (b : body) (w : World) :
  alone (Concurrent.json_versions b) w = Fetch.json_versions b w.
Proof.
  unfold alone at 1, Concurrent.json_versions. rewrite settle_waiting. apply alone_now.
Qed.

Lemma alone_json_uploads (b : body) (w : World) :
  alone (Concurrent.json_uploads b) w = Fetch.json_uploads b w.
Proof.
  unfold alone at 1, Concurrent.json_uploads. rewrite settle_waiting. apply alone_now.
Qed.

Ltac alone_step :=
  first
    [ reflexivity
    | rewrite alone_tbind; apply abind_ext; intros
    | rewrite alone_logging_errors; apply logging_errors_ext; intros
    | rewrite alone_await
    | rewrite alone_now
    | rewrite alone_fetch
    | rewrite alone_text
    | rewrite alone_json_versions
    | rewrite alone_json_uploads
    | match goal with
      | |- alone (match ?x with _ => _ end) _ = _ => destruct x
      | |- alone (if ?x then _ else _) _ = _ => destruct x
      | |- alone (let '(_, _) := ?x in _) _ = _ => destruct x
      end ].

Lemma alone_githubDownloadReleases (owner repo : string) (lv : value) (w : World) :
  alone (Concurrent.githubDownloadReleases net owner repo lv) w
  = Fetch.githubDownloadReleases net owner repo lv w.
Proof.
  unfold Concurrent.githubDownloadReleases, Fetch.githubDownloadReleases.
  repeat alone_step.
Qed.

Lemma alone_gitlabDownloadReleases (owner repo : string) (page : nat) (w : World) :
  alone (Concurrent.gitlabDownloadReleases net owner repo page) w
  = Fetch.gitlabDownloadReleases net owner repo page w.
Proof.
  unfold Concurrent.gitlabDownloadReleases, Fetch.gitlabDownloadReleases.
  repeat alone_step.
Qed.

Lemma alone_githubReleases (owner repo : string) (cache : handle) (w : World) :
  alone (Concurrent.githubReleases net owner repo cache) w
  = Fetch.githubReleases net owner repo cache w.
Proof.
  unfold Concurrent.githubReleases, Fetch.githubReleases.
  repeat first
    [ rewrite alone_githubDownloadReleases
    | rewrite alone_while; apply while_ext; intros [[i lv] vs] ?;
      unfold Concurrent.github_next, Fetch.github_next
    | alone_step ].
Qed.

Lemma alone_gitlabReleases (owner repo : string) (cache : handle) (w : World) :
  alone (Concurrent.gitlabReleases net owner repo cache) w
  = Fetch.gitlabReleases net owner repo cache w.
Proof.
  unfold Concurrent.gitlabReleases, Fetch.gitlabReleases.
  repeat first
    [ rewrite alone_gitlabDownloadReleases
    | rewrite alone_while; apply while_ext; intros [[i lv] vs] ?;
      unfold Concurrent.gitlab_next, Fetch.gitlab_next
    | alone_step ].
Qed.

Lemma alone_unpkgVersions (name : string) (w : World) :
  alone (Concurrent.unpkgVersions net name) w = Fetch.unpkgVersions net name w.
Proof. unfold Concurrent.unpkgVersions, Fetch.unpkgVersions. repeat alone_step. Qed.

Lemma alone_nestlandReleases (repo : string) (cache : handle) (w : World) :
  alone (Concurrent.nestlandReleases net repo cache) w
  = Fetch.nestlandReleases net repo cache w.
Proof. unfold Concurrent.nestlandReleases, Fetch.nestlandReleases. repeat alone_step. Qed.

(** [all()] run alone. *)
Lemma alone_all (u : RegistryUrl) (w : World) :
  alone (Concurrent.all net sort_desc u) w = Fetch.all net sort_desc u w.
Proof.
  unfold Concurrent.all, Fetch.all.
  destruct (ctor u);
    unfold Concurrent.DenoLand_all, Fetch.DenoLand_all, Concurrent.Jsr_all, Fetch.Jsr_all,
      Concurrent.Npm_all, Fetch.Npm_all;
    repeat first
      [ rewrite alone_githubReleases
      | rewrite alone_gitlabReleases
      | rewrite alone_unpkgVersions
      | rewrite alone_nestlandReleases
      | alone_step ].
Qed.

(** [pkgInfo] run alone. *)
Lemma alone_pkgInfo (specifier : string) (allowPre : bool) (w : World) :
  alone (Concurrent.pkgInfo net sort_desc specifier allowPre) w
  = Upgrade.pkgInfo net sort_desc specifier allowPre w.
Proof.
  unfold Concurrent.pkgInfo, Upgrade.pkgInfo.
  repeat first [ rewrite alone_all | alone_step ].
Qed.
End Alone.

(* ===================================================================== *)
(** ** The pass with its calls in flight together *)
(* ===================================================================== *)

Section PassFacts.
Import Concurrent.
Variable pkgInfo : string -> bool -> started World (option Info).
Variable canParse : string -> bool.
Variable lessThan : string -> string -> completion bool.
Variable args : list string.
Variable allow_pre : bool.
Variable logs : bool.

Let step := step canParse args logs.
Let steps := steps canParse args logs.

Lemma get_set_same (m : DependencyMap) (pkg v : string) : get (set m pkg v) pkg = Some v.
Proof.
  induction m as [|[k0 v0] m IH]; simpl.
  - rewrite String.eqb_refl. reflexivity.
  - destruct (String.eqb k0 pkg) eqn:E; simpl; rewrite E; [reflexivity|exact IH].
Qed.

Lemma get_elem_of (m : DependencyMap) (pkg v : string) :
  NoDup (map fst m) -> (pkg, v) ∈ m -> get m pkg = Some v.
Proof.
  induction m as [|[k0 v0] m IH]; simpl; intros Hnd Hin.
  - inversion Hin.
  - apply NoDup_cons in Hnd as [Hk Hnd].
    apply elem_of_cons in Hin as [Heq|Hin].
    + inversion Heq; subst. rewrite String.eqb_refl. reflexivity.
    + destruct (String.eqb k0 pkg) eqn:E; [|apply IH; assumption].
      apply String.eqb_eq in E. subst k0. exfalso. apply Hk.
      apply list_elem_of_In, in_map_iff. exists (pkg, v).
      split; [reflexivity|apply list_elem_of_In, Hin].
Qed.

Lemma get_in_keys (m : DependencyMap) (pkg v : string) :
  get m pkg = Some v -> pkg ∈ map fst m.
Proof.
  induction m as [|[k0 v0] m IH]; simpl; [discriminate|].
  destruct (String.eqb k0 pkg) eqn:E.
  - apply String.eqb_eq in E. subst. intros _. left.
  - intros H. right. apply IH, H.
Qed.

(** What a callback does to the map once it has its [info]. *)
Lemma after_info_cases (pkg specifier : string) (info : option Info) (r r' : Run)
    (c : completion unit) :
  after_info canParse args logs pkg info r = (c, r') ->
  world r' = world r /\
  ((c = Normal tt /\ imports r' = imports r /\
    entry_after canParse args specifier info = specifier) \/
   (c = Normal tt /\
    imports r' = set (imports r) pkg (entry_after canParse args specifier info)) \/
   (exists e, c = Throw e /\ imports r' = imports r)).
Proof.
  unfold after_info, entry_after. destruct info as [info|];
    [|intros H; inversion H; split; [|left]; repeat split].
  destruct (truthy (latest info)); cbn [negb andb];
    [|intros H; inversion H; split; [|left]; repeat split].
  destruct (canParse_value canParse (current info)), (includes args "force");
    cbn [negb andb orb];
    try (destruct (negb (bool_decide (current info = latest info)));
         [|intros H; inversion H; split; [|left]; repeat split];
         unfold abind, logger, logged, mark_found, lift, assign;
         destruct (at_ (info_url info) (show_value (latest info))) as [u'|e];
         intros H; inversion H; destruct logs; cbn [world imports];
         (split; [reflexivity|]);
         first [right; left; split; reflexivity
               |right; right; eexists; split; reflexivity]).
  unfold logger, logged. intros H; inversion H.
  destruct logs; (split; [reflexivity|left; repeat split]).
Qed.

Section Invariant.
Variable importMap : DependencyMap.
Variable deps : regex.
Hypothesis Hkeys : NoDup (map fst importMap).

Let invariant := pass_invariant canParse args importMap deps.

Lemma launch_callbacks (l : list (string * string)) (r : Run) :
  map (fun cb => (cb_alias cb, cb_specifier cb)) (launch pkgInfo allow_pre l r).1 = l /\
  Forall (fun cb => cb_done cb = None) (launch pkgInfo allow_pre l r).1 /\
  imports (launch pkgInfo allow_pre l r).2 = imports r.
Proof.
  revert r. induction l as [|[pkg specifier] l IH]; intros r; cbn [launch].
  - repeat split. constructor.
  - destruct (pkgInfo specifier allow_pre (world r)) as [t w].
    destruct (IH (with_world r w)) as (H1 & H2 & H3).
    destruct (launch pkgInfo allow_pre l (with_world r w)) as [cbs r'].
    cbn [fst snd] in *. repeat split.
    + cbn [map cb_alias cb_specifier]. rewrite H1. reflexivity.
    + constructor; [reflexivity|exact H2].
    + exact H3.
Qed.

Lemma invariant_launched (w : World) :
  invariant (launched pkgInfo allow_pre importMap logs deps w).
Proof.
  unfold invariant, pass_invariant, launched. cbv zeta.
  set (r0 := logged logs _ _).
  assert (Hr0 : imports r0 = importMap) by (unfold r0, logged; destruct logs; reflexivity).
  rewrite Hr0.
  destruct (launch_callbacks (selected deps importMap) r0) as (H1 & H2 & H3).
  destruct (launch pkgInfo allow_pre (selected deps importMap) r0) as [cbs r1].
  cbn [fst snd callbacks state] in *. rewrite H3, Hr0.
  split; [reflexivity|]. split; [reflexivity|]. split; [exact H1|].
  apply Forall_forall. intros cb Hcb. unfold entry_of.
  rewrite Forall_forall in H2. rewrite (H2 cb Hcb).
  apply get_elem_of; [exact Hkeys|].
  assert (Hin : (cb_alias cb, cb_specifier cb) ∈ selected deps importMap).
  { rewrite <- H1. apply list_elem_of_fmap. exists cb. split; [reflexivity|exact Hcb]. }
  unfold selected in Hin. apply list_elem_of_filter in Hin as [_ Hin]. exact Hin.
Qed.

Lemma selected_NoDup : NoDup (map fst (selected deps importMap)).
Proof.
  unfold selected. clear invariant. induction importMap as [|[k v] m IH]; [constructor|].
  cbn [map fst] in Hkeys. apply NoDup_cons in Hkeys as [Hk Hnd].
  rewrite filter_cons. destruct (decide (test deps (k, v).1 = true)).
  - cbn [map fst]. apply NoDup_cons. split; [|apply IH, Hnd].
    intros Hin. apply Hk. apply list_elem_of_In, in_map_iff in Hin as ([k' v'] & Hf & Hin).
    cbn in Hf. subst k'. apply list_elem_of_In, list_elem_of_filter in Hin as [_ Hin].
    apply list_elem_of_In, in_map_iff. exists (k, v'). split; [reflexivity|].
    apply list_elem_of_In, Hin.
  - apply IH, Hnd.
Qed.

Lemma callbacks_selected (p : Pass) (i : nat) (cb : callback) :
  invariant p -> callbacks p !! i = Some cb ->
  test deps (cb_alias cb) = true /\
  forall j cb', callbacks p !! j = Some cb' -> j <> i -> cb_alias cb' <> cb_alias cb.
Proof.
  intros (_ & _ & H3 & _) Hi. split.
  - assert (Hin : (cb_alias cb, cb_specifier cb) ∈ selected deps importMap).
    { rewrite <- H3. apply list_elem_of_fmap. exists cb.
      split; [reflexivity|]. eapply list_elem_of_lookup_2, Hi. }
    exact (proj1 (selected_keys _ _ _ _ Hin)).
  - intros j cb' Hj Hne Heq.
    pose proof selected_NoDup as Hnd. rewrite <- H3, map_map in Hnd. cbn [fst] in Hnd.
    apply Hne. eapply (NoDup_lookup _ j i (cb_alias cb)); [exact Hnd| |].
    + change (map ?f ?l) with (f <$> l). rewrite list_lookup_fmap, Hj. cbn. congruence.
    + change (map ?f ?l) with (f <$> l). rewrite list_lookup_fmap, Hi. reflexivity.
Qed.

(** The invariant once the callback of index [i] has its entry changed or
    kept, the other entries being as they were. *)
Lemma invariant_update (p : Pass) (i : nat) (cb cb' : callback) (r' : Run)
    (first : option exn) :
  invariant p -> callbacks p !! i = Some cb ->
  cb_alias cb' = cb_alias cb -> cb_specifier cb' = cb_specifier cb ->
  (imports r' = imports (state p) \/
   exists v, imports r' = set (imports (state p)) (cb_alias cb) v) ->
  entry_of canParse args (imports r') cb' ->
  invariant {| callbacks := <[i := cb']> (callbacks p); state := r'; rejected := first |}.
Proof.
  intros Hinv Hi Ha Hs Himp Hcb.
  destruct (callbacks_selected p i cb Hinv Hi) as [Ht Hother].
  destruct Hinv as (H1 & H2 & H3 & H4).
  assert (Hin : cb_alias cb ∈ map fst (imports (state p))).
  { rewrite Forall_forall in H4.
    specialize (H4 cb (list_elem_of_lookup_2 _ _ _ Hi)). unfold entry_of in H4.
    destruct (cb_done cb) as [[[]|e]|]; [destruct H4 as (info & _ & H4)| |];
      exact (get_in_keys _ _ _ H4). }
  unfold invariant, pass_invariant. cbn [callbacks state]. repeat split.
  - destruct Himp as [->|[v ->]]; [exact H1|]. rewrite set_keys; [exact H1|exact Hin].
  - intros pkg Hp. destruct Himp as [->|[v ->]]; [exact (H2 pkg Hp)|].
    rewrite get_set_other; [exact (H2 pkg Hp)|]. intros ->. congruence.
  - rewrite <- H3. change (map ?f ?l) with (f <$> l).
    rewrite list_fmap_insert, Ha, Hs. apply list_insert_id.
    rewrite list_lookup_fmap, Hi. reflexivity.
  - apply Forall_lookup. intros j x Hj.
    destruct (decide (j = i)) as [->|Hne].
    + rewrite list_lookup_insert_eq in Hj by (eapply lookup_lt_Some, Hi).
      inversion Hj; subst. exact Hcb.
    + rewrite list_lookup_insert_ne in Hj by congruence.
      rewrite Forall_lookup in H4. specialize (H4 j x Hj).
      assert (Hx : get (imports r') (cb_alias x) = get (imports (state p)) (cb_alias x)).
      { destruct Himp as [->|[v ->]]; [reflexivity|].
        apply get_set_other. exact (Hother j x Hj Hne). }
      unfold entry_of in *. rewrite Hx. exact H4.
Qed.

Lemma invariant_step (p : Pass) (i : nat) : invariant p -> invariant (step p i).
Proof.
  intros Hinv. unfold step, Concurrent.step.
  destruct (callbacks p !! i) as [cb|] eqn:Hi; [|exact Hinv].
  destruct (cb_done cb) as [c0|] eqn:Hd; [exact Hinv|].
  assert (Hcb : get (imports (state p)) (cb_alias cb) = Some (cb_specifier cb)).
  { destruct Hinv as (_ & _ & _ & H4). rewrite Forall_forall in H4.
    specialize (H4 cb (list_elem_of_lookup_2 _ _ _ Hi)).
    unfold entry_of in H4. rewrite Hd in H4. exact H4. }
  unfold step_callback. destruct (cb_info cb) as [[info|e]|effect next] eqn:Hc.
  - unfold abind, lift.
    destruct (after_info canParse args logs (cb_alias cb) info (state p)) as [c' r'] eqn:E.
    destruct (after_info_cases (cb_alias cb) (cb_specifier cb) info _ _ _ E)
      as (_ & [(-> & Himp & He)|[(-> & Himp)|(e & -> & Himp)]]).
    + eapply invariant_update; [exact Hinv|exact Hi|reflexivity|reflexivity| |].
      * left. exact Himp.
      * unfold entry_of. cbn [cb_done cb_info cb_alias cb_specifier].
        exists info. split; [reflexivity|]. rewrite Himp, He. exact Hcb.
    + eapply invariant_update; [exact Hinv|exact Hi|reflexivity|reflexivity| |].
      * right. eexists. exact Himp.
      * unfold entry_of. cbn [cb_done cb_info cb_alias cb_specifier].
        exists info. split; [reflexivity|]. rewrite Himp. apply get_set_same.
    + eapply invariant_update; [exact Hinv|exact Hi|reflexivity|reflexivity| |].
      * left. exact Himp.
      * unfold entry_of. cbn [cb_done cb_alias cb_specifier]. rewrite Himp. exact Hcb.
  - unfold abind, lift.
    eapply invariant_update; [exact Hinv|exact Hi|reflexivity|reflexivity| |].
    + left. reflexivity.
    + unfold entry_of. cbn [cb_done cb_alias cb_specifier]. exact Hcb.
  - eapply invariant_update; [exact Hinv|exact Hi|reflexivity|reflexivity| |].
    + left. reflexivity.
    + unfold entry_of. cbn [cb_done cb_alias cb_specifier]. exact Hcb.
Qed.

Lemma invariant_steps (schedule : list nat) (p : Pass) :
  invariant p -> invariant (steps schedule p).
Proof.
  revert p. induction schedule as [|i l IH]; intros p Hp; [exact Hp|].
  apply IH, invariant_step, Hp.
Qed.
End Invariant.

(** The rejection of the join, once there, stays; a callback that has
    settled stays settled. *)
Lemma rejected_step (p : Pass) (i : nat) (e : exn) :
  rejected p = Some e -> rejected (step p i) = Some e.
Proof.
  intros H. unfold step, Concurrent.step.
  destruct (callbacks p !! i) as [cb|]; [|exact H].
  destruct (cb_done cb); [exact H|].
  destruct (step_callback canParse args logs cb (state p)) as [cb' r'].
  cbn [rejected]. rewrite H. reflexivity.
Qed.

Lemma rejected_steps (schedule : list nat) (p : Pass) :
  rejected (steps schedule p) = None -> rejected p = None.
Proof.
  revert p. induction schedule as [|i l IH]; intros p H; [exact H|].
  assert (H' : rejected (step p i) = None) by exact (IH _ H).
  destruct (rejected p) as [e|] eqn:E; [|reflexivity].
  pose proof (rejected_step p i e E). congruence.
Qed.

Lemma waiting_step (p : Pass) (i j : nat) (cb : callback) :
  callbacks (step p i) !! j = Some cb -> cb_done cb = None ->
  exists cb0, callbacks p !! j = Some cb0 /\ cb_done cb0 = None.
Proof.
  unfold step, Concurrent.step.
  destruct (callbacks p !! i) as [cbi|] eqn:Hi; [|eauto].
  destruct (cb_done cbi) eqn:Hd; [eauto|].
  destruct (step_callback canParse args logs cbi (state p)) as [cb' r'].
  cbn [callbacks]. intros Hj Hn.
  destruct (decide (j = i)) as [->|Hne]; [eauto|].
  rewrite list_lookup_insert_ne in Hj by congruence. eauto.
Qed.

Lemma waiting_steps (schedule : list nat) (p : Pass) (j : nat) (cb : callback) :
  callbacks (steps schedule p) !! j = Some cb -> cb_done cb = None ->
  exists cb0, callbacks p !! j = Some cb0 /\ cb_done cb0 = None.
Proof.
  revert p. induction schedule as [|i l IH]; intros p Hj Hn; [eauto|].
  destruct (IH _ Hj Hn) as (cb1 & H1 & Hn1). exact (waiting_step p i j cb1 H1 Hn1).
Qed.

Lemma waiting_not_all_done (p : Pass) (j : nat) (cb : callback) :
  callbacks p !! j = Some cb -> cb_done cb = None -> all_done p = false.
Proof.
  intros Hj Hn. unfold all_done. apply not_true_is_false. intros H.
  rewrite forallb_forall in H. specialize (H cb).
  rewrite Hn in H. apply bool_decide_eq_true in H; [destruct H; discriminate|].
  apply list_elem_of_In. eapply list_elem_of_lookup_2, Hj.
Qed.

(** The join on a schedule whose step [i] is the first in which a callback
    throws. *)
Lemma await_all_rejected (schedule : list nat) (p : Pass) (e : exn) :
  rejected p = Some e ->
  await_all canParse args logs schedule p = (Some (Throw e), p, schedule).
Proof. intros H. destruct schedule; cbn [await_all]; rewrite H; reflexivity. Qed.

Lemma await_all_first_throw (before after : list nat) (i : nat) (p : Pass) (e : exn) :
  rejected (steps before p) = None ->
  rejected (step (steps before p) i) = Some e ->
  await_all canParse args logs (before ++ i :: after) p
  = (Some (Throw e), step (steps before p) i, after).
Proof.
  intros Hn Hr.
  assert (Hw : exists cb, callbacks (steps before p) !! i = Some cb /\ cb_done cb = None).
  { unfold step, Concurrent.step in Hr.
    destruct (callbacks (steps before p) !! i) as [cb|] eqn:Hi; [|congruence].
    destruct (cb_done cb) eqn:Hd; [congruence|]. eauto. }
  destruct Hw as (cb & Hi & Hd).
  revert p Hn Hr Hi. induction before as [|b l IH]; intros p Hn Hr Hi.
  - cbn [app]. cbn [steps Concurrent.steps fold_left] in *.
    cbn [await_all]. rewrite Hn, (waiting_not_all_done _ _ _ Hi Hd).
    apply await_all_rejected, Hr.
  - change (steps (b :: l) p) with (steps l (step p b)) in *.
    destruct (waiting_steps _ _ _ _ Hi Hd) as (cb1 & H1 & Hd1).
    destruct (waiting_step _ _ _ _ H1 Hd1) as (cb0 & H0 & Hd0).
    cbn [app await_all].
    rewrite (rejected_steps [b] p (rejected_steps l _ Hn)).
    rewrite (waiting_not_all_done _ _ _ H0 Hd0).
    apply (IH (step p b) Hn Hr Hi).
Qed.
End PassFacts.

(** C6. When the version fetch of a selected entry fails, its callback
    throws what the fetch threw, and when no callback has thrown before,
    [upgradeDeps] fails with that error: nothing is returned and the
    minimum-version pass is not run. The map of that moment holds the keys
    it had; the entries the inclusion pattern rejects are as they were; the
    entry of every callback that had returned before holds the address its
    rewrite gave it ([entry_after]), nothing being rolled back; the entry of
    the callback that threw and of every callback still waiting is the
    specifier it was launched with. [Promise.all] cancels nothing: the
    callbacks still waiting go on with the steps that are left, and the same
    holds of the map once they are taken. *)
Theorem upgradeDeps_failure_keeps_settled_rewrites
    (pkgInfo : string -> bool -> Concurrent.started World (option Info))
    (canParse : string -> bool) (lessThan : string -> string -> completion bool)
    (args : list string) (allow_pre : bool)
    (importMap : DependencyMap) (logs : bool) (deps : regex) (w : World)
    (before after : list nat) (i : nat) (cb : Concurrent.callback) (e : exn) :
  NoDup (map fst importMap) ->
  let p1 :=
    Concurrent.steps canParse args logs before
      (Concurrent.launched pkgInfo allow_pre importMap logs deps w) in
  Concurrent.rejected p1 = None ->
  Concurrent.callbacks p1 !! i = Some cb ->
  Concurrent.cb_done cb = None ->
  Concurrent.cb_info cb = Concurrent.Settled (Throw e) ->
  let failed := Concurrent.step canParse args logs p1 i in
  let out :=
    Concurrent.upgradeDeps pkgInfo canParse lessThan args allow_pre
      importMap logs deps (before ++ i :: after) w in
  Concurrent.result out = Some (Throw e) /\
  Concurrent.at_result out = Concurrent.state failed /\
  imports (Concurrent.state failed) = imports (Concurrent.state p1) /\
  pass_invariant canParse args importMap deps failed /\
  Concurrent.final out = Concurrent.steps canParse args logs after failed /\
  pass_invariant canParse args importMap deps (Concurrent.final out).
Proof.
  intros Hkeys p1 Hnone Hi Hd Hc failed out.
  assert (Hfailed : failed
            = {| Concurrent.callbacks :=
                   <[i := {| Concurrent.cb_alias := Concurrent.cb_alias cb;
                             Concurrent.cb_specifier := Concurrent.cb_specifier cb;
                             Concurrent.cb_info := Concurrent.cb_info cb;
                             Concurrent.cb_done := Some (Throw e) |}]>
                     (Concurrent.callbacks p1);
                 Concurrent.state := Concurrent.state p1;
                 Concurrent.rejected := Some e |}).
  { subst failed. unfold Concurrent.step. rewrite Hi, Hd.
    unfold Concurrent.step_callback. rewrite Hc. unfold abind, lift.
    cbn [Concurrent.cb_done]. rewrite Hnone. reflexivity. }
  assert (Hr : Concurrent.rejected failed = Some e) by (rewrite Hfailed; reflexivity).
  assert (Hinv : pass_invariant canParse args importMap deps failed).
  { apply invariant_step; [exact Hkeys|]. apply invariant_steps; [exact Hkeys|].
    apply invariant_launched. exact Hkeys. }
  assert (Hout : out
            = {| Concurrent.result := Some (Throw e);
                 Concurrent.at_result := Concurrent.state failed;
                 Concurrent.final := Concurrent.steps canParse args logs after failed |}).
  { subst out. unfold Concurrent.upgradeDeps.
    rewrite (await_all_first_throw canParse args logs before after i _ e Hnone Hr).
    reflexivity. }
  rewrite Hout. cbn [Concurrent.result Concurrent.at_result Concurrent.final].
  split; [reflexivity|]. split; [reflexivity|].
  split; [rewrite Hfailed; reflexivity|]. split; [exact Hinv|].
  split; [reflexivity|]. apply invariant_steps; [exact Hkeys|exact Hinv].
Qed.

Lemma upgradeDeps_failure_keeps_settled_rewrites_witness :
  let importMap :=
    [("@deco/a", "jsr:@deco/a@1.0.0"); ("@deco/b", "jsr:@deco/b@1.0.0");
     ("@deco/c", "jsr:@deco/c@1.0.0")] in
  let out :=
    Concurrent.upgradeDeps
      (Concurrent.pkgInfo (jsr_only "@deco/c" ["1.0.0"; "1.3.0"; "1.1.0"])
         (semver_sort parse3 compare3))
      canParse3 no_lessThan [] false importMap true PACKAGES_TO_CHECK
      ([0; 0; 1; 1; 1] ++ 1 :: [2; 2; 2; 2; 2; 2; 2; 2])
      (jsr_known "@deco/a" ["1.2.0"; "1.0.0"]) in
  Concurrent.result out = Some (Throw TypeError) /\
  imports (Concurrent.at_result out)
  = [("@deco/a", "jsr:@deco/a@1.2.0"); ("@deco/b", "jsr:@deco/b@1.0.0");
     ("@deco/c", "jsr:@deco/c@1.0.0")] /\
  pass_invariant canParse3 [] importMap PACKAGES_TO_CHECK (Concurrent.final out) /\
  imports (Concurrent.state (Concurrent.final out))
  = [("@deco/a", "jsr:@deco/a@1.2.0"); ("@deco/b", "jsr:@deco/b@1.0.0");
     ("@deco/c", "jsr:@deco/c@1.3.0")].
Proof.
  cbv zeta.
  destruct (upgradeDeps_failure_keeps_settled_rewrites
              (Concurrent.pkgInfo (jsr_only "@deco/c" ["1.0.0"; "1.3.0"; "1.1.0"])
                 (semver_sort parse3 compare3))
              canParse3 no_lessThan [] false
              [("@deco/a", "jsr:@deco/a@1.0.0"); ("@deco/b", "jsr:@deco/b@1.0.0");
               ("@deco/c", "jsr:@deco/c@1.0.0")]
              true PACKAGES_TO_CHECK (jsr_known "@deco/a" ["1.2.0"; "1.0.0"])
              [0; 0; 1; 1; 1] [2; 2; 2; 2; 2; 2; 2; 2] 1
              {| Concurrent.cb_alias := "@deco/b";
                 Concurrent.cb_specifier := "jsr:@deco/b@1.0.0";
                 Concurrent.cb_info := Concurrent.Settled (Throw TypeError);
                 Concurrent.cb_done := None |}
              TypeError)
    as (Hres & Hat & Himp & _ & Hfinal & Hinv).
  - apply (bool_decide_unpack _). vm_compute. exact I.
  - vm_compute. reflexivity.
  - vm_compute. reflexivity.
  - reflexivity.
  - reflexivity.
  - split; [exact Hres|]. split; [|split; [exact Hinv|]].
    + rewrite Hat, Himp. vm_compute. reflexivity.
    + rewrite Hfinal. vm_compute. reflexivity.
Defined.

(** Two entries with their calls in flight together: the versions of
    [@deco/a] are known, so its callback returns without waiting for the
    network; the request for [@deco/b], sent at launch, fails afterwards. The
    run fails, and the rewrite of [@deco/a] is in the map. *)
Lemma concurrent_partial_rewrite_on_failure :
  let importMap := [("@deco/a", "jsr:@deco/a@1.0.0"); ("@deco/b", "jsr:@deco/b@1.0.0")] in
  let out :=
    Concurrent.upgradeDeps (Concurrent.pkgInfo offline no_sort) canParse3 no_lessThan
      [] false importMap true PACKAGES_TO_CHECK [0; 0; 1; 1; 1; 1]
      (jsr_known "@deco/a" ["1.2.0"; "1.0.0"]) in
  Concurrent.result out = Some (Throw TypeError) /\
  imports (Concurrent.at_result out)
  = [("@deco/a", "jsr:@deco/a@1.2.0"); ("@deco/b", "jsr:@deco/b@1.0.0")].
Proof. vm_compute. split; reflexivity. Qed.

(** Every request is sent when the callbacks are launched, before any of
    them is resumed; two aliases of one package send two requests, the cache
    being empty when each call reads it. *)
Lemma launched_sends_every_request :
  let importMap :=
    [("@deco/a", "jsr:@deco/a@1.0.0"); ("@deco/b", "jsr:@deco/b@1.0.0");
     ("@deco/c", "jsr:@deco/b@1.1.0")] in
  let p :=
    Concurrent.launched (Concurrent.pkgInfo offline no_sort) false importMap true
      PACKAGES_TO_CHECK start in
  requests (world (Concurrent.state p))
  = ["https://jsr.io/@deco/b/meta.json"; "https://jsr.io/@deco/b/meta.json";
     "https://jsr.io/@deco/a/meta.json"] /\
  Forall (fun cb => Concurrent.cb_done cb = None) (Concurrent.callbacks p).
Proof. vm_compute. split; [reflexivity|]. repeat constructor. Qed.

(** A single selected entry: with its one call in flight the run resolves
    as it does when the call is run at once, to the same map. *)
Lemma concurrent_single_entry :
  let out :=
    Concurrent.upgradeDeps (Concurrent.pkgInfo offline no_sort) canParse3 no_lessThan
      [] false [("@scope/pkg", "jsr:@scope/pkg@^1.0.0")] true
      (cat [lit "@scope/"; Star true Any]) [0; 0]
      (jsr_known "@scope/pkg" ["1.2.0"; "1.0.0"]) in
  Concurrent.result out = Some (Normal true) /\
  imports (Concurrent.at_result out) = [("@scope/pkg", "jsr:@scope/pkg@1.2.0")].
Proof. vm_compute. split; reflexivity. Qed.

(* ===================================================================== *)
(** ** Further properties of the registry classes *)
(* ===================================================================== *)

Section SearchFacts.
Implicit Types (s a b t : string) (f g : ascii -> bool) (pos : nat).

(** A lazy run that reaches a character it cannot take before its
    continuation can start fails. *)
Lemma star_lazy_blocked f g a (c : ascii) t pos
    (k : nat -> string -> option mstate) :
  all_chars g a = true -> g c = true -> f c = false ->
  (forall p x t', g x = true -> k p (String x t') = None) ->
  star_lazy f pos (a +:+ String c t) k = None.
Proof.
  intros Ha Hc Hf Hk. revert pos. induction a as [|x a IH]; intros pos.
  - change ("" +:+ String c t) with (String c t). simpl.
    rewrite (Hk pos c t Hc), Hf. reflexivity.
  - rewrite app_cons. simpl in Ha. apply andb_true_iff in Ha as [Hx Ha].
    simpl. rewrite (Hk pos x _ Hx). destruct (f x); [apply IH, Ha|reflexivity].
Qed.

Lemma star_greedy_accepts f pos s (cs : caps) :
  exists e rest, star_greedy f pos s (fun p s' => accept p s' cs) = Some (e, rest, cs).
Proof.
  revert pos. induction s as [|c s IH]; intros pos; simpl.
  - eexists _, _. reflexivity.
  - destruct (f c); [|eexists _, _; reflexivity].
    destruct (IH (S pos)) as (e & rest & ->). eexists _, _. reflexivity.
Qed.

Lemma name_re_blocked pos a t :
  all_chars not_at a = true -> run name_re pos (a +:+ String "/" t) [] accept = None.
Proof.
  intros Ha. unfold name_re. cbn [cat lit]. rewrite run_Seq, run_Group, run_Star.
  unfold star. apply (star_lazy_blocked _ not_at); [exact Ha|reflexivity|reflexivity|].
  intros p x t' Hx. rewrite run_Seq. apply run_One_no.
  unfold not_at in Hx. apply negb_true_iff in Hx. exact Hx.
Qed.

Lemma name_re_at pos name rest :
  all_chars (accepts not_slash_quote) name = true -> all_chars not_at name = true ->
  exists e rest',
    run name_re pos (name +:+ String "@" rest) [] accept = Some (e, rest', [(1, name)]).
Proof.
  intros Hn Ha. unfold name_re. cbn [cat lit].
  destruct (star_greedy_accepts (accepts not_quote) (S (pos + String.length name)) rest
              [(1, name)]) as (e & rest' & He).
  exists e, rest'. rewrite run_Seq, run_Group, run_Star. unfold star.
  apply (star_lazy_run _ not_at); [exact Hn|exact Ha| |].
  - intros p x t Hx. rewrite run_Seq. apply run_One_no.
    unfold not_at in Hx. apply negb_true_iff in Hx. exact Hx.
  - rewrite run_Seq, run_One_ok by reflexivity. rewrite run_Star. unfold star.
    replace (pos + String.length name - pos) with (String.length name) by lia.
    rewrite take_app. exact He.
Qed.

Lemma search_name_re pos pre name rest :
  all_chars not_at pre = true ->
  all_chars (accepts not_slash_quote) name = true -> all_chars not_at name = true ->
  exists m, search name_re pos (pre +:+ String "/" (name +:+ String "@" rest)) = Some m /\
            m_caps m = [(1, name)].
Proof.
  intros Hp Hn Ha. revert pos Hp. induction pre as [|c pre IH]; intros pos Hp.
  - change ("" +:+ ?s) with s. cbn [search].
    pose proof (name_re_blocked pos "" (name +:+ String "@" rest) eq_refl) as Hb.
    change ("" +:+ ?s) with s in Hb. rewrite Hb.
    destruct (name_re_at (S pos) name rest Hn Ha) as (e & rest' & He).
    rewrite (search_here _ _ _ _ _ _ He). eexists. split; reflexivity.
  - pose proof (name_re_blocked pos (String c pre) (name +:+ String "@" rest) Hp) as Hb.
    rewrite app_cons in Hb. rewrite app_cons. cbn [search]. rewrite Hb.
    simpl in Hp. apply andb_true_iff in Hp as [_ Hp]. apply IH, Hp.
Qed.

Lemma search_without_at (r : regex) pos s :
  (forall p, run r p "" [] accept = None) ->
  (forall p c t, not_at c = true -> run r p (String c t) [] accept = None) ->
  all_chars not_at s = true -> search r pos s = None.
Proof.
  intros He Hc. revert pos. induction s as [|c s IH]; intros pos Hs; cbn [search].
  - rewrite He. reflexivity.
  - simpl in Hs. apply andb_true_iff in Hs as [H1 H2].
    rewrite (Hc _ _ _ H1). apply IH, H2.
Qed.
End SearchFacts.

(** X4. [defaultName] reads the name of the package from the last path
    segment before the first at sign: on a specifier [prefix/name@rest] whose
    prefix has no at sign and whose name has no slash, quote or at sign, it
    returns [name], whatever follows the at sign. *)
Theorem defaultName_segment_before_at (R : RegistryCtor) (pre name rest : string) :
  all_chars not_at pre = true ->
  all_chars (accepts not_slash_quote) name = true -> all_chars not_at name = true ->
  defaultName (new R (pre +:+ String "/" (name +:+ String "@" rest)))
  = Normal (VString name).
Proof.
  intros Hp Hn Ha. unfold defaultName, match_. cbn [url].
  destruct (search_name_re 0 pre name rest Hp Hn Ha) as (m & -> & Hm).
  rewrite Hm. reflexivity.
Qed.

Lemma defaultName_segment_before_at_witness :
  defaultName (new Denopkg "https://denopkg.com/owner/repo@v1.0.0/mod.ts")
  = Normal (VString "repo").
Proof.
  apply (defaultName_segment_before_at Denopkg "https://denopkg.com/owner" "repo"
           "v1.0.0/mod.ts"); reflexivity.
Defined.

(** X5. On a specifier without an at sign the two default helpers part
    ways: [defaultAt] returns the specifier as it is, for every version asked
    for, and [defaultVersion] throws the version-not-found error. *)
Theorem default_helpers_without_at_sign (R : RegistryCtor) (s v : string) :
  all_chars not_at s = true ->
  defaultAt (new R s) v = s /\
  defaultVersion (new R s) = Throw (version_not_found s).
Proof.
  intros Hs. split.
  - unfold defaultAt, replace. cbn [url].
    rewrite (search_without_at at_re 0 s); [reflexivity| |exact at_re_skip|exact Hs].
    reflexivity.
  - unfold defaultVersion, match_. cbn [url].
    rewrite (search_without_at version_re 0 s);
      [reflexivity| |exact version_re_skip|exact Hs].
    reflexivity.
Qed.

Lemma default_helpers_without_at_sign_witness :
  defaultAt (new Unpkg "https://unpkg.com/foo/index.js") "2.0.0"
  = "https://unpkg.com/foo/index.js" /\
  defaultVersion (new Unpkg "https://unpkg.com/foo/index.js")
  = Throw (version_not_found "https://unpkg.com/foo/index.js").
Proof.
  apply (default_helpers_without_at_sign Unpkg "https://unpkg.com/foo/index.js" "2.0.0").
  reflexivity.
Defined.

(** X6. The nine variants built on the default helpers, on every
    specifier [prefix@old/rest] whose prefix has no at sign: [at(v)] is the
    same class on [prefix@v/rest], only the version segment is replaced, and
    [version()] of the result is [v]. *)
Theorem default_variants_replace_version_segment (R : RegistryCtor)
    (pre old rest v : string) :
  default_variant R = true ->
  all_chars not_at pre = true ->
  all_chars (accepts Any) old = true -> all_chars not_slash_char old = true ->
  valid_version v = true ->
  at_ (new R (pre +:+ String "@" (old +:+ String "/" rest))) v
  = Normal (new R (pre +:+ String "@" (v +:+ String "/" rest))) /\
  version (new R (pre +:+ String "@" (v +:+ String "/" rest))) = Normal (VString v).
Proof.
  intros HR Hp Ha Hs Hv.
  destruct (valid_version_facts v Hv) as (Hne & Hns & Hnd & _ & _).
  split.
  - destruct R; try discriminate HR; unfold at_; cbn [ctor];
      rewrite defaultAt_shape by assumption; reflexivity.
  - destruct R; try discriminate HR; unfold version; cbn [ctor];
      apply defaultVersion_shape; assumption.
Qed.

Lemma default_variants_replace_version_segment_witness :
  at_ (new EsmSh "https://esm.sh/preact@10.0.0/hooks") "10.19.2"
  = Normal (new EsmSh "https://esm.sh/preact@10.19.2/hooks") /\
  version (new EsmSh "https://esm.sh/preact@10.19.2/hooks") = Normal (VString "10.19.2").
Proof.
  apply (default_variants_replace_version_segment EsmSh "https://esm.sh/preact" "10.0.0"
           "hooks" "10.19.2"); reflexivity.
Defined.

Lemma store_lookup_before (a : list (option string)) (i j : nat) (v : string) :
  j < i -> (default "" <$> store a i v) !! j = Some (default "" (mjoin (a !! j))).
Proof.
  revert a j. induction i as [|i IH]; intros a j Hj; [lia|].
  destruct a as [|x a], j as [|j]; simpl; try reflexivity; apply IH; lia.
Qed.

Lemma store_segments (u : string) (i : nat) (v : string) :
  all_chars not_slash_char v = true ->
  split "/" (join "/" (store (Some <$> split "/" u) i v))
  = default "" <$> store (Some <$> split "/" u) i v.
Proof.
  intros Hv. change "/"%string with (String "/"%char "") at 1.
  apply split_join.
  - apply store_not_empty.
  - apply store_Forall; [reflexivity|exact Hv|apply split_pieces_some].
Qed.

(** X7. The GitHub raw variant, on every specifier and every version
    without a slash: [at(v)] is of the same class, its segments are those of
    the specifier with the sixth replaced by [v] (a shorter specifier is
    extended by empty segments), and [version()] of the result is [v]. *)
Theorem GithubRaw_at_replaces_sixth_segment (u v : string) :
  all_chars not_slash_char v = true ->
  exists u',
    at_ (new GithubRaw u) v = Normal (new GithubRaw u') /\
    split "/" u' = default "" <$> store (Some <$> split "/" u) 5 v /\
    version (new GithubRaw u') = Normal (VString v).
Proof.
  intros Hv. eexists. split; [reflexivity|]. cbn [url].
  split; [exact (store_segments u 5 v Hv)|].
  unfold version. cbn [ctor url]. rewrite (store_segments u 5 v Hv), store_lookup.
  reflexivity.
Qed.

Lemma GithubRaw_at_replaces_sixth_segment_witness :
  exists u',
    at_ (new GithubRaw "https://raw.githubusercontent.com/owner/repo/v1/mod.ts") "v2"
    = Normal (new GithubRaw u') /\
    split "/" u' = ["https:"; ""; "raw.githubusercontent.com"; "owner"; "repo"; "v2";
                    "mod.ts"] /\
    version (new GithubRaw u') = Normal (VString "v2").
Proof.
  apply (GithubRaw_at_replaces_sixth_segment
           "https://raw.githubusercontent.com/owner/repo/v1/mod.ts" "v2").
  reflexivity.
Defined.

(** X8. The GitLab variant, on every specifier and every version without
    a slash: [at(v)] stores [v] in the eighth segment and builds a GitHub raw
    instance, so [version()] of the result is the sixth segment of the
    specifier (empty when there is none), whatever [v] is. *)
Theorem GitlabRaw_at_then_version_ignores_version (u v : string) :
  all_chars not_slash_char v = true ->
  bind (at_ (new GitlabRaw u) v) version
  = Normal (VString (default "" (split "/" u !! 5))).
Proof.
  intros Hv. unfold at_. cbn [ctor bind url]. unfold version. cbn [ctor url].
  rewrite (store_segments u 7 v Hv), store_lookup_before by lia.
  rewrite list_lookup_fmap. destruct (split "/" u !! 5); reflexivity.
Qed.

Lemma GitlabRaw_at_then_version_ignores_version_witness :
  bind (at_ (new GitlabRaw "https://gitlab.com/group/project/-/raw/v1/mod.ts") "v2")
    version
  = Normal (VString "-").
Proof.
  apply (GitlabRaw_at_then_version_ignores_version
           "https://gitlab.com/group/project/-/raw/v1/mod.ts" "v2").
  reflexivity.
Defined.

(** X9. The four scoped variants, on every specifier [defaultInfo] reads
    and every version without a slash or an at sign: [at(v)] is of the same
    class and keeps the scope and the package name; only the version that
    [defaultInfo] reads changes, to [v]. *)
Theorem scoped_variants_at_keeps_scope_and_name (R : RegistryCtor) (u : string)
    (info : PackageInfo) (v : string) :
  scoped_variant R = true ->
  defaultInfo (new R u) = Normal info ->
  all_chars not_slash_char v = true -> all_chars not_at v = true ->
  exists u' info',
    at_ (new R u) v = Normal (new R u') /\
    defaultInfo (new R u') = Normal info' /\
    scope info' = scope info /\ packageName info' = packageName info /\
    version_of info' = v.
Proof.
  intros HR Hinfo Hv Hat.
  exists (join "/" (store (Some <$> parts info) 4 (packageName info +:+ "@" +:+ v))).
  assert (Hat_ : at_ (new R u) v
                 = Normal (new R (join "/" (store (Some <$> parts info) 4
                                              (packageName info +:+ "@" +:+ v))))).
  { destruct R; try discriminate HR; unfold at_, defaultScopeAt; cbn [ctor];
      rewrite Hinfo; reflexivity. }
  unfold defaultInfo in Hinfo. cbn [url] in Hinfo.
  destruct (split "/" u !! 4) as [p4|] eqn:E4; [|discriminate].
  destruct (split "/" u !! 3) as [p3|] eqn:E3; [|discriminate].
  destruct (split "@" p4 !! 0) as [name|] eqn:E0; [|discriminate].
  destruct (split "@" p4 !! 1) as [ver|] eqn:E1; [|discriminate].
  inversion Hinfo; subst info; clear Hinfo. cbn [parts packageName scope] in *.
  assert (Hp4 : all_chars not_slash_char p4 = true).
  { pose proof (split_pieces_free "/" u) as H. rewrite Forall_forall in H.
    apply H. eapply list_elem_of_lookup_2; exact E4. }
  assert (Hn1 : all_chars not_slash_char name = true).
  { pose proof (split_pieces "@" not_slash_char p4 Hp4) as H.
    rewrite Forall_forall in H. apply H. eapply list_elem_of_lookup_2; exact E0. }
  assert (Hn2 : all_chars not_at name = true).
  { pose proof (split_pieces_free "@" p4) as H. rewrite Forall_forall in H.
    apply H. eapply list_elem_of_lookup_2; exact E0. }
  assert (Hnv : all_chars not_slash_char (name +:+ "@" +:+ v) = true).
  { change (all_chars not_slash_char (name +:+ String "@" v) = true).
    rewrite all_chars_app. simpl. rewrite Hn1, Hv. reflexivity. }
  eexists. split; [exact Hat_|].
  unfold defaultInfo. cbn [url].
  rewrite (store_segments u 4 (name +:+ "@" +:+ v) Hnv), store_lookup.
  rewrite store_lookup_before by lia. rewrite list_lookup_fmap, E3.
  change (name +:+ "@" +:+ v) with (name +:+ String "@" v).
  rewrite split_app_sep by exact Hn2. rewrite split_free by exact Hat.
  cbn. repeat split.
Qed.

Lemma scoped_variants_at_keeps_scope_and_name_witness :
  exists u' info',
    at_ (new SkypackScope "https://cdn.skypack.dev/@scope/pkg@1.0.0/mod.js") "2.0.0"
    = Normal (new SkypackScope u') /\
    defaultInfo (new SkypackScope u') = Normal info' /\
    scope info' = "@scope" /\ packageName info' = "pkg" /\ version_of info' = "2.0.0".
Proof.
  refine (scoped_variants_at_keeps_scope_and_name SkypackScope
            "https://cdn.skypack.dev/@scope/pkg@1.0.0/mod.js"
            {| parts := split "/" "https://cdn.skypack.dev/@scope/pkg@1.0.0/mod.js";
               scope := "@scope"; packageName := "pkg"; version_of := "1.0.0" |}
            "2.0.0" _ _ _ _); reflexivity.
Defined.

(** X26. The jsDelivr class, on every url with a sixth segment and every
    version [v] without a slash: [at(v)] builds a GitHub raw instance whose
    sixth segment is [<repo>@<v>], so [version()] of the result is
    [<repo>@<v>] and not [v], where [<repo>] is what precedes the first at
    sign of the sixth segment of the url. *)
Theorem JsDelivr_at_then_version_keeps_repo (u p5 v : string) :
  split "/" u !! 5 = Some p5 ->
  all_chars not_slash_char v = true ->
  let repo := default "" (split "@" p5 !! 0) in
  bind (at_ (new JsDelivr u) v) version = Normal (VString (repo +:+ "@" +:+ v)).
Proof.
  intros H5 Hv repo.
  assert (Hp5 : all_chars not_slash_char p5 = true).
  { pose proof (split_pieces_free "/" u) as H. rewrite Forall_forall in H.
    apply H. eapply list_elem_of_lookup_2; exact H5. }
  assert (Hrepo : all_chars not_slash_char repo = true).
  { unfold repo. destruct (split "@" p5 !! 0) as [r|] eqn:E0; [|reflexivity].
    pose proof (split_pieces "@" not_slash_char p5 Hp5) as H.
    rewrite Forall_forall in H. apply H. eapply list_elem_of_lookup_2; exact E0. }
  assert (Hrv : all_chars not_slash_char (repo +:+ "@" +:+ v) = true).
  { change (all_chars not_slash_char (repo +:+ String "@" v) = true).
    rewrite all_chars_app. simpl. rewrite Hrepo, Hv. reflexivity. }
  unfold at_, JsDelivr_parts. cbn [ctor url]. rewrite H5. cbn [bind]. fold repo.
  unfold version. cbn [ctor url].
  rewrite (store_segments u 5 (repo +:+ "@" +:+ v) Hrv), store_lookup. reflexivity.
Qed.

Lemma JsDelivr_at_then_version_keeps_repo_witness :
  bind (at_ (new JsDelivr "https://cdn.jsdelivr.net/gh/owner/repo@v1/mod.ts") "v2") version
  = Normal (VString "repo@v2").
Proof.
  apply (JsDelivr_at_then_version_keeps_repo
           "https://cdn.jsdelivr.net/gh/owner/repo@v1/mod.ts" "repo@v1" "v2");
    reflexivity.
Defined.

(* --------------------------------------------------------------------- *)
(** *** [jsrLatest] and the [jsr:] class *)

Section JsrSpecifier.
Variables scope pkg t : string.
Variable c : ascii.
Hypothesis Hscope : scope <> "" /\ all_chars (accepts not_slash) scope = true.
Hypothesis Hpkg : pkg <> "" /\ all_chars (accepts not_at_slash) pkg = true.

(** A greedy run that reaches the end of the subject gives back its last
    character when the continuation needs one. *)
Lemma star_greedy_gives_back (f : ascii -> bool) (a : string) (pos : nat)
    (k : nat -> string -> option mstate) (r : mstate) :
  all_chars f a = true ->
  (forall p, k p "" = None) ->
  k (pos + String.length a) (String c "") = Some r ->
  star_greedy f pos (a +:+ String c "") k = Some r.
Proof.
  intros Ha Hend. revert pos. induction a as [|x a IH]; intros pos Hk.
  - change ("" +:+ ?s) with s. simpl in Hk. rewrite Nat.add_0_r in Hk.
    simpl. rewrite Hend, Hk. destruct (f c); reflexivity.
  - rewrite app_cons. simpl in Ha. apply andb_true_iff in Ha as [Hx Ha].
    simpl. rewrite Hx. rewrite (IH Ha (S pos)); [reflexivity|].
    replace (S pos + String.length a) with (pos + String.length (String x a))
      by (simpl; lia).
    exact Hk.
Qed.

(** The pattern of the class on [jsr:@scope/pkg@version]: the version group
    leaves its last character to the final one-character matcher. *)
Lemma jsr_re_scoped (pos : nat) :
  all_chars (accepts not_slash_quote) t = true -> t <> "" ->
  accepts not_quote c = true ->
  exists m,
    run jsr_re pos
      ("jsr:" +:+ String "@" (scope +:+ String "/"
                 (pkg +:+ String "@" (t +:+ String c "")))) [] accept = Some m.
Proof.
  intros Ht Hne Hc. destruct Hscope as [Hs1 Hs2], Hpkg as [Hp1 Hp2].
  destruct t as [|x t']; [congruence|].
  cbn [all_chars] in Ht. apply andb_true_iff in Ht as [Hx Ht].
  eexists. unfold jsr_re. cbn [cat]. rewrite run_Seq.
  change ("jsr:" +:+ ?s) with (String "j" (String "s" (String "r" (String ":" s)))).
  cbn [lit]. do 3 (rewrite run_Seq, run_One_ok by reflexivity).
  rewrite run_One_ok by reflexivity. cbv beta.
  rewrite run_Seq. unfold scoped_or_plain. rewrite run_Group.
  apply run_Alt_left. cbn [cat]. rewrite run_Seq, run_Eps. cbn [lit].
  rewrite run_Seq, run_One_ok by reflexivity.
  rewrite run_Seq. apply run_plus_greedy; [exact Hs1|exact Hs2|reflexivity|].
  rewrite run_Seq, run_One_ok by reflexivity.
  apply run_plus_greedy; [exact Hp1|exact Hp2|reflexivity|].
  cbv beta. rewrite run_Seq. apply run_Opt_taken.
  rewrite run_Seq, run_One_ok by reflexivity. rewrite run_Group.
  rewrite app_cons. cbn [run]. rewrite Hx. unfold star.
  apply star_greedy_gives_back; [exact Ht|reflexivity|].
  cbn [run]. rewrite Hc. unfold accept. reflexivity.
Qed.

(** The parser of the class on [jsr:@scope/pkg@version], without a path:
    the second group is the version text. *)
Lemma jsr_parse_re_scoped (v : string) :
  v <> "" -> all_chars (accepts not_slash) v = true ->
  exists m,
    match_ jsr_parse_re 3
      ("jsr:" +:+ String "@" (scope +:+ String "/" (pkg +:+ String "@" v))) = Some m /\
    m !! 2 = Some (Some v).
Proof.
  intros Hne Hv. destruct Hscope as [Hs1 Hs2], Hpkg as [Hp1 Hp2].
  assert (Hrun : exists e cs',
             run (cat [scoped_or_plain true;
                       Opt (Seq (lit "@") (Group 2 (Plus true not_slash)));
                       Group 3 (Star true Any)]) (String.length "jsr:")
               (String "@" (scope +:+ String "/" (pkg +:+ String "@" (v +:+ ""))))
               [] accept
             = Some (e, "", cs') /\ cap cs' 2 = Some v).
  { eexists _, _. split.
    - cbn [cat]. rewrite run_Seq. unfold scoped_or_plain. rewrite run_Group.
      apply run_Alt_left. cbn [cat]. rewrite run_Seq.
      rewrite run_Opt_skipped by (cbn [lit]; apply run_One_no; reflexivity).
      cbn [lit]. rewrite run_Seq, run_One_ok by reflexivity.
      rewrite run_Seq. apply run_plus_greedy; [exact Hs1|exact Hs2|reflexivity|].
      rewrite run_Seq, run_One_ok by reflexivity.
      apply run_plus_greedy; [exact Hp1|exact Hp2|reflexivity|].
      cbv beta. rewrite run_Seq. apply run_Opt_taken.
      rewrite run_Seq, run_One_ok by reflexivity. rewrite run_Group.
      apply run_plus_greedy; [exact Hne|exact Hv|reflexivity|].
      cbv beta. rewrite run_Group, run_Star. unfold star. cbn [star_greedy].
      unfold accept. reflexivity.
    - cbn [cap Nat.eqb]. f_equal.
      match goal with |- take ?n _ = _ => replace n with (String.length v) by lia end.
      apply take_app. }
  destruct Hrun as (e & cs' & Hrun & Hcap). rewrite app_nil_r in Hrun.
  unfold match_.
  rewrite (search_here _ _ _ _ _ _ (eq_trans (jsr_parse_prefix _ _) Hrun)).
  eexists. split; [reflexivity|]. simpl. rewrite Hcap. reflexivity.
Qed.
End JsrSpecifier.

Lemma version_char_unquoted (c : ascii) :
  version_char c = true ->
  accepts not_slash_quote c = true /\ accepts not_quote c = true.
Proof.
  intros H.
  assert (H1 : c <> "/"%char) by (intros ->; vm_compute in H; discriminate).
  assert (H2 : c <> "034"%char) by (intros ->; vm_compute in H; discriminate).
  assert (H3 : c <> "'"%char) by (intros ->; vm_compute in H; discriminate).
  apply Ascii.eqb_neq in H1, H2, H3.
  unfold accepts, not_slash_quote, not_quote, mem. cbn [existsb].
  rewrite H1, H2, H3. split; reflexivity.
Qed.

Lemma last_char (f g : ascii -> bool) (x : ascii) (s : string) :
  f x = true -> all_chars g s = true -> (forall c, g c = true -> f c = true) ->
  exists a c, String x s = a +:+ String c "" /\ all_chars f a = true /\
              (c = x /\ s = "" \/ g c = true).
Proof.
  intros Hx Hs Hgf. revert x Hx. induction s as [|y s IH]; intros x Hx.
  - exists "", x. repeat split. left. split; reflexivity.
  - cbn [all_chars] in Hs. apply andb_true_iff in Hs as [Hy Hs].
    destruct (IH Hs y (Hgf y Hy)) as (a & c & E & Ha & Hc).
    exists (String x a), c. rewrite E, app_cons. split; [reflexivity|].
    split; [cbn [all_chars]; rewrite Hx, Ha; reflexivity|].
    right. destruct Hc as [[-> _]|Hc]; [exact Hy|exact Hc].
Qed.

(** X24. [jsrLatest] asks [https://jsr.io/<package>/meta.json] once and
    answers [jsr:<package>@^<latest>], with the default version in place of the
    latest one when the request or the parsing of its answer fails. For a
    scoped package and a valid version, [lookup] classifies the answer as a
    [jsr:] specifier and [version()] reads the version back without the
    caret. *)
Theorem jsrLatest_is_a_jsr_specifier (net_meta : string -> option meta)
    (scope pkg defaultsTo v : string) (w : World) :
  scope <> "" /\ all_chars (accepts not_slash) scope = true ->
  pkg <> "" /\ all_chars (accepts not_at_slash) pkg = true ->
  valid_version v = true ->
  let packageName := "@" +:+ scope +:+ "/" +:+ pkg in
  let address := "https://jsr.io/" +:+ packageName +:+ "/meta.json" in
  net_meta address = Some (MetaObject (VString v)) \/
  (net_meta address = None /\ defaultsTo = v) ->
  let result := jsrLatest net_meta packageName defaultsTo w in
  let specifier := "jsr:" +:+ packageName +:+ "@^" +:+ v in
  result.1 = Normal specifier /\
  requests result.2 = address :: requests w /\
  lookup specifier REGISTRIES = Some (new Jsr specifier) /\
  version (new Jsr specifier) = Normal (VString v).
Proof.
  intros Hscope Hpkg Hv packageName address Hnet result specifier.
  assert (Hspec : specifier
                  = "jsr:" +:+ String "@" (scope +:+ String "/"
                               (pkg +:+ String "@" (String "^" v)))).
  { unfold specifier, packageName.
    change ("@" +:+ scope +:+ "/" +:+ pkg) with (String "@" (scope +:+ String "/" pkg)).
    change ("@^" +:+ v) with (String "@" (String "^" v)).
    rewrite (app_cons "@" (scope +:+ String "/" pkg)), (app_assoc scope),
      (app_cons "/" pkg).
    reflexivity. }
  split; [|split; [|split]].
  - unfold result, jsrLatest. fold address.
    destruct Hnet as [->|[-> ->]]; reflexivity.
  - unfold result, jsrLatest. fold address.
    destruct (net_meta address) as [[l|]|]; reflexivity.
  - rewrite Hspec. unfold REGISTRIES. cbn [lookup ctor regexp].
    destruct (valid_version_facts v Hv) as (Hne & _).
    destruct (last_char (accepts not_slash_quote) version_char "^" v)
      as (a & c & E & Ha & Hc);
      [reflexivity|
       apply andb_true_iff in Hv as [_ Hv]; exact Hv|
       intros c Hc; apply version_char_unquoted, Hc|].
    destruct Hc as [[_ ->]|Hc]; [congruence|].
    assert (Hna : a <> "").
    { intros ->. change ("" +:+ ?s) with s in E. inversion E. congruence. }
    rewrite E.
    destruct (jsr_re_scoped scope pkg a c Hscope Hpkg 0 Ha Hna
                (proj2 (version_char_unquoted c Hc))) as ([[e rest] cs] & Hm).
    unfold test. rewrite (search_here _ _ _ _ _ _ Hm). reflexivity.
  - rewrite Hspec. unfold version. cbn [ctor url].
    destruct (valid_version_facts v Hv) as (Hne & Hns & _).
    destruct (jsr_parse_re_scoped scope pkg Hscope Hpkg (String "^" v))
      as (m & -> & Hm); [discriminate|cbn [all_chars]; rewrite Hns; reflexivity|].
    rewrite Hm. change (mjoin (Some (Some ?x))) with (Some x).
    assert (Hcaret : startsWith (String "^" v) "^" = true).
    { unfold startsWith. cbn [String.prefix].
      destruct (ascii_dec "^" "^") as [_|Hx]; [destruct v; reflexivity|congruence]. }
    cbv beta iota. rewrite Hcaret. reflexivity.
Qed.

Lemma jsrLatest_is_a_jsr_specifier_witness :
  let result :=
    jsrLatest (fun address =>
                 if String.eqb address "https://jsr.io/@deco/deco/meta.json"
                 then Some (MetaObject (VString "1.100.2")) else None)
      "@deco/deco" "1" start in
  result.1 = Normal "jsr:@deco/deco@^1.100.2" /\
  requests result.2 = ["https://jsr.io/@deco/deco/meta.json"] /\
  lookup "jsr:@deco/deco@^1.100.2" REGISTRIES = Some (new Jsr "jsr:@deco/deco@^1.100.2") /\
  version (new Jsr "jsr:@deco/deco@^1.100.2") = Normal (VString "1.100.2").
Proof.
  refine (jsrLatest_is_a_jsr_specifier _ "deco" "deco" "1" "1.100.2" start _ _ _ _).
  - split; [discriminate|reflexivity].
  - split; [discriminate|reflexivity].
  - reflexivity.
  - left. reflexivity.
Defined.

(* --------------------------------------------------------------------- *)
(** *** [at()] of the [jsr:] and [npm:] classes on a scoped specifier *)

Section ScopedSpecifier.
Variables scope pkg old path : string.
Hypothesis Hscope : scope <> "" /\ all_chars (accepts not_slash) scope = true.
Hypothesis Hpkg : pkg <> "" /\ all_chars (accepts not_at_slash) pkg = true.
Hypothesis Hold : old <> "" /\ all_chars (accepts not_slash) old = true.
Hypothesis Hpath : all_chars (accepts Any) path = true.

(** The three groups of the parsers: the scoped name, the version, and the
    path with its slash. *)
Lemma parse_scoped_groups (slash : bool) (pos : nat) :
  exists e cs',
    run (cat [scoped_or_plain slash;
              Opt (Seq (lit "@") (Group 2 (Plus true not_slash)));
              Group 3 (Star true Any)]) pos
      (String "@" (scope +:+ String "/" (pkg +:+ String "@" (old +:+ String "/" path))))
      [] accept
    = Some (e, "", cs') /\
    cap cs' 1 = Some (String "@" (scope +:+ String "/" pkg)) /\
    cap cs' 2 = Some old /\
    cap cs' 3 = Some (String "/" path).
Proof.
  destruct Hscope as [Hs1 Hs2], Hpkg as [Hp1 Hp2], Hold as [Hv1 Hv2].
  eexists _, _. split; [|split; [|split]].
  - cbn [cat]. rewrite run_Seq. unfold scoped_or_plain. rewrite run_Group.
    apply run_Alt_left. cbn [cat]. rewrite run_Seq.
    assert (Hsl : forall k : cont,
               run (if slash then Opt (lit "/") else Eps) pos
                 (String "@" (scope +:+ String "/"
                    (pkg +:+ String "@" (old +:+ String "/" path)))) [] k
               = k pos (String "@" (scope +:+ String "/"
                    (pkg +:+ String "@" (old +:+ String "/" path)))) []).
    { intros k. destruct slash; [|apply run_Eps].
      apply run_Opt_skipped. cbn [lit]. apply run_One_no. reflexivity. }
    rewrite Hsl. cbn [lit]. rewrite run_Seq, run_One_ok by reflexivity.
    rewrite run_Seq. apply run_plus_greedy; [exact Hs1|exact Hs2|reflexivity|].
    rewrite run_Seq, run_One_ok by reflexivity.
    apply run_plus_greedy; [exact Hp1|exact Hp2|reflexivity|].
    cbv beta. rewrite run_Seq. apply run_Opt_taken.
    rewrite run_Seq, run_One_ok by reflexivity. rewrite run_Group.
    apply run_plus_greedy; [exact Hv1|exact Hv2|reflexivity|].
    cbv beta. rewrite run_Group, run_Star. unfold star.
    apply star_greedy_all; [simpl; exact Hpath|]. unfold accept. reflexivity.
  - cbn [cap Nat.eqb]. f_equal.
    transitivity (take (String.length (String "@" (scope +:+ String "/" pkg)))
                    (String "@" (scope +:+ String "/" pkg)
                     +:+ String "@" (old +:+ String "/" path))).
    + f_equal.
      * cbn [String.length]. rewrite length_app. cbn [String.length]. lia.
      * rewrite app_cons, app_assoc, app_cons. reflexivity.
    + apply take_app.
  - cbn [cap Nat.eqb]. f_equal.
    match goal with |- take ?n _ = _ => replace n with (String.length old) by lia end.
    apply take_app.
  - cbn [cap Nat.eqb]. f_equal.
    match goal with
    | |- take ?n _ = _ => replace n with (String.length (String "/" path)) by lia
    end.
    rewrite <- (app_nil_r (String "/" path)) at 2. apply take_app.
Qed.

Lemma parsed_scoped_groups (re : regex) (prefix : string) (slash : bool) :
  (forall s (k : cont),
      run re 0 (prefix +:+ s) [] k
      = run (cat [scoped_or_plain slash;
                  Opt (Seq (lit "@") (Group 2 (Plus true not_slash)));
                  Group 3 (Star true Any)]) (String.length prefix) s [] k) ->
  exists m,
    match_ re 3
      (prefix +:+ String "@" (scope +:+ String "/"
                   (pkg +:+ String "@" (old +:+ String "/" path)))) = Some m /\
    m !! 1 = Some (Some (String "@" (scope +:+ String "/" pkg))) /\
    m !! 2 = Some (Some old) /\
    m !! 3 = Some (Some (String "/" path)).
Proof.
  intros Hre.
  destruct (parse_scoped_groups slash (String.length prefix))
    as (e & cs' & Hrun & H1 & H2 & H3).
  unfold match_. rewrite (search_here _ _ _ _ _ _ (eq_trans (Hre _ _) Hrun)).
  eexists. split; [reflexivity|]. simpl. rewrite H1, H2, H3. repeat split.
Qed.
End ScopedSpecifier.

(** X25. The [jsr:] and [npm:] classes, on every scoped specifier
    [<prefix>@scope/pkg@old/path]: [at(v)] is the same class on
    [<prefix>@scope/pkg@v/path], only the version is replaced and the path is
    kept, and [version()] of the result is [v], for every valid version [v]. *)
Theorem Jsr_Npm_at_replaces_version (scope pkg old path v : string) :
  scope <> "" /\ all_chars (accepts not_slash) scope = true ->
  pkg <> "" /\ all_chars (accepts not_at_slash) pkg = true ->
  old <> "" /\ all_chars (accepts not_slash) old = true ->
  all_chars (accepts Any) path = true ->
  valid_version v = true ->
  let specifier prefix version :=
    prefix +:+ String "@" (scope +:+ String "/"
                 (pkg +:+ String "@" (version +:+ String "/" path))) in
  (at_ (new Jsr (specifier "jsr:" old)) v = Normal (new Jsr (specifier "jsr:" v)) /\
   version (new Jsr (specifier "jsr:" v)) = Normal (VString v)) /\
  (at_ (new Npm (specifier "npm:" old)) v = Normal (new Npm (specifier "npm:" v)) /\
   version (new Npm (specifier "npm:" v)) = Normal (VString v)).
Proof.
  intros Hscope Hpkg Hold Hpath Hv specifier.
  destruct (valid_version_facts v Hv) as (Hne & Hns & _).
  assert (Hshape : forall prefix,
             prefix +:+ show (Some (String "@" (scope +:+ String "/" pkg))) +:+ "@" +:+ v
               +:+ show (Some (String "/" path))
             = specifier prefix v).
  { intros prefix. unfold specifier, show. cbn [default].
    change ("@" +:+ v +:+ String "/" path) with (String "@" (v +:+ String "/" path)).
    rewrite (app_cons "@" (scope +:+ String "/" pkg)), (app_assoc scope),
      (app_cons "/" pkg).
    reflexivity. }
  split; split.
  - unfold at_. cbn [ctor url].
    destruct (parsed_scoped_groups scope pkg old path Hscope Hpkg Hold Hpath
                jsr_parse_re "jsr:" true jsr_parse_prefix) as (m & Hm & H1 & _ & H3).
    unfold specifier. rewrite Hm, H1, H3.
    change (mjoin (Some (Some ?x))) with (Some x). rewrite Hshape. reflexivity.
  - unfold version. cbn [ctor url].
    destruct (parsed_version_scoped jsr_parse_re "jsr:" true scope pkg v path
                jsr_parse_prefix Hscope Hpkg (conj Hne Hns) Hpath) as (m & Hm & H2).
    unfold specifier. rewrite Hm, H2. change (mjoin (Some (Some v))) with (Some v).
    cbv beta iota. rewrite (startsWith_caret v Hv). reflexivity.
  - unfold at_. cbn [ctor url].
    destruct (parsed_scoped_groups scope pkg old path Hscope Hpkg Hold Hpath
                npm_parse_re "npm:" false npm_parse_prefix) as (m & Hm & H1 & _ & H3).
    unfold specifier. rewrite Hm, H1, H3.
    change (mjoin (Some (Some ?x))) with (Some x). rewrite Hshape. reflexivity.
  - unfold version. cbn [ctor url].
    destruct (parsed_version_scoped npm_parse_re "npm:" false scope pkg v path
                npm_parse_prefix Hscope Hpkg (conj Hne Hns) Hpath) as (m & Hm & H2).
    unfold specifier. rewrite Hm, H2. reflexivity.
Qed.

Lemma Jsr_Npm_at_replaces_version_witness :
  (at_ (new Jsr "jsr:@deco/deco@^1.0.0/mod.ts") "1.2.0"
   = Normal (new Jsr "jsr:@deco/deco@1.2.0/mod.ts") /\
   version (new Jsr "jsr:@deco/deco@1.2.0/mod.ts") = Normal (VString "1.2.0")) /\
  (at_ (new Npm "npm:@deco/deco@^1.0.0/mod.ts") "1.2.0"
   = Normal (new Npm "npm:@deco/deco@1.2.0/mod.ts") /\
   version (new Npm "npm:@deco/deco@1.2.0/mod.ts") = Normal (VString "1.2.0")).
Proof.
  refine (Jsr_Npm_at_replaces_version "deco" "deco" "^1.0.0" "mod.ts" "1.2.0" _ _ _ _ _).
  - split; [discriminate|reflexivity].
  - split; [discriminate|reflexivity].
  - split; [discriminate|reflexivity].
  - reflexivity.
  - reflexivity.
Defined.

(* --------------------------------------------------------------------- *)
(** *** Instances of the properties of [at()] stated above *)

Lemma at_keeps_variant_witness :
  ctor (new Npm "npm:@scope/pkg@2.0.0/mod.js") = Npm.
Proof.
  apply (at_keeps_variant (new Npm "npm:@scope/pkg@1.0.0/mod.js")
           (new Npm "npm:@scope/pkg@2.0.0/mod.js") "2.0.0");
    [discriminate|discriminate|vm_compute; reflexivity].
Defined.

Lemma at_then_version_canonical_witness :
  bind (at_ (new Jsr (canonical Jsr)) "2.0.0") version = Normal (VString "2.0.0").
Proof.
  apply (at_then_version_canonical Jsr "2.0.0");
    [discriminate|discriminate|vm_compute; reflexivity].
Defined.
